(** * jupyter-lab-progress: the progress tracker and the auto-grader

    A shallow embedding of [jupyter_lab_progress/progress.py] (class
    [LabProgress]) and of the scoring part of
    [jupyter_lab_progress/validator.py] (class [LabValidator]).

    Conventions of the embedding.
    - Python numbers that the code treats as reals (scores, weights,
      progress values) are rationals [Q]; counters are [Z].
    - A Python [dict] is an association list in insertion order: the
      code iterates over its dicts, and the order is the display order.
    - Everything the code reads from or writes to its surroundings (the
      wall clock, [uuid4], the file system, [subprocess.run], the
      notebook's display surface) lives in a [World] that is threaded
      through the methods by a small state monad [IO].
    - The HTML that the code renders is not modelled; each [display] or
      [print] call leaves one [shown] item that names the call. *)

From Stdlib Require Import String Ascii List ZArith QArith Qminmax Bool Lia.
Import ListNotations.
Local Open Scope string_scope.
Local Open Scope Z_scope.
Set Warnings "-register-all".

(* ================================================================== *)
(** * Python values *)

(** A JSON document as [json.load] returns it and [json.dump] accepts
    it.  Python keeps [int] and [float] apart, so do we.  The text of a
    file is not modelled: a file holds the document itself. *)
Inductive json : Type :=
| JNull
| JBool (b : bool)
| JInt (z : Z)
| JFloat (q : Q)
| JStr (s : string)
| JArr (items : list json)
| JObj (members : list (string * json)).

(** What a raised exception is, as far as the code tells them apart.
    All of them are subclasses of [Exception], the class that the
    [except] clauses of the code catch. *)
Inductive exn : Type :=
| ValueError (msg : string)
| FileNotFoundError (msg : string)
| KeyError (key : string)
| TypeError
| AttributeError
| JSONDecodeError.

Inductive result (A : Type) : Type :=
| Ok (a : A)
| Raise (e : exn).
Arguments Ok {A} a.
Arguments Raise {A} e.

(* ------------------------------------------------------------------ *)
(** ** Dictionaries *)

Module Dict.
Section Dict.
Context {V : Type}.

Definition t := list (string * V).

(** [d.get(k)] *)
Fixpoint get (k : string) (d : t) : option V :=
  match d with
  | [] => None
  | (k', v) :: d' => if String.eqb k k' then Some v else get k d'
  end.

(** [k in d] *)
Definition mem (k : string) (d : t) : bool :=
  match get k d with Some _ => true | None => false end.

(** [d[k] = v]: an existing key keeps its place, a new one goes last. *)
Fixpoint set (k : string) (v : V) (d : t) : t :=
  match d with
  | [] => [(k, v)]
  | (k', v') :: d' =>
      if String.eqb k k' then (k', v) :: d' else (k', v') :: set k v d'
  end.

Definition keys (d : t) : list string := map fst d.
Definition values (d : t) : list V := map snd d.
End Dict.
Arguments t : clear implicits.
End Dict.

(* ------------------------------------------------------------------ *)
(** ** Strings *)

(** [str.lower()] on ASCII letters (bytes outside A-Z are kept). *)
Definition lower_ascii (c : ascii) : ascii :=
  let n := nat_of_ascii c in
  if andb (Nat.leb 65 n) (Nat.leb n 90) then ascii_of_nat (n + 32)%nat else c.

Fixpoint lower (s : string) : string :=
  match s with
  | EmptyString => EmptyString
  | String c s' => String (lower_ascii c) (lower s')
  end.

(** [s.replace(' ', '_')] *)
Fixpoint replace_space (s : string) : string :=
  match s with
  | EmptyString => EmptyString
  | String c s' =>
      String (if Ascii.eqb c " "%char then "_"%char else c) (replace_space s')
  end.

(** [needle in haystack] *)
Fixpoint contains (needle haystack : string) : bool :=
  if String.prefix needle haystack then true
  else match haystack with
       | EmptyString => false
       | String _ rest => contains needle rest
       end.

(** [s.endswith(suffix)] *)
Fixpoint endswith (suffix s : string) : bool :=
  if String.eqb suffix s then true
  else match s with
       | EmptyString => false
       | String _ rest => endswith suffix rest
       end.

(** Truthiness of a string: [if s:] *)
Definition truthy (s : string) : bool :=
  match s with EmptyString => false | _ => true end.

(** Truthiness of an optional string: [None] and [''] are both false. *)
Definition truthy_opt (s : option string) : bool :=
  match s with Some s' => truthy s' | None => false end.

(* ------------------------------------------------------------------ *)
(** ** Decimal digits *)

Definition digit (n : Z) : ascii := ascii_of_nat (Z.to_nat (48 + n mod 10)).

Definition digit_value (c : ascii) : option Z :=
  let n := Z.of_nat (nat_of_ascii c) in
  if (48 <=? n) && (n <=? 57) then Some (n - 48) else None.

(** The [k] low decimal digits of [n], most significant first, put in
    front of [rest]: [f"{n:0kd}" + rest] when [0 <= n < 10^k]. *)
Fixpoint pad (k : nat) (n : Z) (rest : string) : string :=
  match k with
  | O => rest
  | S k' => pad k' (n / 10) (String (digit n) rest)
  end.

(** Read exactly [k] decimal digits. *)
Fixpoint read_digits (k : nat) (acc : Z) (s : string) : option (Z * string) :=
  match k with
  | O => Some (acc, s)
  | S k' =>
      match s with
      | EmptyString => None
      | String c s' =>
          match digit_value c with
          | Some d => read_digits k' (10 * acc + d) s'
          | None => None
          end
      end
  end.

(** [str(n)] for [n >= 0]; [fuel] bounds the number of digits. *)
Fixpoint str_nat_aux (fuel : nat) (n : Z) (rest : string) : string :=
  match fuel with
  | O => rest
  | S fuel' =>
      if n <? 10 then String (digit n) rest
      else str_nat_aux fuel' (n / 10) (String (digit n) rest)
  end.

Definition str_nat (n : nat) : string := str_nat_aux (S n) (Z.of_nat n) "".

(** Expect the character [c] at the head of [s]. *)
Definition expect (c : ascii) (s : string) : option string :=
  match s with
  | String c' s' => if Ascii.eqb c c' then Some s' else None
  | EmptyString => None
  end.

Definition bind_opt {A B : Type} (o : option A) (f : A -> option B) : option B :=
  match o with Some a => f a | None => None end.

Notation "'let?' x ':=' o 'in' k" := (bind_opt o (fun x => k))
  (at level 10, x pattern, o at level 100, k at level 200).

(* ================================================================== *)
(** * Dates and times *)

(** A naive [datetime.datetime]: the seven fields Python stores. *)
Record datetime : Type := mk_datetime {
  year : Z; month : Z; day : Z;
  hour : Z; minute : Z; second : Z; microsecond : Z
}.

Definition is_leap (y : Z) : bool :=
  (y mod 4 =? 0) && (negb (y mod 100 =? 0) || (y mod 400 =? 0)).

Definition days_in_month (y m : Z) : Z :=
  match m with
  | 2 => if is_leap y then 29 else 28
  | 4 | 6 | 9 | 11 => 30
  | _ => 31
  end.

(** The range check of the [datetime] constructor. *)
Definition valid_datetime (d : datetime) : bool :=
  (1 <=? year d) && (year d <=? 9999) &&
  (1 <=? month d) && (month d <=? 12) &&
  (1 <=? day d) && (day d <=? days_in_month (year d) (month d)) &&
  (0 <=? hour d) && (hour d <? 24) &&
  (0 <=? minute d) && (minute d <? 60) &&
  (0 <=? second d) && (second d <? 60) &&
  (0 <=? microsecond d) && (microsecond d <? 1000000).

(** [d.isoformat()]: [YYYY-MM-DDTHH:MM:SS], followed by [.ffffff] when
    the microsecond field is not zero. *)
Definition isoformat (d : datetime) : string :=
  pad 4 (year d) (String "-" (pad 2 (month d) (String "-" (pad 2 (day d)
    (String "T" (pad 2 (hour d) (String ":" (pad 2 (minute d) (String ":"
      (pad 2 (second d)
        (if microsecond d =? 0 then ""
         else String "." (pad 6 (microsecond d) "")))))))))))).

(** [datetime.fromisoformat(s)] on the two layouts [isoformat] writes;
    [None] stands for the [ValueError] Python raises. *)
Definition fromisoformat (s : string) : option datetime :=
  let? (y, s) := read_digits 4 0 s in
  let? s := expect "-" s in
  let? (mo, s) := read_digits 2 0 s in
  let? s := expect "-" s in
  let? (d, s) := read_digits 2 0 s in
  let? s := expect "T" s in
  let? (h, s) := read_digits 2 0 s in
  let? s := expect ":" s in
  let? (mi, s) := read_digits 2 0 s in
  let? s := expect ":" s in
  let? (sec, s) := read_digits 2 0 s in
  let? us :=
    match s with
    | EmptyString => Some 0
    | _ => let? s := expect "." s in
           let? (us, s) := read_digits 6 0 s in
           match s with EmptyString => Some us | _ => None end
    end in
  let dt := mk_datetime y mo d h mi sec us in
  if valid_datetime dt then Some dt else None.

(** Days from 0001-01-01 (which is day 1), as [datetime.toordinal]. *)
Definition days_before_year (y : Z) : Z :=
  let y1 := y - 1 in y1 * 365 + y1 / 4 - y1 / 100 + y1 / 400.

Definition days_before_month (y m : Z) : Z :=
  fold_left (fun acc m' => acc + days_in_month y m')
            (map Z.of_nat (seq 1 (Z.to_nat (m - 1)))) 0.

Definition toordinal (d : datetime) : Z :=
  days_before_year (year d) + days_before_month (year d) (month d) + day d.

Definition microseconds (d : datetime) : Z :=
  (((toordinal d * 24 + hour d) * 60 + minute d) * 60 + second d) * 1000000
  + microsecond d.

(** [(a - b).total_seconds()] *)
Definition total_seconds_between (a b : datetime) : Q :=
  Qmake (microseconds a - microseconds b) 1000000.

(* ================================================================== *)
(** * The world around the notebook *)

(** What [subprocess.run] does with a command: it completes (exit code,
    captured output, and the wall time the code measures around the
    call), runs into the timeout, or cannot be launched. *)
Inductive proc_outcome : Type :=
| Completed (returncode : Z) (stdout stderr : string) (execution_time : Q)
| TimeoutExpired
| LaunchError (msg : string).

(** A file either holds a JSON document or something [json.load] rejects. *)
Inductive file : Type :=
| JsonFile (doc : json)
| OtherFile.

(** One item per [display(HTML(...))] or [print(...)] call. *)
Inductive shown : Type :=
| ProgressPanel (lab : string) (completion_rate : Q) (average_score : option Q)
| UnknownStep (step : string)
| Printed (msg : string)
| ResumeMessage (lab : string) (completion_rate : Q) (remaining : nat)
| ShellHeader (step command cwd : string)
| ShellResult (command : string) (returncode : Z) (success : bool)
| ShellTimeout (command : string) (timeout : Z)
| ShellError (command msg : string)
| SequenceHeader (step : string) (count : nat) (stop_on_error : bool)
| CommandNumber (i count : nat)
| SequenceSummary (all_successful : bool) (successful_count count : nat)
| GradingHeader
| GradingResult (name : string) (score weighted_score : Q)
| GradingSummary (final_score total_weight : Q)
| GradingFooter.

Record World : Type := mk_World {
  clock : nat -> datetime;        (* successive readings of the wall clock *)
  ticks : nat;                    (* readings taken so far *)
  uuids : nat -> string;          (* successive [str(uuid.uuid4())] *)
  drawn : nat;
  files : Dict.t file;            (* the file system, by path *)
  cwd : string;                   (* [os.getcwd()] *)
  shell : nat -> string -> proc_outcome;   (* [subprocess.run], by call *)
  spawned : nat;
  screen : list shown             (* everything displayed, oldest first *)
}.

Definition IO (A : Type) : Type := World -> A * World.

Definition ret {A : Type} (a : A) : IO A := fun w => (a, w).

Definition bind {A B : Type} (m : IO A) (k : A -> IO B) : IO B :=
  fun w => let (a, w') := m w in k a w'.

Notation "x <- m ;; k" := (bind m (fun x => k))
  (at level 61, m at next level, right associativity).
Notation "m ;;; k" := (bind m (fun _ => k))
  (at level 61, right associativity).

(** [datetime.now()] *)
Definition now : IO datetime := fun w =>
  (clock w (ticks w),
   mk_World (clock w) (S (ticks w)) (uuids w) (drawn w) (files w) (cwd w)
            (shell w) (spawned w) (screen w)).

(** [str(uuid.uuid4())] *)
Definition uuid4 : IO string := fun w =>
  (uuids w (drawn w),
   mk_World (clock w) (ticks w) (uuids w) (S (drawn w)) (files w) (cwd w)
            (shell w) (spawned w) (screen w)).

(** [display(...)] and [print(...)] *)
Definition display (x : shown) : IO unit := fun w =>
  (tt,
   mk_World (clock w) (ticks w) (uuids w) (drawn w) (files w) (cwd w)
            (shell w) (spawned w) (screen w ++ [x])).

(** [os.path.exists(path)] *)
Definition path_exists (path : string) : IO bool := fun w =>
  (Dict.mem path (files w), w).

(** [open(path, 'w')] followed by [json.dump(doc, f)] *)
Definition write_json (path : string) (doc : json) : IO unit := fun w =>
  (tt,
   mk_World (clock w) (ticks w) (uuids w) (drawn w)
            (Dict.set path (JsonFile doc) (files w)) (cwd w)
            (shell w) (spawned w) (screen w)).

(** [open(path, 'r')] followed by [json.load(f)] *)
Definition read_json (path : string) : IO (result json) := fun w =>
  (match Dict.get path (files w) with
   | Some (JsonFile doc) => Ok doc
   | Some OtherFile => Raise JSONDecodeError
   | None => Raise (FileNotFoundError path)
   end, w).

Definition getcwd : IO string := fun w => (cwd w, w).

(** [subprocess.run(command, shell=True, ...)] *)
Definition subprocess_run (command : string) : IO proc_outcome := fun w =>
  (shell w (spawned w) command,
   mk_World (clock w) (ticks w) (uuids w) (drawn w) (files w) (cwd w)
            (shell w) (S (spawned w)) (screen w)).

(** [Path('.').glob('.*.json')]: the names in the current directory that
    start with a dot and end in [.json], in directory order.  Paths are
    names relative to the current directory. *)
Definition glob_dot_json : IO (list string) := fun w =>
  (filter (fun name =>
             match name with
             | String "." rest =>
                 endswith ".json" rest && negb (contains "/" name)
             | _ => false
             end) (Dict.keys (files w)), w).

(* ================================================================== *)
(** * Python's [min], [max] and comparisons on numbers *)

Definition Qltb (x y : Q) : bool := negb (Qle_bool y x).

(** [min(a, b)]: [a] unless [b < a]. *)
Definition py_min (a b : Q) : Q := if Qltb b a then b else a.

(** [max(a, b)]: [a] unless [b > a]. *)
Definition py_max (a b : Q) : Q := if Qltb a b then b else a.

(** [sum(xs)] *)
Definition Qsum (xs : list Q) : Q := fold_left Qplus xs (0%Q).

Definition Qlen {A : Type} (xs : list A) : Q := inject_Z (Z.of_nat (length xs)).

(* ================================================================== *)
(** * The step registry *)

Module Checkpoint.
(** [{'name': ..., 'progress': ..., 'timestamp': ...}] *)
Record t : Type := mk {
  name : string;
  progress : Q;
  timestamp : string
}.
End Checkpoint.

Module Step.
(** The per-step dict of [LabProgress.steps]. *)
Record t : Type := mk {
  completed : bool;
  timestamp : option string;
  attempts : Z;
  score : option Q;
  notes : string;
  partial_progress : Q;
  checkpoints : list Checkpoint.t
}.

(** The record [__init__] and [reset_step] write. *)
Definition fresh : t := mk false None 0 None "" (0%Q) [].

Definition set_partial_progress (p : Q) (s : t) : t :=
  mk (completed s) (timestamp s) (attempts s) (score s) (notes s) p
     (checkpoints s).

Definition set_notes (n : string) (s : t) : t :=
  mk (completed s) (timestamp s) (attempts s) (score s) n
     (partial_progress s) (checkpoints s).

Definition set_attempts (a : Z) (s : t) : t :=
  mk (completed s) (timestamp s) a (score s) (notes s)
     (partial_progress s) (checkpoints s).

Definition append_checkpoint (c : Checkpoint.t) (s : t) : t :=
  mk (completed s) (timestamp s) (attempts s) (score s) (notes s)
     (partial_progress s) (checkpoints s ++ [c]).

(** The three assignments of [mark_done]. *)
Definition complete (ts : string) (sc : option Q) (s : t) : t :=
  mk true (Some ts) (attempts s) sc (notes s)
     (partial_progress s) (checkpoints s).
End Step.

(* ------------------------------------------------------------------ *)
(** ** The registry as a JSON document *)

Definition json_opt {A : Type} (f : A -> json) (o : option A) : json :=
  match o with Some a => f a | None => JNull end.

Definition checkpoint_to_json (c : Checkpoint.t) : json :=
  JObj [("name", JStr (Checkpoint.name c));
        ("progress", JFloat (Checkpoint.progress c));
        ("timestamp", JStr (Checkpoint.timestamp c))].

Definition step_to_json (s : Step.t) : json :=
  JObj [("completed", JBool (Step.completed s));
        ("timestamp", json_opt JStr (Step.timestamp s));
        ("attempts", JInt (Step.attempts s));
        ("score", json_opt JFloat (Step.score s));
        ("notes", JStr (Step.notes s));
        ("partial_progress", JFloat (Step.partial_progress s));
        ("checkpoints", JArr (map checkpoint_to_json (Step.checkpoints s)))].

Definition steps_to_json (d : Dict.t Step.t) : json :=
  JObj (map (fun kv => (fst kv, step_to_json (snd kv))) d).

(** Reading a document back into the typed registry.  A document that
    does not have the layout [_save_progress] writes has no typed
    counterpart; the readers answer [None] for it. *)
Definition as_str (j : json) : option string :=
  match j with JStr s => Some s | _ => None end.

Definition as_bool (j : json) : option bool :=
  match j with JBool b => Some b | _ => None end.

Definition as_int (j : json) : option Z :=
  match j with JInt z => Some z | _ => None end.

Definition as_num (j : json) : option Q :=
  match j with
  | JInt z => Some (inject_Z z)
  | JFloat q => Some q
  | _ => None
  end.

Definition as_obj (j : json) : option (Dict.t json) :=
  match j with JObj o => Some o | _ => None end.

Definition as_arr (j : json) : option (list json) :=
  match j with JArr l => Some l | _ => None end.

Definition as_opt {A : Type} (f : json -> option A) (j : json) : option (option A) :=
  match j with
  | JNull => Some None
  | _ => let? a := f j in Some (Some a)
  end.

Fixpoint traverse {A B : Type} (f : A -> option B) (l : list A) : option (list B) :=
  match l with
  | [] => Some []
  | a :: l' => let? b := f a in let? bs := traverse f l' in Some (b :: bs)
  end.

Definition field {A : Type} (k : string) (f : json -> option A)
    (o : Dict.t json) : option A :=
  let? j := Dict.get k o in f j.

Definition checkpoint_of_json (j : json) : option Checkpoint.t :=
  let? o := as_obj j in
  let? n := field "name" as_str o in
  let? p := field "progress" as_num o in
  let? ts := field "timestamp" as_str o in
  Some (Checkpoint.mk n p ts).

(** The keys [partial_progress] and [checkpoints] may be missing in an
    older file; [__init__] fills them in with [0.0] and [[]], and
    [display_progress] reads a missing [partial_progress] as [0]. *)
Definition step_of_json (j : json) : option Step.t :=
  let? o := as_obj j in
  let? c := field "completed" as_bool o in
  let? ts := field "timestamp" (as_opt as_str) o in
  let? a := field "attempts" as_int o in
  let? sc := field "score" (as_opt as_num) o in
  let? n := field "notes" as_str o in
  let? p := match Dict.get "partial_progress" o with
            | Some j' => as_num j'
            | None => Some (0%Q)
            end in
  let? cps := match Dict.get "checkpoints" o with
              | Some j' => let? l := as_arr j' in traverse checkpoint_of_json l
              | None => Some []
              end in
  Some (Step.mk c ts a sc n p cps).

Definition steps_of_json (j : json) : option (Dict.t Step.t) :=
  let? o := as_obj j in
  traverse (fun kv => let? s := step_of_json (snd kv) in Some (fst kv, s)) o.

Definition times_to_json (d : Dict.t datetime) : json :=
  JObj (map (fun kv => (fst kv, JStr (isoformat (snd kv)))) d).

Definition times_of_json (j : json) : option (Dict.t datetime) :=
  let? o := as_obj j in
  traverse (fun kv => let? s := as_str (snd kv) in
                      let? t := fromisoformat s in Some (fst kv, t)) o.

(* ================================================================== *)
(** * [class LabProgress] *)

Module LabProgress.

(** The attributes of a tracker.  [_display_handle] is left out: it
    holds what [display] returns, which is always [None], so the
    [clear_output] call it guards never runs.  [_previous_session_id]
    exists only on a tracker that has loaded a file. *)
Record t : Type := mk {
  lab_name : string;
  persist : bool;
  auto_save : bool;
  persist_file : string;
  _session_id : string;
  _student_id : string;
  step_metadata : Dict.t json;
  _analytics_data : list json;
  _step_start_times : Dict.t datetime;
  steps : Dict.t Step.t;
  start_time : datetime;
  _is_resumed : bool;
  _previous_session_id : option string
}.

Definition with_steps (v : Dict.t Step.t) (self : t) : t :=
  mk (lab_name self) (persist self) (auto_save self) (persist_file self)
     (_session_id self) (_student_id self) (step_metadata self)
     (_analytics_data self) (_step_start_times self) v (start_time self)
     (_is_resumed self) (_previous_session_id self).

Definition with_start_time (v : datetime) (self : t) : t :=
  mk (lab_name self) (persist self) (auto_save self) (persist_file self)
     (_session_id self) (_student_id self) (step_metadata self)
     (_analytics_data self) (_step_start_times self) (steps self) v
     (_is_resumed self) (_previous_session_id self).

Definition with_is_resumed (v : bool) (self : t) : t :=
  mk (lab_name self) (persist self) (auto_save self) (persist_file self)
     (_session_id self) (_student_id self) (step_metadata self)
     (_analytics_data self) (_step_start_times self) (steps self)
     (start_time self) v (_previous_session_id self).

Definition with_previous_session_id (v : option string) (self : t) : t :=
  mk (lab_name self) (persist self) (auto_save self) (persist_file self)
     (_session_id self) (_student_id self) (step_metadata self)
     (_analytics_data self) (_step_start_times self) (steps self)
     (start_time self) (_is_resumed self) v.

Definition with_student_id (v : string) (self : t) : t :=
  mk (lab_name self) (persist self) (auto_save self) (persist_file self)
     (_session_id self) v (step_metadata self) (_analytics_data self)
     (_step_start_times self) (steps self) (start_time self)
     (_is_resumed self) (_previous_session_id self).

Definition with_step_metadata (v : Dict.t json) (self : t) : t :=
  mk (lab_name self) (persist self) (auto_save self) (persist_file self)
     (_session_id self) (_student_id self) v (_analytics_data self)
     (_step_start_times self) (steps self) (start_time self)
     (_is_resumed self) (_previous_session_id self).

Definition with_analytics_data (v : list json) (self : t) : t :=
  mk (lab_name self) (persist self) (auto_save self) (persist_file self)
     (_session_id self) (_student_id self) (step_metadata self) v
     (_step_start_times self) (steps self) (start_time self)
     (_is_resumed self) (_previous_session_id self).

Definition with_step_start_times (v : Dict.t datetime) (self : t) : t :=
  mk (lab_name self) (persist self) (auto_save self) (persist_file self)
     (_session_id self) (_student_id self) (step_metadata self)
     (_analytics_data self) v (steps self) (start_time self)
     (_is_resumed self) (_previous_session_id self).

(** [self.steps[step] = f(self.steps[step])] for a step that is there. *)
Definition update_step (step : string) (f : Step.t -> Step.t) (self : t) : t :=
  match Dict.get step (steps self) with
  | Some s => with_steps (Dict.set step (f s) (steps self)) self
  | None => self
  end.

(** [f".{lab_name.lower().replace(' ', '_')}_progress.json"] *)
Definition default_persist_file (lab : string) : string :=
  "." ++ replace_space (lower lab) ++ "_progress.json".

Definition get_completion_rate (self : t) : Q :=
  let completed :=
    length (filter Step.completed (Dict.values (steps self))) in
  match steps self with
  | [] => 0%Q
  | _ => (inject_Z (Z.of_nat completed) / Qlen (steps self) * 100)%Q
  end.

Definition get_average_score (self : t) : option Q :=
  let scores :=
    flat_map (fun s => if Step.completed s
                       then match Step.score s with Some x => [x] | None => [] end
                       else [])
             (Dict.values (steps self)) in
  match scores with
  | [] => None
  | _ => Some (Qsum scores / Qlen scores)%Q
  end.

Definition get_incomplete_steps (self : t) : list string :=
  Dict.keys (filter (fun kv => negb (Step.completed (snd kv))) (steps self)).

Definition get_current_step (self : t) : option string :=
  match get_incomplete_steps self with
  | step :: _ => Some step
  | [] => None
  end.

(** Reads the clock once, for the elapsed time it shows.  The code
    itself always calls it with the default [detailed=False]. *)
Definition display_progress (self : t) : IO unit :=
  let completion_rate := get_completion_rate self in
  let avg_score := get_average_score self in
  _ <- now ;;
  display (ProgressPanel (lab_name self) completion_rate avg_score).

(** The dict [data] that [_save_progress] builds and dumps. *)
Definition saved_data (self : t) (last_saved : datetime) : json :=
  JObj [("lab_name", JStr (lab_name self));
        ("steps", steps_to_json (steps self));
        ("start_time", JStr (isoformat (start_time self)));
        ("session_id", JStr (_session_id self));
        ("student_id", JStr (_student_id self));
        ("last_saved", JStr (isoformat last_saved));
        ("step_metadata", JObj (step_metadata self));
        ("analytics_data", JArr (_analytics_data self));
        ("step_start_times", times_to_json (_step_start_times self))].

Definition _save_progress (self : t) : IO unit :=
  last_saved <- now ;;
  write_json (persist_file self) (saved_data self last_saved).

(** [if self.persist and self.auto_save: self._save_progress()] *)
Definition autosave (self : t) : IO unit :=
  if persist self && auto_save self then _save_progress self else ret tt.

(** A key that may be missing: [None] when it is there with a value the
    typed tracker cannot hold. *)
Definition optional {A : Type} (k : string) (f : json -> option A)
    (o : Dict.t json) : option (option A) :=
  match Dict.get k o with
  | None => Some None
  | Some j => let? a := f j in Some (Some a)
  end.

Definition assign {A : Type} (set : A -> t -> t) (v : option A) (self : t) : t :=
  match v with Some a => set a self | None => self end.

(** The body of the [try] in [_load_progress], after [json.load]: the
    assignments in source order.  The answer is the tracker as far as
    the assignments got, and whether the body ran to its end; an
    exception leaves the earlier assignments in place.  A value that
    the typed tracker cannot hold (a registry that is not of the saved
    layout, a session id that is not a string) stops the body like an
    exception; Python would store such a value as it is. *)
Definition load_fields (data : json) (self : t) : t * bool :=
  match as_obj data with
  | None => (self, false)
  | Some o =>
  match field "steps" steps_of_json o with
  | None => (self, false)
  | Some st =>
  let self := with_steps st self in
  match field "start_time" (fun j => let? s := as_str j in fromisoformat s) o with
  | None => (self, false)
  | Some t0 =>
  let self := with_is_resumed true (with_start_time t0 self) in
  match optional "session_id" as_str o with
  | None => (self, false)
  | Some sid =>
  let self := assign (fun v => with_previous_session_id (Some v)) sid self in
  match optional "student_id" as_str o with
  | None => (self, false)
  | Some stu =>
  let self := assign with_student_id stu self in
  match optional "step_metadata" as_obj o with
  | None => (self, false)
  | Some md =>
  let self := assign with_step_metadata md self in
  match optional "analytics_data" as_arr o with
  | None => (self, false)
  | Some ad =>
  let self := assign with_analytics_data ad self in
  match optional "step_start_times" times_of_json o with
  | None => (self, false)
  | Some sst => (assign with_step_start_times sst self, true)
  end end end end end end end end.

Definition _load_progress (self : t) : IO t :=
  r <- read_json (persist_file self) ;;
  match r with
  | Raise _ =>
      display (Printed "Could not load saved progress") ;;; ret self
  | Ok data =>
      let (self', finished) := load_fields data self in
      if finished then ret self'
      else display (Printed "Could not load saved progress") ;;; ret self'
  end.

(** The [steps] argument of [__init__]: a list of names, or a dict of
    step records.  In a typed record the keys [partial_progress] and
    [checkpoints], which [__init__] adds to a dict that lacks them, are
    always there. *)
Inductive steps_arg : Type :=
| StepNames (names : list string)
| StepDict (d : Dict.t Step.t).

(** [start_time] is assigned near the end of [__init__]; until then the
    record carries the first clock reading in that field, which nothing
    reads before the assignment. *)
Definition __init__ (steps : steps_arg) (lab_name : string) (persist : bool)
    (persist_file : option string) (auto_save : bool)
    (step_metadata : option (Dict.t json)) : IO t :=
  let persist_file :=
    match persist_file with
    | Some p => if truthy p then p else default_persist_file lab_name
    | None => default_persist_file lab_name
    end in
  created <- now ;;
  uuid <- uuid4 ;;
  let registry :=
    match steps with
    | StepNames names =>
        fold_left (fun d step => Dict.set step Step.fresh d) names []
    | StepDict d => d
    end in
  let self :=
    mk lab_name persist auto_save persist_file (isoformat created)
       (substring 0 8 uuid)
       (match step_metadata with Some m => m | None => [] end)
       [] [] registry created false None in
  found <- (if persist then path_exists persist_file else ret false) ;;
  self <- (if found then _load_progress self else ret self) ;;
  started <- now ;;
  let self := with_is_resumed false (with_start_time started self) in
  display_progress self ;;;
  ret self.

(** [{...six fixed keys..., **kwargs}].  The [hasattr] guards of the
    source never fire: [__init__] sets the three attributes. *)
Definition _record_analytics_event (event_type : string)
    (step_name : option string) (kwargs : Dict.t json) (self : t) : IO t :=
  stamp <- now ;;
  let event :=
    fold_left (fun d kv => Dict.set (fst kv) (snd kv) d) kwargs
      [("timestamp", JStr (isoformat stamp));
       ("session_id", JStr (_session_id self));
       ("student_id", JStr (_student_id self));
       ("lab_name", JStr (lab_name self));
       ("event_type", JStr event_type);
       ("step_name", json_opt JStr step_name)] in
  ret (with_analytics_data (_analytics_data self ++ [JObj event]) self).

Definition mark_done (step : string) (score : option Q) (notes : string)
    (self : t) : IO t :=
  if Dict.mem step (steps self) then
    completion_time <- now ;;
    let time_spent :=
      match Dict.get step (_step_start_times self) with
      | Some started => Some (total_seconds_between completion_time started)
      | None => None
      end in
    let self :=
      update_step step (Step.complete (isoformat completion_time) score) self in
    let self :=
      if truthy notes then update_step step (Step.set_notes notes) self
      else self in
    self <- _record_analytics_event "step_completed" (Some step)
              [("score", json_opt JFloat score);
               ("time_spent", json_opt JFloat time_spent);
               ("notes", JStr notes)] self ;;
    autosave self ;;;
    display_progress self ;;;
    ret self
  else
    display (UnknownStep step) ;;; ret self.

Definition mark_partial (step : string) (progress : Q) (notes : string)
    (checkpoint_name : option string) (self : t) : IO t :=
  if Dict.mem step (steps self) then
    let self :=
      update_step step
        (Step.set_partial_progress (py_max 0 (py_min 1 progress))) self in
    let self :=
      if truthy notes then update_step step (Step.set_notes notes) self
      else self in
    self <- (if negb (Dict.mem step (_step_start_times self)) && Qltb 0 progress
             then started <- now ;;
                  ret (with_step_start_times
                         (Dict.set step started (_step_start_times self)) self)
             else ret self) ;;
    self <- (match checkpoint_name with
             | Some name =>
                 if truthy name then
                   stamp <- now ;;
                   ret (update_step step
                          (Step.append_checkpoint
                             (Checkpoint.mk name progress (isoformat stamp)))
                          self)
                 else ret self
             | None => ret self
             end) ;;
    self <- _record_analytics_event "partial_progress" (Some step)
              [("progress", JFloat progress);
               ("checkpoint_name", json_opt JStr checkpoint_name);
               ("notes", JStr notes)] self ;;
    autosave self ;;;
    display_progress self ;;;
    ret self
  else ret self.

Definition increment_attempts (step : string) (self : t) : IO t :=
  if Dict.mem step (steps self) then
    let self :=
      update_step step (fun s => Step.set_attempts (Step.attempts s + 1) s) self in
    self <- _record_analytics_event "attempt" (Some step) [] self ;;
    autosave self ;;;
    ret self
  else ret self.

Definition reset_step (step : string) (self : t) : IO t :=
  if Dict.mem step (steps self) then
    let self := update_step step (fun _ => Step.fresh) self in
    autosave self ;;;
    display_progress self ;;;
    ret self
  else ret self.

(** [for step in self.steps: self.reset_step(step)]; the keys do not
    change while the loop runs. *)
Fixpoint reset_each (names : list string) (self : t) : IO t :=
  match names with
  | [] => ret self
  | step :: rest => self <- reset_step step self ;; reset_each rest self
  end.

Definition reset_all (self : t) : IO t :=
  reset_each (Dict.keys (steps self)) self.

Definition set_step_metadata (step : string) (metadata : json) (self : t) : IO t :=
  if Dict.mem step (steps self) then
    let self :=
      with_step_metadata (Dict.set step metadata (step_metadata self)) self in
    autosave self ;;;
    ret self
  else ret self.

(** The part of [resume] from [if not os.path.exists(persist_file)] on. *)
Definition resume_at (persist_file : string) : IO (result t) :=
  found <- path_exists persist_file ;;
  if negb found then
    ret (Raise (FileNotFoundError
                  ("No saved progress found at: " ++ persist_file)))
  else
    r <- read_json persist_file ;;
    match r with
    | Raise e => ret (Raise e)
    | Ok data =>
        match as_obj data with
        | None => ret (Raise TypeError)
        | Some o =>
            match Dict.get "steps" o, Dict.get "lab_name" o with
            | None, _ => ret (Raise (KeyError "steps"))
            | Some _, None => ret (Raise (KeyError "lab_name"))
            | Some jsteps, Some jlab =>
                match steps_of_json jsteps, as_str jlab with
                | Some registry, Some lab =>
                    instance <- __init__ (StepDict registry) lab true
                                  (Some persist_file) true None ;;
                    display (ResumeMessage (lab_name instance)
                               (get_completion_rate instance)
                               (length (get_incomplete_steps instance))) ;;;
                    ret (Ok instance)
                | _, _ => ret (Raise TypeError)
                end
            end
        end
    end.

Definition resume (lab_name persist_file : option string) : IO (result t) :=
  if negb (truthy_opt persist_file) && negb (truthy_opt lab_name) then
    progress_files <- glob_dot_json ;;
    match progress_files with
    | first :: _ =>
        display (Printed ("Found progress file: " ++ first)) ;;;
        resume_at first
    | [] =>
        ret (Raise (ValueError
                      "No progress file found. Provide lab_name or persist_file."))
    end
  else
    match persist_file, lab_name with
    | Some p, Some lab =>
        resume_at (if truthy p then p else default_persist_file lab)
    | Some p, None =>
        if truthy p then resume_at p else ret (Raise AttributeError)
    | None, Some lab => resume_at (default_persist_file lab)
    | None, None => ret (Raise AttributeError)
    end.

(** [run_shell_step]; the answer is the tracker and the returned flag.
    [expected_output], [timeout] and [working_dir] are the optional
    arguments of the source. *)
Definition run_shell_step (step_name command : string)
    (expected_output : option string) (timeout : Z)
    (working_dir : option string) (auto_mark_complete show_output : bool)
    (self : t) : IO (t * bool) :=
  self <- (if Dict.mem step_name (_step_start_times self) then ret self
           else started <- now ;;
                ret (with_step_start_times
                       (Dict.set step_name started (_step_start_times self))
                       self)) ;;
  here <- getcwd ;;
  let dir := match working_dir with
             | Some d => if truthy d then d else here
             | None => here
             end in
  (if show_output then display (ShellHeader step_name command dir)
   else ret tt) ;;;
  outcome <- subprocess_run command ;;
  match outcome with
  | Completed returncode stdout stderr execution_time =>
      let success :=
        if returncode =? 0 then
          match expected_output with
          | Some expected =>
              if truthy expected then contains expected stdout else true
          | None => true
          end
        else false in
      (if show_output then display (ShellResult command returncode success)
       else ret tt) ;;;
      self <- _record_analytics_event "shell_command" (Some step_name)
                [("command", JStr command);
                 ("returncode", JInt returncode);
                 ("execution_time", JFloat execution_time);
                 ("success", JBool success);
                 ("working_dir", JStr dir)] self ;;
      if success && auto_mark_complete && Dict.mem step_name (steps self) then
        self <- mark_done step_name (Some 100%Q)
                  "Shell command executed successfully" self ;;
        (if show_output then display_progress self else ret tt) ;;;
        ret (self, success)
      else if negb success && Dict.mem step_name (steps self) then
        let self :=
          update_step step_name
            (fun s => Step.set_attempts (Step.attempts s + 1) s) self in
        autosave self ;;;
        ret (self, success)
      else ret (self, success)
  | TimeoutExpired =>
      (if show_output then display (ShellTimeout command timeout)
       else ret tt) ;;;
      self <- _record_analytics_event "shell_timeout" (Some step_name)
                [("command", JStr command); ("timeout", JInt timeout)] self ;;
      ret (self, false)
  | LaunchError msg =>
      (if show_output then display (ShellError command msg) else ret tt) ;;;
      self <- _record_analytics_event "shell_error" (Some step_name)
                [("command", JStr command); ("error", JStr msg)] self ;;
      ret (self, false)
  end.

(** The [for i, command in enumerate(commands, 1)] loop of
    [run_shell_sequence]; [i] is the number of the next command, [total]
    is [len(commands)].  The answer carries [all_successful] and
    [successful_count]. *)
Fixpoint run_commands (step_name : string) (working_dir : option string)
    (stop_on_error : bool) (timeout_per_command : Z) (total : nat)
    (i : nat) (commands : list string) (successful_count : nat)
    (all_successful : bool) (self : t) : IO (t * bool * nat) :=
  match commands with
  | [] => ret (self, all_successful, successful_count)
  | command :: rest =>
      display (CommandNumber i total) ;;;
      r <- run_shell_step (step_name ++ "_cmd_" ++ str_nat i) command None
             timeout_per_command working_dir false true self ;;
      let (self, success) := r in
      if success then
        run_commands step_name working_dir stop_on_error timeout_per_command
          total (S i) rest (S successful_count) all_successful self
      else if stop_on_error then ret (self, false, successful_count)
      else
        run_commands step_name working_dir stop_on_error timeout_per_command
          total (S i) rest successful_count false self
  end.

Definition run_shell_sequence (step_name : string) (commands : list string)
    (working_dir : option string) (stop_on_error : bool)
    (timeout_per_command : Z) (self : t) : IO (t * bool) :=
  let total := length commands in
  display (SequenceHeader step_name total stop_on_error) ;;;
  r <- run_commands step_name working_dir stop_on_error timeout_per_command
         total 1 commands 0 true self ;;
  let '(self, all_successful, successful_count) := r in
  display (SequenceSummary all_successful successful_count total) ;;;
  if all_successful && Dict.mem step_name (steps self) then
    self <- mark_done step_name (Some 100%Q)
              ("All " ++ str_nat total ++ " shell commands executed successfully")
              self ;;
    display_progress self ;;;
    ret (self, all_successful)
  else if Dict.mem step_name (steps self) then
    let self :=
      update_step step_name
        (fun s =>
           Step.set_partial_progress
             (inject_Z (Z.of_nat successful_count) / Qlen commands * 100)%Q
             (Step.set_attempts (Step.attempts s + 1) s)) self in
    autosave self ;;;
    ret (self, all_successful)
  else ret (self, all_successful).

End LabProgress.

(* ================================================================== *)
(** * [class LabValidator]: scoring rules and auto-grading *)

Module Rule.
Section Rule.
Context {Namespace : Type}.

(** What a callable checker hands back: a plain truth value, or a pair
    [(success, score)].  (A tuple of another length makes the unpacking
    in [validate_with_score] raise inside the [try]; that is one of the
    ways in which running a checker ends in [Raise].) *)
Inductive returned : Type :=
| Plain (success : bool)
| Scored (success : bool) (score : Q).

(** A checker is a callable, run on the notebook's namespace, or a
    configuration dict.  A configuration is represented by what
    [_run_dict_validation] does with it on a namespace (the variable,
    output and DataFrame validators it dispatches to are outside this
    development).  Either may raise. *)
Inductive checker_t : Type :=
| Callable (f : Namespace -> result returned)
| Config (run : Namespace -> result bool).

(** The dict [add_scoring_rule] stores. *)
Record t : Type := mk {
  weight : Q;
  checker : checker_t;
  description : string;
  partial_credit : bool;
  last_score : option Q;
  last_result : option bool
}.

Definition record_outcome (sc : Q) (ok : bool) (r : t) : t :=
  mk (weight r) (checker r) (description r) (partial_credit r)
     (Some sc) (Some ok).
End Rule.
Arguments returned : clear implicits.
Arguments checker_t : clear implicits.
Arguments t : clear implicits.
End Rule.

Module Graded.
(** One entry of [detailed_results]. *)
Record t : Type := mk {
  score : Q;
  weighted_score : Q;
  weight : Q;
  success : bool;
  description : string
}.
End Graded.

Module LabValidator.
Section LabValidator.
Context {Namespace : Type}.

(** The module's own [globals()], used when no namespace is given. *)
Variable module_globals : Namespace.

Record history_entry : Type := mk_entry {
  entry_rule : string;
  entry_score : Q;
  entry_success : bool;
  entry_timestamp : datetime
}.

(** The attributes the scoring methods use.  [progress_tracker] is left
    out: [run_auto_grading] only calls its [set_overall_score], which
    [LabProgress] does not define. *)
Record t : Type := mk {
  scoring_rules : Dict.t (Rule.t Namespace);
  validation_history : list history_entry
}.

Definition add_scoring_rule (name : string) (weight : Q)
    (checker : Rule.checker_t Namespace) (description : string)
    (partial_credit : bool) (self : t) : t :=
  mk (Dict.set name
        (Rule.mk weight checker description partial_credit None None)
        (scoring_rules self))
     (validation_history self).

(** [100 if success else 0] *)
Definition pass_fail (success : bool) : Q := if success then 100%Q else 0%Q.

(** The first statement of the [try]: run the checker and read its
    answer as [(success, score)]. *)
Definition run_checker (c : Rule.checker_t Namespace) (ns : Namespace)
    : result (bool * Q) :=
  match c with
  | Rule.Callable f =>
      match f ns with
      | Ok (Rule.Scored success score) => Ok (success, score)
      | Ok (Rule.Plain success) => Ok (success, pass_fail success)
      | Raise e => Raise e
      end
  | Rule.Config run =>
      match run ns with
      | Ok success => Ok (success, pass_fail success)
      | Raise e => Raise e
      end
  end.

Definition validate_with_score (rule_name : string) (ns : Namespace)
    (self : t) : IO (t * (bool * Q)) :=
  match Dict.get rule_name (scoring_rules self) with
  | None => ret (self, (false, 0%Q))
  | Some rule =>
      match run_checker (Rule.checker rule) ns with
      | Ok (success, score) =>
          let score :=
            if Rule.partial_credit rule then score else pass_fail success in
          stamp <- now ;;
          ret (mk (Dict.set rule_name (Rule.record_outcome score success rule)
                     (scoring_rules self))
                  (validation_history self
                     ++ [mk_entry rule_name score success stamp]),
               (success, score))
      | Raise _ =>
          ret (mk (Dict.set rule_name (Rule.record_outcome 0%Q false rule)
                     (scoring_rules self))
                  (validation_history self),
               (false, 0%Q))
      end
  end.

(** What [run_auto_grading] returns. *)
Record report : Type := mk_report {
  final_score : Q;
  total_weight : Q;
  detailed_results : Dict.t Graded.t;
  timestamp : string
}.

(** The running state of the grading loop. *)
Record tally : Type := mk_tally {
  results : Dict.t Graded.t;
  total_score : Q;
  sum_weight : Q
}.

(** [for rule_name, rule in self.scoring_rules.items()]: the loop runs
    over the rules as they are when it starts; [validate_with_score]
    rewrites [last_score] and [last_result] only, so the [weight] and
    [description] the body reads are those of the stored rule. *)
Fixpoint grade_rules (rules : list (string * Rule.t Namespace))
    (ns : Namespace) (verbose : bool) (acc : tally) (self : t)
    : IO (t * tally) :=
  match rules with
  | [] => ret (self, acc)
  | (rule_name, rule) :: rest =>
      r <- validate_with_score rule_name ns self ;;
      let '(self, (success, score)) := r in
      let weighted_score := (score * Rule.weight rule)%Q in
      let acc :=
        mk_tally
          (Dict.set rule_name
             (Graded.mk score weighted_score (Rule.weight rule) success
                        (Rule.description rule))
             (results acc))
          (total_score acc + weighted_score)%Q
          (sum_weight acc + Rule.weight rule)%Q in
      (if verbose then display (GradingResult rule_name score weighted_score)
       else ret tt) ;;;
      grade_rules rest ns verbose acc self
  end.

Definition run_auto_grading (globals_dict : option Namespace)
    (verbose : bool) (self : t) : IO (t * report) :=
  let ns := match globals_dict with Some g => g | None => module_globals end in
  (if verbose then display GradingHeader else ret tt) ;;;
  r <- grade_rules (scoring_rules self) ns verbose
         (mk_tally [] 0%Q 0%Q) self ;;
  let (self, acc) := r in
  let final :=
    if Qltb 0 (sum_weight acc) then (total_score acc / sum_weight acc)%Q
    else 0%Q in
  (if verbose
   then display (GradingSummary final (sum_weight acc)) ;;;
        display GradingFooter
   else ret tt) ;;;
  stamp <- now ;;
  ret (self, mk_report final (sum_weight acc) (results acc) (isoformat stamp)).

End LabValidator.
Arguments t : clear implicits.
End LabValidator.

(* ================================================================== *)
(** * [class LabValidator]: grades and plain validations *)

(** [Q] comparison [x >= y] as Python evaluates it. *)
Definition Qgeb (x y : Q) : bool := Qle_bool y x.

Definition _score_to_grade (score : Q) : string :=
  if Qgeb score 93 then "A"
  else if Qgeb score 90 then "A-"
  else if Qgeb score 87 then "B+"
  else if Qgeb score 83 then "B"
  else if Qgeb score 80 then "B-"
  else if Qgeb score 77 then "C+"
  else if Qgeb score 73 then "C"
  else if Qgeb score 70 then "C-"
  else if Qgeb score 67 then "D+"
  else if Qgeb score 63 then "D"
  else if Qgeb score 60 then "D-"
  else "F".

Module Validation.

(** The attributes the plain validation methods use.  The validator
    holds a reference to the tracker; here it carries the tracker, and
    a method that marks a step hands back the validator with the
    updated tracker in it. *)
Record t : Type := mk {
  progress_tracker : option LabProgress.t;
  last_validation_result : option bool
}.

(** The result box is not rendered; what is shown says whether the
    validation passed. *)
Definition _display_result (success : bool) (self : t) : IO (t * bool) :=
  display (Printed (if success then "validation passed"
                    else "validation failed")) ;;;
  ret (mk (progress_tracker self) (Some success), success).

Definition validate_custom (condition : bool) (self : t) : IO (t * bool) :=
  if condition then _display_result true self
  else _display_result false self.

(** An attached tracker is always truthy: [LabProgress] defines neither
    [__bool__] nor [__len__]. *)
Definition validate_and_mark_complete (step_name : string) (condition : bool)
    (self : t) : IO (t * bool) :=
  r <- validate_custom condition self ;;
  let (self, result) := r in
  match progress_tracker self with
  | Some tracker =>
      if result then
        tracker <- LabProgress.mark_done step_name None "" tracker ;;
        ret (mk (Some tracker) (last_validation_result self), result)
      else ret (self, result)
  | None => ret (self, result)
  end.

(** The closure [validator(condition, ...)] that the method returns. *)
Definition create_step_validator (step_name : string)
    : bool -> t -> IO (t * bool) :=
  fun condition => validate_and_mark_complete step_name condition.

Definition validate_range (value : Q) (min_val max_val : option Q)
    (self : t) : IO (t * bool) :=
  match min_val with
  | Some lo => if Qltb value lo then _display_result false self
               else match max_val with
                    | Some hi => if Qltb hi value then _display_result false self
                                 else _display_result true self
                    | None => _display_result true self
                    end
  | None => match max_val with
            | Some hi => if Qltb hi value then _display_result false self
                         else _display_result true self
            | None => _display_result true self
            end
  end.

Definition validate_file_exists (filepath : string) (self : t) : IO (t * bool) :=
  found <- path_exists filepath ;;
  if negb found then _display_result false self
  else _display_result true self.

(** The loop of [validate_list_items]: the indices of the items that
    the validator function rejects or on which it raises. *)
Fixpoint invalid_items {A : Type} (validator_func : A -> result bool)
    (i : nat) (lst : list A) : list nat :=
  match lst with
  | [] => []
  | item :: rest =>
      match validator_func item with
      | Ok true => invalid_items validator_func (S i) rest
      | Ok false | Raise _ => i :: invalid_items validator_func (S i) rest
      end
  end.

Definition validate_list_items {A : Type} (lst : list A)
    (validator_func : A -> result bool) (self : t) : IO (t * bool) :=
  match invalid_items validator_func 0 lst with
  | _ :: _ => _display_result false self
  | [] => _display_result true self
  end.

End Validation.

(* ================================================================== *)
(** * Notions used in the statements *)

(** The readings of the clock [mark_partial] takes before it stamps a
    checkpoint: one if it records the start of the step. *)
Definition starts_now (step : string) (progress : Q)
    (self : LabProgress.t) : bool :=
  negb (Dict.mem step (LabProgress._step_start_times self)) && Qltb 0 progress.

(** The field [k] of an analytics event. *)
Definition event_field (k : string) (e : json) : option json :=
  match e with JObj o => Dict.get k o | _ => None end.

(** [P] holds of what the command [m] returns, in every world. *)
Definition always {A : Type} (P : A -> Prop) (m : IO A) : Prop :=
  forall w, P (fst (m w)).

(** The analytics log of [new] is that of [old] with events added at
    the end. *)
Definition extends (old new : LabProgress.t) : Prop :=
  exists suffix,
    LabProgress._analytics_data new
    = (LabProgress._analytics_data old ++ suffix)%list.

Section Grading.
Context {Namespace : Type}.
Implicit Types (ns : Namespace) (r : Rule.t Namespace).

(** The score of a rule on a namespace: what its checker says, pass or
    fail only when the rule gives no partial credit, and [0] when the
    checker raises. *)
Definition rule_score ns r : Q :=
  match LabValidator.run_checker (Rule.checker r) ns with
  | Ok (success, score) =>
      if Rule.partial_credit r then score else LabValidator.pass_fail success
  | Raise _ => 0%Q
  end.

Definition rule_success ns r : bool :=
  match LabValidator.run_checker (Rule.checker r) ns with
  | Ok (success, _) => success
  | Raise _ => false
  end.

(** The sum over the rules of score times weight, and the sum of the
    weights. *)
Definition weighted_sum ns (rules : Dict.t (Rule.t Namespace)) : Q :=
  Qsum (map (fun kr => (rule_score ns (snd kr) * Rule.weight (snd kr))%Q) rules).

Definition weight_sum (rules : Dict.t (Rule.t Namespace)) : Q :=
  Qsum (map (fun kr => Rule.weight (snd kr)) rules).

(** The entry of [detailed_results] for a rule. *)
Definition graded_entry ns r : Graded.t :=
  Graded.mk (rule_score ns r) (rule_score ns r * Rule.weight r)%Q
            (Rule.weight r) (rule_success ns r) (Rule.description r).

(** One turn of the grading loop, on the running totals alone. *)
Definition tally_step ns (acc : LabValidator.tally)
    (kr : string * Rule.t Namespace) : LabValidator.tally :=
  LabValidator.mk_tally
    (Dict.set (fst kr) (graded_entry ns (snd kr)) (LabValidator.results acc))
    (LabValidator.total_score acc
     + rule_score ns (snd kr) * Rule.weight (snd kr))%Q
    (LabValidator.sum_weight acc + Rule.weight (snd kr))%Q.
(** The rule stored under each name has the checker and the
    partial-credit flag of the rule the grading loop holds. *)
Definition agree (self : LabValidator.t Namespace)
    (rules : Dict.t (Rule.t Namespace)) : Prop :=
  forall n r, In (n, r) rules ->
    exists r', Dict.get n (LabValidator.scoring_rules self) = Some r'
               /\ Rule.checker r' = Rule.checker r
               /\ Rule.partial_credit r' = Rule.partial_credit r.
End Grading.

(** One elementary change of a tracker: the assignments that the
    mutating methods are made of, other than the reset of a step. *)
Inductive change : LabProgress.t -> LabProgress.t -> Prop :=
| change_complete step ts sc self :
    change self (LabProgress.update_step step (Step.complete ts sc) self)
| change_notes step n self :
    change self (LabProgress.update_step step (Step.set_notes n) self)
| change_partial step p self :
    change self (LabProgress.update_step step (Step.set_partial_progress p) self)
| change_attempts step self :
    change self
      (LabProgress.update_step step
         (fun s => Step.set_attempts (Step.attempts s + 1) s) self)
| change_checkpoint step c self :
    change self (LabProgress.update_step step (Step.append_checkpoint c) self)
| change_start step t self :
    Dict.mem step (LabProgress._step_start_times self) = false ->
    change self
      (LabProgress.with_step_start_times
         (Dict.set step t (LabProgress._step_start_times self)) self)
| change_event e self :
    change self
      (LabProgress.with_analytics_data
         (LabProgress._analytics_data self ++ [e]) self)
| change_metadata step md self :
    change self
      (LabProgress.with_step_metadata
         (Dict.set step md (LabProgress.step_metadata self)) self).

(** [grows a b]: [b] comes from [a] by elementary changes, no reset. *)
Inductive grows (a : LabProgress.t) : LabProgress.t -> Prop :=
| grows_refl : grows a a
| grows_change b c : grows a b -> change b c -> grows a c.

(** [evolves a b]: [b] comes from [a] by elementary changes and resets
    of single steps. *)
Inductive evolves (a : LabProgress.t) : LabProgress.t -> Prop :=
| evolves_refl : evolves a a
| evolves_change b c : evolves a b -> change b c -> evolves a c
| evolves_reset b step :
    evolves a b ->
    evolves a (LabProgress.update_step step (fun _ => Step.fresh) b).

(** The command [m] returns a value with [P] and leaves the files as
    they are. *)
Definition quiet {A : Type} (P : A -> Prop) (m : IO A) : Prop :=
  forall w, P (fst (m w)) /\ files (snd (m w)) = files w.

(** Every completed step carries the time of its completion. *)
Definition stamped (self : LabProgress.t) : Prop :=
  forall step s,
    Dict.get step (LabProgress.steps self) = Some s ->
    Step.completed s = true -> Step.timestamp s <> None.

(** The fields that say which session a tracker is and where it saves. *)
Definition same_session (a b : LabProgress.t) : Prop :=
  LabProgress.lab_name b = LabProgress.lab_name a
  /\ LabProgress._session_id b = LabProgress._session_id a
  /\ LabProgress._student_id b = LabProgress._student_id a
  /\ LabProgress.persist_file b = LabProgress.persist_file a
  /\ LabProgress.persist b = LabProgress.persist a
  /\ LabProgress.auto_save b = LabProgress.auto_save a.


(** What a step record keeps as long as the step is not reset: its
    completion, its count of attempts (which can only go up) and its
    checkpoints (to which more can only be added). *)
Definition kept (old new : Step.t) : Prop :=
  (Step.completed old = true -> Step.completed new = true)
  /\ Step.attempts old <= Step.attempts new
  /\ exists added,
       Step.checkpoints new = (Step.checkpoints old ++ added)%list.

(** A call of one of the mutating methods of a tracker. *)
Inductive call : Type :=
| MarkDone (step : string) (score : option Q) (notes : string)
| MarkPartial (step : string) (progress : Q) (notes : string)
    (checkpoint_name : option string)
| IncrementAttempts (step : string)
| ResetStep (step : string)
| ResetAll
| SetStepMetadata (step : string) (metadata : json)
| RunShellStep (step_name command : string) (expected_output : option string)
    (timeout : Z) (working_dir : option string)
    (auto_mark_complete show_output : bool)
| RunShellSequence (step_name : string) (commands : list string)
    (working_dir : option string) (stop_on_error : bool)
    (timeout_per_command : Z).

(** The tracker after the call (the flag that the two shell methods
    return is dropped). *)
Definition run_call (c : call) (self : LabProgress.t) : IO LabProgress.t :=
  match c with
  | MarkDone step score notes => LabProgress.mark_done step score notes self
  | MarkPartial step progress notes cp =>
      LabProgress.mark_partial step progress notes cp self
  | IncrementAttempts step => LabProgress.increment_attempts step self
  | ResetStep step => LabProgress.reset_step step self
  | ResetAll => LabProgress.reset_all self
  | SetStepMetadata step metadata =>
      LabProgress.set_step_metadata step metadata self
  | RunShellStep step_name command expected timeout working_dir auto_mark show =>
      r <- LabProgress.run_shell_step step_name command expected timeout
             working_dir auto_mark show self ;;
      ret (fst r)
  | RunShellSequence step_name commands working_dir stop timeout =>
      r <- LabProgress.run_shell_sequence step_name commands working_dir stop
             timeout self ;;
      ret (fst r)
  end.

(** A session: one call after the other. *)
Fixpoint run_calls (cs : list call) (self : LabProgress.t) : IO LabProgress.t :=
  match cs with
  | [] => ret self
  | c :: rest => self <- run_call c self ;; run_calls rest self
  end.

Definition is_reset (c : call) : bool :=
  match c with ResetStep _ | ResetAll => true | _ => false end.

(** [b] has the record that [a] has for every step other than [step]. *)
Definition frame (step : string) (a b : LabProgress.t) : Prop :=
  forall other,
    other <> step ->
    Dict.get other (LabProgress.steps b) = Dict.get other (LabProgress.steps a).

(** [stamped], as a check. *)
Definition stampedb (self : LabProgress.t) : bool :=
  forallb (fun kv => implb (Step.completed (snd kv))
                       (match Step.timestamp (snd kv) with
                        | Some _ => true
                        | None => false
                        end))
          (LabProgress.steps self).

(** The file a tracker is bound to: the [persist_file] argument of
    [__init__] when it is given and not empty, the default for the lab
    otherwise. *)
Definition resolved_file (lab : string) (persist_file : option string) : string :=
  match persist_file with
  | Some p => if truthy p then p else LabProgress.default_persist_file lab
  | None => LabProgress.default_persist_file lab
  end.

(** The file of the tracker holds the tracker as it is: what a method
    hands back (tracker and world) is in step with the disk. *)
Definition mirrored (r : LabProgress.t * World) : Prop :=
  exists last_saved,
    Dict.get (LabProgress.persist_file (fst r)) (files (snd r))
    = Some (JsonFile (LabProgress.saved_data (fst r) last_saved)).

(** What [_load_progress] cannot get a registry from: no file, a file
    that is not JSON, a document that is not an object, or an object
    without the key [steps]. *)
Definition no_registry (f : option file) : Prop :=
  match f with
  | None | Some OtherFile => True
  | Some (JsonFile (JObj o)) => Dict.get "steps" o = None
  | Some (JsonFile _) => True
  end.

(** The message [_load_progress] prints when it fails. *)
Definition load_message : shown := Printed "Could not load saved progress".

(** The success test of [run_shell_step] on what the process gave: exit
    code 0 and, when an expected text is given and not empty, that text
    somewhere in the standard output. *)
Definition shell_success (expected_output : option string)
    (outcome : proc_outcome) : bool :=
  match outcome with
  | Completed returncode stdout _ _ =>
      (returncode =? 0)
      && match expected_output with
         | Some expected => negb (truthy expected) || contains expected stdout
         | None => true
         end
  | TimeoutExpired | LaunchError _ => false
  end.

(** Whether the process ran to its end, with whatever exit code. *)
Definition ran (outcome : proc_outcome) : bool :=
  match outcome with Completed _ _ _ _ => true | _ => false end.

(** The command [m] starts [n] processes, whatever the world. *)
Definition spawns {A : Type} (n : nat) (m : IO A) : Prop :=
  forall w,
    shell (snd (m w)) = shell w /\ spawned (snd (m w)) = (n + spawned w)%nat.

(** Whether the commands, run one after the other from process number
    [n] on, all succeed. *)
Fixpoint all_succeed (sh : nat -> string -> proc_outcome) (n : nat)
    (commands : list string) : bool :=
  match commands with
  | [] => true
  | command :: rest =>
      shell_success None (sh n command) && all_succeed sh (S n) rest
  end.

(** How many of the commands are started: all of them, or with
    [stop_on_error] those up to the first that fails. *)
Fixpoint launched (stop_on_error : bool) (sh : nat -> string -> proc_outcome)
    (n : nat) (commands : list string) : nat :=
  match commands with
  | [] => 0
  | command :: rest =>
      if shell_success None (sh n command) then
        S (launched stop_on_error sh (S n) rest)
      else if stop_on_error then 1%nat
      else S (launched stop_on_error sh (S n) rest)
  end.

Section Rules.
Context {Namespace : Type}.

(** Two rules that differ at most in the outcome that was last recorded
    in them. *)
Definition same_rule (a b : Rule.t Namespace) : Prop :=
  Rule.weight b = Rule.weight a
  /\ Rule.checker b = Rule.checker a
  /\ Rule.description b = Rule.description a
  /\ Rule.partial_credit b = Rule.partial_credit a.

(** [b] has the rules of [a]: the same names in the same order, and
    under each name the same rule up to the recorded outcome. *)
Definition same_rules (a b : LabValidator.t Namespace) : Prop :=
  Dict.keys (LabValidator.scoring_rules b)
  = Dict.keys (LabValidator.scoring_rules a)
  /\ forall n r,
       Dict.get n (LabValidator.scoring_rules a) = Some r ->
       exists r',
         Dict.get n (LabValidator.scoring_rules b) = Some r'
         /\ same_rule r r'.

(** Whether the checker of a rule answers on a namespace, rather than
    raise. *)
Definition answers (ns : Namespace) (r : Rule.t Namespace) : bool :=
  match LabValidator.run_checker (Rule.checker r) ns with
  | Ok _ => true
  | Raise _ => false
  end.

(** What an entry of the validation history says, the time left out. *)
Definition entry_facts (e : LabValidator.history_entry) : string * Q * bool :=
  (LabValidator.entry_rule e, LabValidator.entry_score e,
   LabValidator.entry_success e).
End Rules.

(** The letter grades from the lowest to the highest, by position. *)
Definition grade_rank (grade : string) : nat :=
  if String.eqb grade "A" then 11
  else if String.eqb grade "A-" then 10
  else if String.eqb grade "B+" then 9
  else if String.eqb grade "B" then 8
  else if String.eqb grade "B-" then 7
  else if String.eqb grade "C+" then 6
  else if String.eqb grade "C" then 5
  else if String.eqb grade "C-" then 4
  else if String.eqb grade "D+" then 3
  else if String.eqb grade "D" then 2
  else if String.eqb grade "D-" then 1
  else 0.

(** What a plain validation does with its verdict [b]: it answers [b],
    keeps it as the last result, shows one result box, and touches
    neither the attached tracker nor the files. *)
Definition verdict (self : Validation.t) (w : World)
    (out : Validation.t * bool * World) (b : bool) : Prop :=
  snd (fst out) = b
  /\ Validation.last_validation_result (fst (fst out)) = Some b
  /\ Validation.progress_tracker (fst (fst out))
     = Validation.progress_tracker self
  /\ files (snd out) = files w
  /\ exists box, screen (snd out) = (screen w ++ [box])%list.

(** The kinds of event that the methods of a tracker record, and the
    keys that every event has. *)
Definition event_types : list string :=
  ["step_completed"; "partial_progress"; "attempt";
   "shell_command"; "shell_timeout"; "shell_error"].

Definition event_keys : list string :=
  ["timestamp"; "session_id"; "student_id"; "lab_name"; "event_type";
   "step_name"].

(** An event that says whose it is: it carries the session id, the
    student id and the lab name of the tracker [base], the time of a
    clock reading, one of the kinds of event and the name of a step. *)
Definition tagged (base : LabProgress.t) (e : json) : Prop :=
  event_field "session_id" e = Some (JStr (LabProgress._session_id base))
  /\ event_field "student_id" e = Some (JStr (LabProgress._student_id base))
  /\ event_field "lab_name" e = Some (JStr (LabProgress.lab_name base))
  /\ (exists stamp,
         event_field "timestamp" e = Some (JStr (isoformat stamp)))
  /\ (exists kind,
         event_field "event_type" e = Some (JStr kind) /\ In kind event_types)
  /\ exists step, event_field "step_name" e = Some (JStr step).

(** [self] is the session of [base], and what its log has more than
    that of [base] are tagged events of [base]. *)
Definition attributed (base self : LabProgress.t) : Prop :=
  LabProgress._session_id self = LabProgress._session_id base
  /\ LabProgress._student_id self = LabProgress._student_id base
  /\ LabProgress.lab_name self = LabProgress.lab_name base
  /\ exists added,
       LabProgress._analytics_data self
       = (LabProgress._analytics_data base ++ added)%list
       /\ Forall (tagged base) added.

(* ================================================================== *)
(** * Sample sessions *)

Module Sample.

(** A clock that advances one second per reading. *)
Definition clock (n : nat) : datetime :=
  mk_datetime 2024 1 15 9 (Z.of_nat (n / 60)) (Z.of_nat (n mod 60)) 0.

(** A shell in which [false] fails and every other command succeeds. *)
Definition shell (_ : nat) (command : string) : proc_outcome :=
  if String.eqb command "false" then Completed 1 "" "" (1 # 100)
  else Completed 0 "" "" (1 # 100).

Definition world : World :=
  mk_World clock 0 (fun n => pad 8 (Z.of_nat n) "-7b1d-4c55-9e0a-5d2f6c8b1a47") 0
           [] "/home/student" shell 0 [].

(** [LabProgress(["Setup", "Build"], lab_name="Demo Lab", persist=True)] *)
Definition tracker : LabProgress.t :=
  fst (LabProgress.__init__ (LabProgress.StepNames ["Setup"; "Build"])
         "Demo Lab" true None true None world).

Definition world1 : World :=
  snd (LabProgress.__init__ (LabProgress.StepNames ["Setup"; "Build"])
         "Demo Lab" true None true None world).

(** The tracker after [mark_done("Setup", score=90)], which also saved
    the session to [.demo_lab_progress.json]. *)
Definition done_tracker : LabProgress.t :=
  fst (LabProgress.mark_done "Setup" (Some (90 # 1)) "" tracker world1).

Definition world2 : World :=
  snd (LabProgress.mark_done "Setup" (Some (90 # 1)) "" tracker world1).

(** A tracker of another lab, bound to the same file. *)
Definition other_tracker : LabProgress.t :=
  fst (LabProgress.__init__ (LabProgress.StepNames ["Setup"; "Build"])
         "Other Lab" false (Some ".demo_lab_progress.json") true None world2).

Definition returns (success : bool) (score : Q) : Rule.checker_t unit :=
  Rule.Callable (fun _ => Ok (Rule.Scored success score)).

Definition no_rules : LabValidator.t unit := LabValidator.mk [] [].

(** Three rules weighted 0.5, 0.3 and 0.2 that score 100, 0 and 50. *)
Definition grader : LabValidator.t unit :=
  LabValidator.add_scoring_rule "docs" (1 # 5) (returns true 50) "" true
    (LabValidator.add_scoring_rule "style" (3 # 10) (returns false 0) "" true
       (LabValidator.add_scoring_rule "tests" (1 # 2) (returns true 100) "" true
          no_rules)).

(** One rule of weight -1 that scores 100. *)
Definition negative_grader : LabValidator.t unit :=
  LabValidator.add_scoring_rule "penalty" (- (1)) (returns true 100) "" true
    no_rules.

(** A rule whose checker raises, between two that pass. *)
Definition faulty_grader : LabValidator.t unit :=
  LabValidator.add_scoring_rule "docs" (1 # 5) (returns true 100) "" true
    (LabValidator.add_scoring_rule "broken" (3 # 10)
       (Rule.Callable (fun _ => Raise (KeyError "answer"))) "" true
       (LabValidator.add_scoring_rule "tests" (1 # 2) (returns true 100) "" true
          no_rules)).

End Sample.

(* ================================================================== *)
(** * Properties *)

Import LabProgress.

(* ------------------------------------------------------------------ *)
(** ** Dictionaries *)

Section DictFacts.
Context {V : Type}.
Implicit Types (d : Dict.t V) (k : string) (v : V).

Lemma get_set_same k v d : Dict.get k (Dict.set k v d) = Some v.
Proof.
  induction d as [|[k' v'] d IH]; simpl.
  - now rewrite String.eqb_refl.
  - destruct (String.eqb k k') eqn:E; simpl; rewrite E; auto.
Qed.

Lemma get_set_other k k' v d :
  k <> k' -> Dict.get k (Dict.set k' v d) = Dict.get k d.
Proof.
  intros Hne. induction d as [|[k0 v0] d IH]; simpl.
  - apply String.eqb_neq in Hne. now rewrite Hne.
  - destruct (String.eqb k' k0) eqn:E; simpl.
    + apply String.eqb_eq in E; subst k0.
      apply String.eqb_neq in Hne. now rewrite Hne.
    + destruct (String.eqb k k0); auto.
Qed.

Lemma mem_get k d : Dict.mem k d = true <-> exists v, Dict.get k d = Some v.
Proof.
  unfold Dict.mem. destruct (Dict.get k d); split; eauto; try discriminate.
  intros [? ?]; discriminate.
Qed.

End DictFacts.

(* ------------------------------------------------------------------ *)
(** ** What each tracker method touches *)

Lemma update_step_get step f self s :
  Dict.get step (steps self) = Some s ->
  Dict.get step (steps (update_step step f self)) = Some (f s).
Proof.
  intros H. unfold update_step. rewrite H. simpl. apply get_set_same.
Qed.

Lemma update_step_analytics step f self :
  _analytics_data (update_step step f self) = _analytics_data self.
Proof. unfold update_step. now destruct (Dict.get step (steps self)). Qed.

Lemma update_step_start_times step f self :
  _step_start_times (update_step step f self) = _step_start_times self.
Proof. unfold update_step. now destruct (Dict.get step (steps self)). Qed.

Lemma record_event_steps et sn kw self w :
  steps (fst (_record_analytics_event et sn kw self w)) = steps self.
Proof. reflexivity. Qed.

Lemma record_event_log et sn kw self w :
  exists e,
    _analytics_data (fst (_record_analytics_event et sn kw self w))
    = (_analytics_data self ++ [e])%list.
Proof. eexists. reflexivity. Qed.

(** The tracker a mutator hands back is the one it had after recording
    its event: saving and rendering do not touch the tracker. *)
Lemma finish_keeps_tracker (self : t) w :
  fst ((autosave self ;;; display_progress self ;;; ret self) w) = self.
Proof.
  unfold bind. destruct (autosave self w) as [u w1].
  destruct (display_progress self w1) as [u' w2]. reflexivity.
Qed.

Lemma bind_finish (m : IO t) w :
  fst ((self <- m ;; autosave self ;;; display_progress self ;;; ret self) w)
  = fst (m w).
Proof.
  unfold bind. destruct (m w) as [x w1]. destruct (autosave x w1) as [u w2].
  destruct (display_progress x w2) as [u' w3]. reflexivity.
Qed.

Lemma run_bind {A B} (m : IO A) (k : A -> IO B) w :
  bind m k w = k (fst (m w)) (snd (m w)).
Proof. unfold bind. now destruct (m w). Qed.

Ltac step_lookup :=
  cbn [steps with_step_start_times with_analytics_data];
  lazymatch goal with
  | |- Dict.get _ (steps (update_step _ _ _)) = _ =>
      eapply update_step_get; step_lookup
  | |- _ => eassumption
  end.

Lemma mark_done_get step score notes self w s :
  Dict.get step (steps self) = Some s ->
  Dict.get step (steps (fst (mark_done step score notes self w)))
  = Some (let s1 := Step.complete (isoformat (clock w (ticks w))) score s in
          if truthy notes then Step.set_notes notes s1 else s1).
Proof.
  intros H. unfold mark_done.
  assert (Hm : Dict.mem step (steps self) = true) by (apply mem_get; eauto).
  rewrite Hm. unfold bind at 1. cbn [now].
  rewrite bind_finish, record_event_steps.
  destruct (truthy notes); cbn zeta; repeat (erewrite update_step_get; eauto).
Qed.

Lemma mark_partial_get step progress notes cp self w s :
  Dict.get step (steps self) = Some s ->
  Dict.get step (steps (fst (mark_partial step progress notes cp self w)))
  = Some
      (let s1 := Step.set_partial_progress (py_max 0 (py_min 1 progress)) s in
       let s2 := if truthy notes then Step.set_notes notes s1 else s1 in
       if truthy_opt cp then
         Step.append_checkpoint
           (Checkpoint.mk (match cp with Some n => n | None => "" end) progress
              (isoformat
                 (clock w (if starts_now step progress self
                           then S (ticks w) else ticks w))))
           s2
       else s2).
Proof.
  intros H. unfold mark_partial.
  assert (Hm : Dict.mem step (steps self) = true) by (apply mem_get; eauto).
  rewrite Hm.
  rewrite run_bind; cbn beta. rewrite run_bind; cbn beta.
  rewrite bind_finish, record_event_steps.
  destruct (truthy notes) eqn:Hn;
    rewrite ?update_step_start_times; fold (starts_now step progress self);
    destruct (starts_now step progress self);
    (destruct cp as [name|]; [destruct (truthy name) eqn:Hname|]);
    rewrite ?run_bind; cbn [now ret fst snd ticks clock truthy_opt];
    rewrite ?Hname; cbn zeta; step_lookup.
Qed.

Lemma Qle_bool_compare (x y : Q) :
  Qle_bool y x = match (x ?= y)%Q with Lt => false | _ => true end.
Proof.
  destruct (x ?= y)%Q eqn:C.
  - apply Qeq_alt in C. apply Qle_bool_iff. rewrite C. apply Qle_refl.
  - apply Qlt_alt in C. destruct (Qle_bool y x) eqn:E; auto.
    apply Qle_bool_iff in E. exfalso. exact (Qlt_not_le _ _ C E).
  - apply Qgt_alt in C. apply Qle_bool_iff. now apply Qlt_le_weak.
Qed.

Lemma Qltb_compare (x y : Q) :
  Qltb x y = match (x ?= y)%Q with Lt => true | _ => false end.
Proof. unfold Qltb. rewrite Qle_bool_compare. now destruct (x ?= y)%Q. Qed.

Lemma py_clamp_is_clamp (p : Q) : py_max 0 (py_min 1 p) = Qmax 0 (Qmin 1 p).
Proof.
  unfold py_max, py_min, Qmax, Qmin, GenericMinMax.gmax, GenericMinMax.gmin.
  rewrite !Qltb_compare. rewrite <- (Qcompare_antisym 1%Q p).
  destruct (1 ?= p)%Q; simpl; try reflexivity.
  destruct (0 ?= p)%Q; reflexivity.
Qed.

Lemma Qltb_true (x y : Q) : Qltb x y = true <-> (x < y)%Q.
Proof.
  rewrite Qltb_compare, Qlt_alt. destruct (x ?= y)%Q; split; congruence.
Qed.

Lemma py_clamp_bounds (p : Q) : (0 <= py_max 0 (py_min 1 p) <= 1)%Q.
Proof.
  rewrite py_clamp_is_clamp. split.
  - apply Q.le_max_l.
  - apply Q.max_lub; [discriminate | apply Q.le_min_l].
Qed.

(** C3. A call of [mark_done], [mark_partial] or [increment_attempts]
    with a step name that is not in the registry leaves the registry as
    it was. *)
Theorem unknown_step_leaves_registry step score notes progress cp self w :
  Dict.mem step (steps self) = false ->
  steps (fst (mark_done step score notes self w)) = steps self
  /\ steps (fst (mark_partial step progress notes cp self w)) = steps self
  /\ steps (fst (increment_attempts step self w)) = steps self.
Proof.
  intros H. unfold mark_done, mark_partial, increment_attempts.
  rewrite H. repeat split.
Qed.

Lemma unknown_step_leaves_registry_witness :
  Dict.mem "Deploy" (steps Sample.tracker) = false
  /\ steps (fst (mark_done "Deploy" (Some (90 # 1)) "done" Sample.tracker
                   Sample.world1)) = steps Sample.tracker
  /\ steps (fst (mark_partial "Deploy" (1 # 2) "done" (Some "half") Sample.tracker
                   Sample.world1)) = steps Sample.tracker
  /\ steps (fst (increment_attempts "Deploy" Sample.tracker Sample.world1))
     = steps Sample.tracker.
Proof.
  split; [reflexivity|].
  apply (unknown_step_leaves_registry "Deploy"). reflexivity.
Defined.

(** C4. On a step of the registry, [mark_partial step p] stores
    [max 0 (min 1 p)] as the step's [partial_progress]: [1] for
    [p = 1.5] and [0] for [p = -0.2]. *)
Theorem mark_partial_stores_clamped step p notes cp self w s :
  Dict.get step (steps self) = Some s ->
  exists s',
    Dict.get step (steps (fst (mark_partial step p notes cp self w))) = Some s'
    /\ Step.partial_progress s' = Qmax 0 (Qmin 1 p)
    /\ (p == 3 # 2 -> Step.partial_progress s' = 1)%Q
    /\ (p == - (1 # 5) -> Step.partial_progress s' = 0)%Q.
Proof.
  intros H. eexists. split; [apply (mark_partial_get _ _ _ _ _ _ _ H)|].
  assert (Hpp : forall s1 : Step.t,
             Step.partial_progress
               (let s2 := if truthy notes then Step.set_notes notes s1 else s1 in
                if truthy_opt cp
                then Step.append_checkpoint
                       (Checkpoint.mk
                          (match cp with Some n => n | None => "" end) p
                          (isoformat
                             (clock w (if starts_now step p self
                                       then S (ticks w) else ticks w)))) s2
                else s2)
             = Step.partial_progress s1).
  { intros s1. cbn zeta. destruct (truthy_opt cp), (truthy notes); reflexivity. }
  cbn zeta in *. rewrite Hpp. cbn [Step.partial_progress Step.set_partial_progress].
  split; [apply py_clamp_is_clamp|].
  unfold py_max, py_min. rewrite !Qltb_compare.
  split; intros Hp.
  - assert (C : (p ?= 1)%Q = Gt) by (rewrite Hp; reflexivity).
    rewrite C. reflexivity.
  - assert (C : (p ?= 1)%Q = Lt) by (rewrite Hp; reflexivity).
    assert (C0 : (0 ?= p)%Q = Gt) by (rewrite Hp; reflexivity).
    rewrite C, C0. reflexivity.
Qed.

Lemma mark_partial_stores_clamped_witness :
  Dict.get "Setup" (steps Sample.tracker) = Some Step.fresh
  /\ exists s',
       Dict.get "Setup"
         (steps (fst (mark_partial "Setup" (3 # 2) "" None Sample.tracker
                        Sample.world1))) = Some s'
       /\ Step.partial_progress s' = Qmax 0 (Qmin 1 (3 # 2))
       /\ (3 # 2 == 3 # 2 -> Step.partial_progress s' = 1)%Q
       /\ (3 # 2 == - (1 # 5) -> Step.partial_progress s' = 0)%Q.
Proof.
  split; [reflexivity|].
  apply (mark_partial_stores_clamped "Setup" (3 # 2) "" None Sample.tracker
           Sample.world1 Step.fresh).
  reflexivity.
Defined.



(** C10. On a step of the registry, [mark_done] overwrites the step's
    [score] with its argument, whatever was there; an empty [notes]
    argument leaves the notes as they were, a non-empty one replaces
    them.  So a later [mark_done] with the default [score = None] and
    empty notes erases the score an earlier call recorded and keeps its
    notes. *)
Theorem mark_done_overwrites_score step score notes self w s :
  Dict.get step (steps self) = Some s ->
  exists s1,
    Dict.get step (steps (fst (mark_done step score notes self w))) = Some s1
    /\ Step.score s1 = score
    /\ Step.completed s1 = true
    /\ (notes = "" -> Step.notes s1 = Step.notes s)
    /\ (notes <> "" -> Step.notes s1 = notes)
    /\ forall w',
         exists s2,
           Dict.get step
             (steps (fst (mark_done step None ""
                            (fst (mark_done step score notes self w)) w')))
           = Some s2
           /\ Step.score s2 = None
           /\ Step.notes s2 = Step.notes s1.
Proof.
  intros H. eexists. split; [apply (mark_done_get _ _ _ _ _ _ H)|].
  cbn zeta. repeat split.
  - destruct (truthy notes); reflexivity.
  - destruct (truthy notes); reflexivity.
  - intros ->. reflexivity.
  - intros Hn. destruct notes; [congruence | reflexivity].
  - intros w'. eexists.
    split; [apply (mark_done_get _ _ _ _ _ _ (mark_done_get _ _ _ _ _ _ H))|].
    cbn. split; reflexivity.
Qed.

Lemma mark_done_overwrites_score_witness :
  Dict.get "Setup" (steps Sample.tracker) = Some Step.fresh
  /\ exists s1,
       Dict.get "Setup"
         (steps (fst (mark_done "Setup" (Some (85 # 1)) "first try"
                        Sample.tracker Sample.world1))) = Some s1
       /\ Step.score s1 = Some (85 # 1).
Proof.
  split; [reflexivity|].
  destruct (mark_done_overwrites_score "Setup" (Some (85 # 1)) "first try"
              Sample.tracker Sample.world1 Step.fresh eq_refl)
    as (s1 & Hget & Hscore & _).
  exists s1. split; assumption.
Defined.

(* ------------------------------------------------------------------ *)
(** ** The analytics log *)

Lemma bind_finish_short (m : IO t) w :
  fst ((self <- m ;; autosave self ;;; ret self) w) = fst (m w).
Proof.
  unfold bind. destruct (m w) as [x w1]. now destruct (autosave x w1).
Qed.

Lemma reset_step_log step self w :
  _analytics_data (fst (reset_step step self w)) = _analytics_data self.
Proof.
  unfold reset_step. destruct (Dict.mem step (steps self)); [|reflexivity].
  rewrite finish_keeps_tracker. apply update_step_analytics.
Qed.

Lemma reset_each_log names : forall self w,
  _analytics_data (fst (reset_each names self w)) = _analytics_data self.
Proof.
  induction names as [|step rest IH]; intros self w; [reflexivity|].
  cbn [reset_each]. rewrite run_bind, IH. apply reset_step_log.
Qed.

Lemma fold_set_get_other {V} (k : string) (kw base : Dict.t V) :
  Dict.get k kw = None ->
  Dict.get k (fold_left (fun d kv => Dict.set (fst kv) (snd kv) d) kw base)
  = Dict.get k base.
Proof.
  revert base. induction kw as [|[k' v] kw IH]; intros base H; [reflexivity|].
  simpl in H. destruct (String.eqb k k') eqn:E; [discriminate|].
  cbn [fold_left fst snd]. rewrite IH by assumption.
  apply get_set_other. now apply String.eqb_neq.
Qed.

Lemma record_event_stamped et sn kw self w :
  Dict.get "timestamp" kw = None ->
  exists e stamp,
    event_field "timestamp" e = Some (JStr (isoformat stamp))
    /\ _analytics_data (fst (_record_analytics_event et sn kw self w))
       = (_analytics_data self ++ [e])%list.
Proof.
  intros H. unfold _record_analytics_event. rewrite run_bind.
  cbn [ret fst _analytics_data with_analytics_data].
  eexists. exists (fst (now w)). split; [|reflexivity].
  cbn [event_field]. now rewrite fold_set_get_other.
Qed.

(* ------------------------------------------------------------------ *)
(** ** Properties of whatever a command returns *)

Lemma always_ret {A} (P : A -> Prop) a : P a -> always P (ret a).
Proof. intros H w. exact H. Qed.

Lemma always_bind {A B} (Q : A -> Prop) (P : B -> Prop) (m : IO A) k :
  always Q m -> (forall a, Q a -> always P (k a)) -> always P (bind m k).
Proof.
  intros Hm Hk w. rewrite run_bind. apply Hk, Hm.
Qed.

Lemma always_bind_any {A B} (P : B -> Prop) (m : IO A) k :
  (forall a, always P (k a)) -> always P (bind m k).
Proof. intros Hk w. rewrite run_bind. apply Hk. Qed.

Lemma extends_refl self : extends self self.
Proof. exists []. now rewrite app_nil_r. Qed.

Lemma extends_trans a b c : extends a b -> extends b c -> extends a c.
Proof.
  intros [s1 H1] [s2 H2]. exists (s1 ++ s2)%list.
  now rewrite H2, H1, app_assoc.
Qed.

Lemma extends_same_log a b c :
  _analytics_data c = _analytics_data b -> extends a b -> extends a c.
Proof. intros E [s H]. exists s. now rewrite E. Qed.

Lemma record_event_extends base et sn kw self :
  extends base self ->
  always (extends base) (_record_analytics_event et sn kw self).
Proof.
  intros H w. eapply extends_trans; [exact H|].
  destruct (record_event_log et sn kw self w) as [e He]. now exists [e].
Qed.

Lemma autosave_then {A} (P : A -> Prop) self (k : IO A) :
  always P k -> always P (autosave self ;;; k).
Proof. intros H. apply always_bind_any. intros _. exact H. Qed.

Lemma display_progress_then {A} (P : A -> Prop) self (k : IO A) :
  always P k -> always P (display_progress self ;;; k).
Proof. intros H. apply always_bind_any. intros _. exact H. Qed.

Lemma mark_done_extends base step score notes self :
  extends base self -> always (extends base) (mark_done step score notes self).
Proof.
  intros H. unfold mark_done. destruct (Dict.mem step (steps self)).
  - apply always_bind_any; intros completion_time.
    eapply always_bind.
    + apply record_event_extends.
      eapply extends_same_log; [|exact H].
      destruct (truthy notes); now rewrite ?update_step_analytics.
    + intros self' H'. apply autosave_then, display_progress_then.
      now apply always_ret.
  - apply always_bind_any; intros _. now apply always_ret.
Qed.

Lemma set_step_metadata_extends base step metadata self :
  extends base self ->
  always (extends base) (set_step_metadata step metadata self).
Proof.
  intros H. unfold set_step_metadata. destruct (Dict.mem step (steps self)).
  - apply autosave_then, always_ret. exact H.
  - now apply always_ret.
Qed.

Lemma run_shell_step_extends base step_name command expected timeout
    working_dir auto_mark show self :
  extends base self ->
  always (fun r => extends base (fst r))
    (run_shell_step step_name command expected timeout working_dir auto_mark
       show self).
Proof.
  intros H. unfold run_shell_step.
  eapply always_bind with (Q := extends base).
  { destruct (Dict.mem step_name (_step_start_times self)).
    - now apply always_ret.
    - apply always_bind_any; intros started. now apply always_ret. }
  clear self H. intros self H.
  apply always_bind_any; intros here.
  apply always_bind_any; intros _.
  apply always_bind_any; intros outcome.
  destruct outcome as [returncode stdout stderr execution_time | | msg].
  - apply always_bind_any; intros _.
    eapply always_bind; [apply record_event_extends, H|].
    clear self H. intros self H.
    match goal with |- context [if ?c then _ else _] => destruct c end.
    + eapply always_bind; [apply mark_done_extends, H|].
      intros self' H'. apply always_bind_any; intros _. now apply always_ret.
    + match goal with |- context [if ?c then _ else _] => destruct c end.
      * apply autosave_then, always_ret. cbn [fst].
        eapply extends_same_log; [apply update_step_analytics | exact H].
      * now apply always_ret.
  - apply always_bind_any; intros _.
    eapply always_bind; [apply record_event_extends, H|].
    intros self' H'. now apply always_ret.
  - apply always_bind_any; intros _.
    eapply always_bind; [apply record_event_extends, H|].
    intros self' H'. now apply always_ret.
Qed.

Lemma run_commands_extends base step_name working_dir stop timeout total
    commands : forall i count all_ok self,
  extends base self ->
  always (fun r => extends base (fst (fst r)))
    (run_commands step_name working_dir stop timeout total i commands count
       all_ok self).
Proof.
  induction commands as [|command rest IH]; intros i count all_ok self H.
  - now apply always_ret.
  - cbn [run_commands]. apply always_bind_any; intros _.
    eapply always_bind; [apply run_shell_step_extends, H|].
    intros [self' success] H'. cbn [fst] in H'.
    destruct success; [now apply IH|].
    destruct stop; [now apply always_ret | now apply IH].
Qed.

Lemma run_shell_sequence_extends base step_name commands working_dir stop
    timeout self :
  extends base self ->
  always (fun r => extends base (fst r))
    (run_shell_sequence step_name commands working_dir stop timeout self).
Proof.
  intros H. unfold run_shell_sequence.
  apply always_bind_any; intros _.
  eapply always_bind; [apply run_commands_extends, H|].
  intros [[self' all_ok] count] H'. cbn [fst] in H'.
  apply always_bind_any; intros _.
  match goal with |- context [if ?c then _ else _] => destruct c end.
  - eapply always_bind; [apply mark_done_extends, H'|].
    intros self2 H2. apply display_progress_then. now apply always_ret.
  - match goal with |- context [if ?c then _ else _] => destruct c end.
    + apply autosave_then, always_ret. cbn [fst].
      eapply extends_same_log; [apply update_step_analytics | exact H'].
    + now apply always_ret.
Qed.



(* ------------------------------------------------------------------ *)
(** ** The range of [partial_progress] *)

Lemma mark_partial_in_range step p notes cp self w s :
  Dict.get step (steps self) = Some s ->
  exists s',
    Dict.get step (steps (fst (mark_partial step p notes cp self w))) = Some s'
    /\ (0 <= Step.partial_progress s' <= 1)%Q.
Proof.
  intros H. eexists. split; [apply (mark_partial_get _ _ _ _ _ _ _ H)|].
  cbn zeta.
  destruct (truthy_opt cp), (truthy notes);
    cbn [Step.partial_progress Step.append_checkpoint Step.set_notes
         Step.set_partial_progress];
    apply py_clamp_bounds.
Qed.

Lemma reset_step_in_range step self w s :
  Dict.get step (steps self) = Some s ->
  Dict.get step (steps (fst (reset_step step self w))) = Some Step.fresh
  /\ (0 <= Step.partial_progress Step.fresh <= 1)%Q.
Proof.
  intros H. split; [|split; discriminate].
  unfold reset_step.
  assert (Hm : Dict.mem step (steps self) = true) by (apply mem_get; eauto).
  rewrite Hm, finish_keeps_tracker. now apply update_step_get with (s := s).
Qed.

(** C2 fails in [run_shell_sequence].  With the two commands [true] and
    [false] and the default [stop_on_error], one command of two
    succeeds, and the step's [partial_progress] becomes
    [(1 / 2) * 100 = 50], which is not in the interval [[0, 1]]. *)
Theorem run_shell_sequence_partial_progress_out_of_range :
  let after :=
    fst (fst (run_shell_sequence "Build" ["true"; "false"] None true 30
                Sample.tracker Sample.world1)) in
  exists s,
    Dict.get "Build" (steps after) = Some s
    /\ (Step.partial_progress s == 50)%Q
    /\ ~ (Step.partial_progress s <= 1)%Q.
Proof.
  eexists. split; [vm_compute; reflexivity|].
  split; [reflexivity|]. intros H. apply H. reflexivity.
Qed.

(* ------------------------------------------------------------------ *)
(** ** Resuming *)



(* ------------------------------------------------------------------ *)
(** ** ISO-8601 text of a [datetime] *)

Lemma digit_value_digit n : digit_value (digit n) = Some (n mod 10).
Proof.
  unfold digit_value, digit.
  assert (Hr : 0 <= n mod 10 < 10) by (apply Z.mod_pos_bound; lia).
  rewrite nat_ascii_embedding by lia.
  rewrite Z2Nat.id by lia.
  replace (48 <=? 48 + n mod 10) with true by (symmetry; apply Z.leb_le; lia).
  replace (48 + n mod 10 <=? 57) with true by (symmetry; apply Z.leb_le; lia).
  cbn [andb]. f_equal. lia.
Qed.

Lemma read_digits_pad k : forall j n acc rest,
  read_digits (k + j) acc (pad k n rest)
  = read_digits j (acc * 10 ^ Z.of_nat k + n mod 10 ^ Z.of_nat k) rest.
Proof.
  induction k as [|k IH]; intros j n acc rest.
  - cbn [pad Nat.add]. f_equal. rewrite Z.mod_1_r. cbn. lia.
  - cbn [pad]. replace (S k + j)%nat with (k + S j)%nat by lia.
    rewrite IH. cbn [read_digits]. rewrite digit_value_digit. f_equal.
    rewrite Nat2Z.inj_succ, Z.pow_succ_r by lia.
    rewrite (Z.rem_mul_r n 10 (10 ^ Z.of_nat k)) by lia. lia.
Qed.

Lemma read_pad k n rest :
  0 <= n < 10 ^ Z.of_nat k ->
  read_digits k 0 (pad k n rest) = Some (n, rest).
Proof.
  intros H. replace k with (k + 0)%nat at 1 by lia.
  rewrite read_digits_pad. cbn [read_digits]. now rewrite Z.mod_small.
Qed.

Lemma days_in_month_bound y m : 28 <= days_in_month y m <= 31.
Proof.
  unfold days_in_month.
  repeat match goal with
         | |- context [match ?x with _ => _ end] => destruct x
         end; lia.
Qed.

Lemma valid_datetime_bounds d :
  valid_datetime d = true ->
  0 <= year d < 10 ^ 4 /\ 0 <= month d < 10 ^ 2 /\ 0 <= day d < 10 ^ 2
  /\ 0 <= hour d < 10 ^ 2 /\ 0 <= minute d < 10 ^ 2
  /\ 0 <= second d < 10 ^ 2 /\ 0 <= microsecond d < 10 ^ 6.
Proof.
  unfold valid_datetime. rewrite !andb_true_iff.
  rewrite !Z.leb_le, !Z.ltb_lt.
  pose proof (days_in_month_bound (year d) (month d)). lia.
Qed.

(** Parsing the ISO text of a valid [datetime] gives it back, to the
    microsecond. *)
Lemma fromisoformat_isoformat d :
  valid_datetime d = true -> fromisoformat (isoformat d) = Some d.
Proof.
  intros Hv. pose proof (valid_datetime_bounds d Hv) as (Hy & Hmo & Hd & Hh & Hmi & Hs & Hu).
  destruct d as [y mo dd h mi s us]. cbn [year month day hour minute second microsecond] in *.
  unfold fromisoformat, isoformat.
  cbn [year month day hour minute second microsecond].
  repeat (rewrite read_pad by assumption; cbn [bind_opt expect Ascii.eqb Bool.eqb]).
  destruct (us =? 0) eqn:E.
  - apply Z.eqb_eq in E; subst us. cbn [bind_opt]. now rewrite Hv.
  - cbn [bind_opt expect Ascii.eqb Bool.eqb].
    rewrite read_pad by assumption. cbn [bind_opt]. now rewrite Hv.
Qed.

(* ------------------------------------------------------------------ *)
(** ** The saved document *)

Lemma traverse_map {A B} (f : A -> B) (g : B -> option A) l :
  (forall a, In a l -> g (f a) = Some a) -> traverse g (map f l) = Some l.
Proof.
  induction l as [|a l IH]; intros H; [reflexivity|].
  cbn [map traverse]. rewrite H by (left; reflexivity). cbn [bind_opt].
  rewrite IH by (intros; apply H; now right). reflexivity.
Qed.

Lemma checkpoint_roundtrip c : checkpoint_of_json (checkpoint_to_json c) = Some c.
Proof. now destruct c. Qed.

Lemma step_roundtrip s : step_of_json (step_to_json s) = Some s.
Proof.
  destruct s as [c ts a sc n p cps].
  unfold step_of_json, step_to_json.
  cbn -[traverse checkpoint_of_json checkpoint_to_json].
  rewrite traverse_map by (intros; apply checkpoint_roundtrip).
  destruct ts, sc; reflexivity.
Qed.

Lemma steps_roundtrip d : steps_of_json (steps_to_json d) = Some d.
Proof.
  unfold steps_of_json, steps_to_json. cbn [as_obj bind_opt].
  apply traverse_map. intros [k s] _. cbn [fst snd].
  now rewrite step_roundtrip.
Qed.

Lemma times_roundtrip (d : Dict.t datetime) :
  Forall (fun kv => valid_datetime (snd kv) = true) d ->
  times_of_json (times_to_json d) = Some d.
Proof.
  intros Hv. unfold times_of_json, times_to_json. cbn [as_obj bind_opt].
  apply traverse_map. intros [k t0] Hin. cbn [fst snd as_str bind_opt].
  rewrite fromisoformat_isoformat; [reflexivity|].
  rewrite Forall_forall in Hv. exact (Hv _ Hin).
Qed.

(** What [load_fields] makes of a document written by [_save_progress]:
    the registry, the start time and the student of the saved session;
    the saved session id goes to [_previous_session_id]; the lab name
    and the session id stay those of the loading tracker. *)
Lemma load_fields_saved a b last_saved :
  valid_datetime (start_time a) = true ->
  let r := fst (load_fields (saved_data a last_saved) b) in
  steps r = steps a
  /\ _student_id r = _student_id a
  /\ start_time r = start_time a
  /\ _previous_session_id r = Some (_session_id a)
  /\ step_metadata r = step_metadata a
  /\ _analytics_data r = _analytics_data a
  /\ _session_id r = _session_id b
  /\ lab_name r = lab_name b
  /\ persist_file r = persist_file b.
Proof.
  intros Hv. unfold load_fields, saved_data.
  cbn -[steps_of_json steps_to_json fromisoformat isoformat
        times_of_json times_to_json].
  rewrite steps_roundtrip. cbn [bind_opt].
  rewrite fromisoformat_isoformat by assumption.
  destruct (times_of_json (times_to_json (_step_start_times a)));
    cbn; repeat split.
Qed.

Lemma save_files a w :
  files (snd (_save_progress a w))
  = Dict.set (persist_file a)
      (JsonFile (saved_data a (clock w (ticks w)))) (files w).
Proof. reflexivity. Qed.

Lemma load_of_saved_file a b last_saved w :
  Dict.get (persist_file b) (files w) = Some (JsonFile (saved_data a last_saved)) ->
  valid_datetime (start_time a) = true ->
  let r := fst (_load_progress b w) in
  steps r = steps a
  /\ _student_id r = _student_id a
  /\ start_time r = start_time a
  /\ _previous_session_id r = Some (_session_id a)
  /\ step_metadata r = step_metadata a
  /\ _analytics_data r = _analytics_data a
  /\ _session_id r = _session_id b
  /\ lab_name r = lab_name b
  /\ persist_file r = persist_file b.
Proof.
  intros Hfile Hv. cbn zeta.
  assert (E : fst (_load_progress b w)
              = fst (load_fields (saved_data a last_saved) b)).
  { unfold _load_progress. rewrite run_bind.
    unfold read_json. cbn [fst snd]. rewrite Hfile.
    destruct (load_fields (saved_data a last_saved) b) as [r finished].
    now destruct finished. }
  rewrite E. now apply load_fields_saved.
Qed.

Lemma init_over_saved_file a last_saved lab registry w :
  Dict.get (persist_file a) (files w) = Some (JsonFile (saved_data a last_saved)) ->
  persist_file a <> "" ->
  valid_datetime (start_time a) = true ->
  let r := fst (__init__ (StepDict registry) lab true (Some (persist_file a))
                  true None w) in
  steps r = steps a
  /\ _student_id r = _student_id a
  /\ _previous_session_id r = Some (_session_id a)
  /\ lab_name r = lab
  /\ _session_id r = isoformat (clock w (ticks w)).
Proof.
  intros Hfile Hne Hv. cbn zeta.
  assert (Ht : truthy (persist_file a) = true)
    by (destruct (persist_file a); [congruence | reflexivity]).
  unfold __init__. rewrite Ht.
  repeat (rewrite run_bind; cbn beta).
  cbn [now uuid4 path_exists fst snd files ticks clock drawn uuids].
  assert (Hm : Dict.mem (persist_file a) (files w) = true)
    by (apply mem_get; eauto).
  rewrite Hm.
  match goal with
  | |- context [_load_progress ?b ?w0] =>
      pose proof (load_of_saved_file a b last_saved w0 Hfile Hv) as H;
      cbn zeta in H; set (loaded := fst (_load_progress b w0)) in *
  end.
  destruct H as (H1 & H2 & _ & H4 & _ & _ & H7 & H8 & _).
  cbn [ret fst steps _student_id _previous_session_id lab_name _session_id
       with_is_resumed with_start_time].
  rewrite H1, H2, H4, H7, H8. repeat split.
Qed.

Lemma resume_at_saved_file a last_saved w :
  Dict.get (persist_file a) (files w) = Some (JsonFile (saved_data a last_saved)) ->
  fst (resume_at (persist_file a) w)
  = Ok (fst (__init__ (StepDict (steps a)) (lab_name a) true
               (Some (persist_file a)) true None w)).
Proof.
  intros Hfile.
  assert (Hm : Dict.mem (persist_file a) (files w) = true)
    by (apply mem_get; eauto).
  unfold resume_at. rewrite run_bind.
  unfold path_exists. cbn [fst snd]. rewrite Hm. cbn [negb].
  rewrite run_bind. unfold read_json. cbn [fst snd]. rewrite Hfile.
  unfold saved_data at 1.
  cbn -[steps_of_json steps_to_json isoformat times_to_json __init__].
  rewrite steps_roundtrip.
  repeat (rewrite run_bind; cbn beta). reflexivity.
Qed.

(** C1, as the code has it.  Let tracker [a] save its session and let a
    tracker [b] bound to the same file load it.  [_load_progress]
    restores the registry, the student id and the start time of [a]
    (ISO text keeps a timestamp to the microsecond), and puts the
    session id of [a] into [_previous_session_id]; the session id and
    the lab name of [b] stay as they were.  [resume] on the file builds
    its tracker with the saved lab name, so the resumed tracker has the
    registry, lab name and student id of [a], the session id of [a] as
    its previous session id, and a session id of its own, taken from
    the clock when it is built. *)
Theorem save_then_load_restores a b w lab :
  persist_file b = persist_file a ->
  persist_file a <> "" ->
  valid_datetime (start_time a) = true ->
  let saved := snd (_save_progress a w) in
  (let r := fst (_load_progress b saved) in
   steps r = steps a
   /\ _student_id r = _student_id a
   /\ start_time r = start_time a
   /\ _previous_session_id r = Some (_session_id a)
   /\ _session_id r = _session_id b
   /\ lab_name r = lab_name b)
  /\ exists r,
       fst (resume lab (Some (persist_file a)) saved) = Ok r
       /\ steps r = steps a
       /\ lab_name r = lab_name a
       /\ _student_id r = _student_id a
       /\ _previous_session_id r = Some (_session_id a)
       /\ _session_id r = isoformat (clock saved (ticks saved)).
Proof.
  intros Hpf Hne Hv. cbn zeta.
  set (saved := snd (_save_progress a w)).
  assert (Hfile : Dict.get (persist_file a) (files saved)
                  = Some (JsonFile (saved_data a (clock w (ticks w))))).
  { unfold saved. rewrite save_files. apply get_set_same. }
  split.
  - assert (Hfile' := Hfile). rewrite <- Hpf in Hfile'.
    destruct (load_of_saved_file a b _ saved Hfile' Hv)
      as (H1 & H2 & H3 & H4 & _ & _ & H7 & H8 & _).
    repeat split; assumption.
  - assert (Ht : truthy (persist_file a) = true)
      by (destruct (persist_file a); [congruence | reflexivity]).
    eexists. split.
    + unfold resume. cbn [truthy_opt]. rewrite Ht. cbn [negb andb].
      destruct lab; apply (resume_at_saved_file a _ saved Hfile).
    + destruct (init_over_saved_file a _ (lab_name a) (steps a) saved
                  Hfile Hne Hv) as (H1 & H2 & H3 & H4 & H5).
      repeat split; assumption.
Qed.

Lemma save_then_load_restores_witness :
  persist_file Sample.tracker = persist_file Sample.done_tracker
  /\ persist_file Sample.done_tracker <> ""
  /\ valid_datetime (start_time Sample.done_tracker) = true
  /\ steps (fst (_load_progress Sample.tracker
                   (snd (_save_progress Sample.done_tracker Sample.world2))))
     = steps Sample.done_tracker.
Proof.
  split; [reflexivity|]. split; [discriminate|]. split; [reflexivity|].
  exact (proj1 (proj1 (save_then_load_restores Sample.done_tracker Sample.tracker
                         Sample.world2 None eq_refl
                         (fun H => eq_ind
                                     (persist_file Sample.done_tracker)
                                     (fun s => match s with
                                               | EmptyString => False
                                               | String _ _ => True
                                               end) I "" H)
                         eq_refl))).
Defined.

(** C1 does not hold for the session id and the lab name.  A tracker
    resumed from the file that [Sample.done_tracker] saved has the saved
    registry, lab name and student id, and a session id of its own; and
    [_load_progress] on a tracker of another lab restores the registry
    and leaves that tracker's lab name and session id in place. *)
Lemma loaded_session_id_differs :
  let saved := snd (_save_progress Sample.done_tracker Sample.world2) in
  (exists r,
      fst (resume None (Some (persist_file Sample.done_tracker)) saved) = Ok r
      /\ steps r = steps Sample.done_tracker
      /\ lab_name r = lab_name Sample.done_tracker
      /\ _student_id r = _student_id Sample.done_tracker
      /\ _session_id r <> _session_id Sample.done_tracker)
  /\ (let r := fst (_load_progress Sample.other_tracker saved) in
      steps r = steps Sample.done_tracker
      /\ _student_id r = _student_id Sample.done_tracker
      /\ _session_id r <> _session_id Sample.done_tracker
      /\ lab_name r <> lab_name Sample.done_tracker).
Proof.
  split.
  - eexists. split; [vm_compute; reflexivity|].
    repeat split. intros H. vm_compute in H. discriminate H.
  - repeat split; intros H; vm_compute in H; discriminate H.
Qed.

(* ------------------------------------------------------------------ *)
(** ** Auto-grading *)

Section GradingFacts.
Context {Namespace : Type}.
Variable module_globals : Namespace.
Implicit Types (ns : Namespace) (r : Rule.t Namespace)
  (self : LabValidator.t Namespace)
  (rules : Dict.t (Rule.t Namespace)).

Import LabValidator.

Lemma validate_with_score_spec n ns self w r r' :
  Dict.get n (scoring_rules self) = Some r' ->
  Rule.checker r' = Rule.checker r ->
  Rule.partial_credit r' = Rule.partial_credit r ->
  snd (fst (validate_with_score n ns self w)) = (rule_success ns r, rule_score ns r)
  /\ scoring_rules (fst (fst (validate_with_score n ns self w)))
     = Dict.set n (Rule.record_outcome (rule_score ns r) (rule_success ns r) r')
         (scoring_rules self).
Proof.
  intros Hget Hc Hp. unfold validate_with_score, rule_success, rule_score.
  rewrite Hget, Hc, Hp.
  destruct (run_checker (Rule.checker r) ns) as [[success score]|e];
    [rewrite run_bind|]; split; reflexivity.
Qed.

Lemma agree_after_validate n ns self w r rest :
  agree self ((n, r) :: rest) ->
  agree (fst (fst (validate_with_score n ns self w))) rest.
Proof.
  intros Hag m rm Hin.
  destruct (Hag n r (or_introl eq_refl)) as (r' & Hget & Hc & Hp).
  destruct (validate_with_score_spec n ns self w r r' Hget Hc Hp) as [_ Hrules].
  rewrite Hrules.
  destruct (String.eqb m n) eqn:E.
  - apply String.eqb_eq in E; subst m.
    destruct (Hag n rm (or_intror Hin)) as (r2 & Hget2 & Hc2 & Hp2).
    assert (r2 = r') by congruence; subst r2.
    eexists. split; [apply get_set_same|]. split; assumption.
  - apply String.eqb_neq in E.
    destruct (Hag m rm (or_intror Hin)) as (r2 & Hget2 & Hc2 & Hp2).
    exists r2. split; [|split; assumption].
    rewrite get_set_other; assumption.
Qed.

(** The totals the loop ends with are those of [tally_step], rule by
    rule. *)
Lemma grade_rules_tally ns verbose rules : forall acc self w,
  agree self rules ->
  snd (fst (grade_rules rules ns verbose acc self w))
  = fold_left (tally_step ns) rules acc.
Proof.
  induction rules as [|[n r] rest IH]; intros acc self w Hag; [reflexivity|].
  cbn [grade_rules fold_left]. rewrite run_bind.
  destruct (Hag n r (or_introl eq_refl)) as (r' & Hget & Hc & Hp).
  destruct (validate_with_score_spec n ns self w r r' Hget Hc Hp) as [Hres _].
  pose proof (agree_after_validate n ns self w r rest Hag) as Hag'.
  destruct (validate_with_score n ns self w) as [[self' [success score]] w'].
  cbn [fst snd] in *. injection Hres as -> ->.
  rewrite run_bind. now rewrite IH.
Qed.

Lemma NoDup_keys_get n r rules :
  NoDup (Dict.keys rules) -> In (n, r) rules -> Dict.get n rules = Some r.
Proof.
  unfold Dict.keys. induction rules as [|[k v] rest IH]; intros Hnd Hin.
  - destruct Hin.
  - cbn [map fst] in Hnd. inversion Hnd as [|? ? Hnotin Hnd']; subst.
    cbn [Dict.get]. destruct Hin as [Heq | Hin].
    + injection Heq as -> ->. now rewrite String.eqb_refl.
    + destruct (String.eqb n k) eqn:E; [|auto].
      apply String.eqb_eq in E; subst k. exfalso. apply Hnotin.
      change n with (fst (n, r)). now apply in_map.
Qed.

Lemma agree_initially self :
  NoDup (Dict.keys (scoring_rules self)) -> agree self (scoring_rules self).
Proof.
  intros Hnd n r Hin. exists r. split; [|split; reflexivity].
  now apply NoDup_keys_get.
Qed.

Lemma fold_tally_totals ns rules : forall acc,
  total_score (fold_left (tally_step ns) rules acc)
  = fold_left Qplus
      (map (fun kr => (rule_score ns (snd kr) * Rule.weight (snd kr))%Q) rules)
      (total_score acc)
  /\ sum_weight (fold_left (tally_step ns) rules acc)
     = fold_left Qplus (map (fun kr => Rule.weight (snd kr)) rules)
         (sum_weight acc).
Proof.
  induction rules as [|kr rest IH]; intros acc; [split; reflexivity|].
  cbn [fold_left map]. destruct (IH (tally_step ns acc kr)) as [H1 H2].
  rewrite H1, H2. split; reflexivity.
Qed.

Lemma keys_set_absent {V} (k : string) (v : V) (d : Dict.t V) :
  ~ In k (Dict.keys d) -> Dict.keys (Dict.set k v d) = (Dict.keys d ++ [k])%list.
Proof.
  unfold Dict.keys. induction d as [|[k' v'] d IH]; intros Hnotin; [reflexivity|].
  cbn [Dict.set map fst] in *. destruct (String.eqb k k') eqn:E.
  - apply String.eqb_eq in E. subst. exfalso. apply Hnotin. now left.
  - cbn [map fst app]. f_equal. apply IH. intros H. apply Hnotin. now right.
Qed.

Lemma fold_tally_keys ns rules : forall acc,
  NoDup (Dict.keys (results acc) ++ Dict.keys rules) ->
  Dict.keys (results (fold_left (tally_step ns) rules acc))
  = (Dict.keys (results acc) ++ Dict.keys rules)%list.
Proof.
  induction rules as [|[n r] rest IH]; intros acc Hnd.
  - cbn. now rewrite app_nil_r.
  - cbn [fold_left].
    change (Dict.keys ((n, r) :: rest)) with (n :: Dict.keys rest) in *.
    assert (Hnotin : ~ In n (Dict.keys (results acc))).
    { intros Hin. apply NoDup_remove_2 in Hnd. apply Hnd.
      apply in_or_app. now left. }
    rewrite IH; cbn [tally_step results fst snd];
      rewrite (keys_set_absent n _ (results acc) Hnotin);
      rewrite <- app_assoc; [reflexivity | exact Hnd].
Qed.

Lemma fold_tally_get_absent ns n rules : forall acc,
  ~ In n (Dict.keys rules) ->
  Dict.get n (results (fold_left (tally_step ns) rules acc))
  = Dict.get n (results acc).
Proof.
  induction rules as [|[k r] rest IH]; intros acc Hnotin; [reflexivity|].
  cbn [fold_left]. rewrite IH.
  - cbn [tally_step results fst snd]. apply get_set_other.
    intros ->. apply Hnotin. now left.
  - intros H. apply Hnotin. now right.
Qed.

Lemma fold_tally_get ns n r rules : forall acc,
  NoDup (Dict.keys rules) ->
  Dict.get n rules = Some r ->
  Dict.get n (results (fold_left (tally_step ns) rules acc))
  = Some (graded_entry ns r).
Proof.
  induction rules as [|[k r0] rest IH]; intros acc Hnd Hget; [discriminate|].
  cbn [Dict.keys map fst] in Hnd. inversion Hnd as [|? ? Hnotin Hnd']; subst.
  cbn [Dict.get] in Hget. cbn [fold_left]. destruct (String.eqb n k) eqn:E.
  - apply String.eqb_eq in E; subst k. injection Hget as ->.
    rewrite fold_tally_get_absent by exact Hnotin.
    cbn [tally_step results fst snd]. apply get_set_same.
  - now apply IH.
Qed.

(** What [run_auto_grading] reports, in terms of the rules alone. *)
Lemma run_auto_grading_report globals verbose self w :
  NoDup (Dict.keys (scoring_rules self)) ->
  let ns := match globals with Some g => g | None => module_globals end in
  let rep := snd (fst (run_auto_grading module_globals globals verbose self w)) in
  let acc := fold_left (tally_step ns) (scoring_rules self) (mk_tally [] 0 0) in
  total_weight rep = sum_weight acc
  /\ detailed_results rep = results acc
  /\ final_score rep
     = if Qltb 0 (sum_weight acc) then (total_score acc / sum_weight acc)%Q
       else 0%Q.
Proof.
  intros Hnd. cbn zeta. unfold run_auto_grading.
  rewrite run_bind; cbn beta. rewrite run_bind; cbn beta.
  match goal with
  | |- context [grade_rules ?rules ?ns ?v ?acc ?s ?w0] =>
      pose proof (grade_rules_tally ns v rules acc s w0 (agree_initially self Hnd))
        as Htally;
      destruct (grade_rules rules ns v acc s w0) as [[self' acc'] w']
  end.
  cbn [fst snd] in Htally. subst acc'. cbn [fst snd].
  repeat (rewrite run_bind; cbn beta). cbn [ret fst snd].
  repeat split.
Qed.
End GradingFacts.

Lemma NoDup_grader_keys :
  NoDup (Dict.keys (LabValidator.scoring_rules Sample.grader)).
Proof. repeat constructor; cbn; intuition discriminate. Qed.




(** C7. When the callable checker of a rule raises, [validate_with_score]
    answers [(False, 0)] and stores [last_score = 0] and
    [last_result = False] in the rule; nothing is raised to the caller.
    [run_auto_grading] therefore goes through all the rules: the report
    has one entry per rule, in order, the entry of the failing rule has
    score 0 and no success, every rule has the entry that its own
    checker earns, and the total weight counts every rule. *)
Theorem raising_checker_scores_zero (Namespace : Type)
    (module_globals : Namespace) name rule f e ns verbose
    (self : LabValidator.t Namespace) w :
  Dict.get name (LabValidator.scoring_rules self) = Some rule ->
  Rule.checker rule = Rule.Callable f ->
  f ns = Raise e ->
  NoDup (Dict.keys (LabValidator.scoring_rules self)) ->
  (let out := fst (LabValidator.validate_with_score name ns self w) in
   snd out = (false, 0%Q)
   /\ exists rule',
        Dict.get name (LabValidator.scoring_rules (fst out)) = Some rule'
        /\ Rule.last_score rule' = Some 0%Q
        /\ Rule.last_result rule' = Some false)
  /\ (let rep :=
        snd (fst (LabValidator.run_auto_grading module_globals (Some ns)
                    verbose self w)) in
      Dict.keys (LabValidator.detailed_results rep)
      = Dict.keys (LabValidator.scoring_rules self)
      /\ (exists g,
             Dict.get name (LabValidator.detailed_results rep) = Some g
             /\ Graded.score g = 0%Q /\ Graded.success g = false)
      /\ (forall n r,
             Dict.get n (LabValidator.scoring_rules self) = Some r ->
             Dict.get n (LabValidator.detailed_results rep)
             = Some (graded_entry ns r))
      /\ LabValidator.total_weight rep
         = weight_sum (LabValidator.scoring_rules self)).
Proof.
  intros Hget Hc Hf Hnd.
  assert (Hscore : rule_score ns rule = 0%Q)
    by (unfold rule_score; rewrite Hc; cbn; now rewrite Hf).
  assert (Hsucc : rule_success ns rule = false)
    by (unfold rule_success; rewrite Hc; cbn; now rewrite Hf).
  split.
  - cbn zeta.
    destruct (validate_with_score_spec name ns self w rule rule Hget eq_refl eq_refl)
      as [Hres Hrules].
    rewrite Hres, Hrules, Hscore, Hsucc. split; [reflexivity|].
    eexists. split; [apply get_set_same|]. split; reflexivity.
  - cbn zeta.
    destruct (run_auto_grading_report module_globals (Some ns) verbose self w Hnd)
      as (Htw & Hres & _).
    rewrite Htw, Hres.
    split; [|split; [|split]].
    + now rewrite fold_tally_keys.
    + exists (graded_entry ns rule).
      split; [now apply fold_tally_get|].
      cbn [graded_entry Graded.score Graded.success]. now split.
    + intros n r Hn. now apply fold_tally_get.
    + destruct (fold_tally_totals ns (LabValidator.scoring_rules self)
                  (LabValidator.mk_tally [] 0 0)) as [_ Hsw].
      exact Hsw.
Qed.

Lemma NoDup_faulty_keys :
  NoDup (Dict.keys (LabValidator.scoring_rules Sample.faulty_grader)).
Proof. repeat constructor; cbn; intuition discriminate. Qed.

Lemma raising_checker_scores_zero_witness :
  (exists rule f,
      Dict.get "broken" (LabValidator.scoring_rules Sample.faulty_grader)
      = Some rule
      /\ Rule.checker rule = Rule.Callable f
      /\ f tt = Raise (KeyError "answer"))
  /\ NoDup (Dict.keys (LabValidator.scoring_rules Sample.faulty_grader))
  /\ snd (fst (LabValidator.validate_with_score "broken" tt
                 Sample.faulty_grader Sample.world)) = (false, 0%Q)
  /\ Dict.keys
       (LabValidator.detailed_results
          (snd (fst (LabValidator.run_auto_grading tt (Some tt) true
                       Sample.faulty_grader Sample.world))))
     = ["tests"; "broken"; "docs"].
Proof.
  split; [do 2 eexists; repeat split|]. split; [exact NoDup_faulty_keys|].
  destruct (raising_checker_scores_zero unit tt "broken" _ _
              (KeyError "answer") tt true Sample.faulty_grader Sample.world
              eq_refl eq_refl eq_refl NoDup_faulty_keys)
    as [[Hout _] [Hkeys _]].
  split; [exact Hout | exact Hkeys].
Defined.

(* ================================================================== *)
(** * Further properties of the code *)

Lemma mem_get_none {V} (k : string) (d : Dict.t V) :
  Dict.mem k d = false -> Dict.get k d = None.
Proof. unfold Dict.mem. now destruct (Dict.get k d). Qed.

(* ------------------------------------------------------------------ *)
(** ** How a tracker changes *)

Lemma grows_trans a b c : grows a b -> grows b c -> grows a c.
Proof. intros Hab Hbc. induction Hbc; [assumption | econstructor; eauto]. Qed.

Lemma grows_one a b : change a b -> grows a b.
Proof. intros H. econstructor; [constructor | exact H]. Qed.

Lemma grows_evolves a b : grows a b -> evolves a b.
Proof. induction 1; [constructor | econstructor; eauto]. Qed.

Lemma evolves_trans a b c : evolves a b -> evolves b c -> evolves a c.
Proof.
  intros Hab Hbc. induction Hbc; [assumption | econstructor; eauto |].
  now apply evolves_reset.
Qed.

Lemma set_set {V} (k : string) (v v' : V) (d : Dict.t V) :
  Dict.set k v (Dict.set k v' d) = Dict.set k v d.
Proof.
  induction d as [|[k0 v0] d IH]; cbn [Dict.set].
  - now rewrite String.eqb_refl.
  - destruct (String.eqb k k0) eqn:E; cbn [Dict.set]; rewrite E; [reflexivity|].
    now rewrite IH.
Qed.

Lemma update_step_compose step f g self :
  update_step step (fun s => f (g s)) self
  = update_step step f (update_step step g self).
Proof.
  unfold update_step. destruct (Dict.get step (steps self)) as [s|] eqn:E.
  - cbn [steps with_steps]. rewrite get_set_same.
    unfold with_steps. cbn. now rewrite set_set.
  - now rewrite E.
Qed.

Lemma update_step_lookup k step f self :
  Dict.get k (steps (update_step step f self))
  = if String.eqb k step then option_map f (Dict.get k (steps self))
    else Dict.get k (steps self).
Proof.
  unfold update_step. destruct (String.eqb k step) eqn:E.
  - apply String.eqb_eq in E; subst k.
    destruct (Dict.get step (steps self)) as [s|] eqn:G.
    + cbn [steps with_steps]. now rewrite get_set_same.
    + now rewrite G.
  - apply String.eqb_neq in E.
    destruct (Dict.get step (steps self)) as [s|]; [|reflexivity].
    cbn [steps with_steps]. now apply get_set_other.
Qed.

Lemma keys_set_present {V} (k : string) (v : V) (d : Dict.t V) :
  Dict.mem k d = true -> Dict.keys (Dict.set k v d) = Dict.keys d.
Proof.
  unfold Dict.mem, Dict.keys. induction d as [|[k' v'] d IH]; cbn [Dict.get Dict.set map fst].
  - discriminate.
  - destruct (String.eqb k k') eqn:E; cbn [map fst]; intros H; [reflexivity|].
    now rewrite IH.
Qed.

Lemma update_step_keys step f self :
  Dict.keys (steps (update_step step f self)) = Dict.keys (steps self).
Proof.
  unfold update_step. destruct (Dict.get step (steps self)) eqn:E; [|reflexivity].
  cbn [steps with_steps]. apply keys_set_present. apply mem_get. eauto.
Qed.

(** The methods, step by step. *)

Lemma record_event_grows base et sn kw self :
  grows base self -> always (grows base) (_record_analytics_event et sn kw self).
Proof.
  intros H w. unfold _record_analytics_event. rewrite run_bind.
  cbn [ret fst]. eapply grows_change; [exact H | apply change_event].
Qed.

Lemma notes_grows base step notes self :
  grows base self ->
  grows base (if truthy notes then update_step step (Step.set_notes notes) self
              else self).
Proof.
  intros H. destruct (truthy notes); [|exact H].
  eapply grows_change; [exact H | apply change_notes].
Qed.

Lemma mark_done_grows base step score notes self :
  grows base self -> always (grows base) (mark_done step score notes self).
Proof.
  intros H. unfold mark_done. destruct (Dict.mem step (steps self)).
  - apply always_bind_any; intros completion_time.
    eapply always_bind.
    + apply record_event_grows, notes_grows.
      eapply grows_change; [exact H | apply change_complete].
    + intros self' H'. apply autosave_then, display_progress_then.
      now apply always_ret.
  - apply always_bind_any; intros _. now apply always_ret.
Qed.

Lemma mark_partial_grows base step progress notes cp self :
  grows base self ->
  always (grows base) (mark_partial step progress notes cp self).
Proof.
  intros H. unfold mark_partial.
  destruct (Dict.mem step (steps self)); [|now apply always_ret].
  assert (H1 : grows base
                 (if truthy notes
                  then update_step step (Step.set_notes notes)
                         (update_step step
                            (Step.set_partial_progress
                               (py_max 0 (py_min 1 progress))) self)
                  else update_step step
                         (Step.set_partial_progress
                            (py_max 0 (py_min 1 progress))) self)).
  { apply notes_grows. eapply grows_change; [exact H | apply change_partial]. }
  revert H1. generalize (if truthy notes
                  then update_step step (Step.set_notes notes)
                         (update_step step
                            (Step.set_partial_progress
                               (py_max 0 (py_min 1 progress))) self)
                  else update_step step
                         (Step.set_partial_progress
                            (py_max 0 (py_min 1 progress))) self).
  clear self H. intros self H.
  eapply always_bind with (Q := grows base).
  { destruct (Dict.mem step (_step_start_times self)) eqn:E; cbn [negb andb].
    - now apply always_ret.
    - destruct (Qltb 0 progress); [|now apply always_ret].
      apply always_bind_any; intros started. apply always_ret.
      eapply grows_change; [exact H | now apply change_start]. }
  clear self H. intros self H.
  eapply always_bind with (Q := grows base).
  { destruct cp as [name|]; [|now apply always_ret].
    destruct (truthy name); [|now apply always_ret].
    apply always_bind_any; intros stamp. apply always_ret.
    eapply grows_change; [exact H | apply change_checkpoint]. }
  clear self H. intros self H.
  eapply always_bind; [apply record_event_grows, H|].
  intros self' H'. apply autosave_then, display_progress_then.
  now apply always_ret.
Qed.

Lemma increment_attempts_grows base step self :
  grows base self -> always (grows base) (increment_attempts step self).
Proof.
  intros H. unfold increment_attempts.
  destruct (Dict.mem step (steps self)); [|now apply always_ret].
  eapply always_bind.
  - apply record_event_grows. eapply grows_change; [exact H | apply change_attempts].
  - intros self' H'. apply autosave_then. now apply always_ret.
Qed.

Lemma set_step_metadata_grows base step metadata self :
  grows base self -> always (grows base) (set_step_metadata step metadata self).
Proof.
  intros H. unfold set_step_metadata.
  destruct (Dict.mem step (steps self)); [|now apply always_ret].
  apply autosave_then, always_ret.
  eapply grows_change; [exact H | apply change_metadata].
Qed.

Lemma run_shell_step_grows base step_name command expected timeout
    working_dir auto_mark show self :
  grows base self ->
  always (fun r => grows base (fst r))
    (run_shell_step step_name command expected timeout working_dir auto_mark
       show self).
Proof.
  intros H. unfold run_shell_step.
  eapply always_bind with (Q := grows base).
  { destruct (Dict.mem step_name (_step_start_times self)) eqn:E.
    - now apply always_ret.
    - apply always_bind_any; intros started. apply always_ret.
      eapply grows_change; [exact H | now apply change_start]. }
  clear self H. intros self H.
  apply always_bind_any; intros here.
  apply always_bind_any; intros _.
  apply always_bind_any; intros outcome.
  destruct outcome as [returncode stdout stderr execution_time | | msg].
  - apply always_bind_any; intros _.
    eapply always_bind; [apply record_event_grows, H|].
    clear self H. intros self H.
    match goal with |- context [if ?c then _ else _] => destruct c end.
    + eapply always_bind; [apply mark_done_grows, H|].
      intros self' H'. apply always_bind_any; intros _. now apply always_ret.
    + match goal with |- context [if ?c then _ else _] => destruct c end.
      * apply autosave_then, always_ret. cbn [fst].
        eapply grows_change; [exact H | apply change_attempts].
      * now apply always_ret.
  - apply always_bind_any; intros _.
    eapply always_bind; [apply record_event_grows, H|].
    intros self' H'. now apply always_ret.
  - apply always_bind_any; intros _.
    eapply always_bind; [apply record_event_grows, H|].
    intros self' H'. now apply always_ret.
Qed.

Lemma run_commands_grows base step_name working_dir stop timeout total
    commands : forall i count all_ok self,
  grows base self ->
  always (fun r => grows base (fst (fst r)))
    (run_commands step_name working_dir stop timeout total i commands count
       all_ok self).
Proof.
  induction commands as [|command rest IH]; intros i count all_ok self H.
  - now apply always_ret.
  - cbn [run_commands]. apply always_bind_any; intros _.
    eapply always_bind; [apply run_shell_step_grows, H|].
    intros [self' success] H'. cbn [fst] in H'.
    destruct success; [now apply IH|].
    destruct stop; [now apply always_ret | now apply IH].
Qed.

Lemma run_shell_sequence_grows base step_name commands working_dir stop
    timeout self :
  grows base self ->
  always (fun r => grows base (fst r))
    (run_shell_sequence step_name commands working_dir stop timeout self).
Proof.
  intros H. unfold run_shell_sequence.
  apply always_bind_any; intros _.
  eapply always_bind; [apply run_commands_grows, H|].
  intros [[self' all_ok] count] H'. cbn [fst] in H'.
  apply always_bind_any; intros _.
  match goal with |- context [if ?c then _ else _] => destruct c end.
  - eapply always_bind; [apply mark_done_grows, H'|].
    intros self2 H2. apply display_progress_then. now apply always_ret.
  - match goal with |- context [if ?c then _ else _] => destruct c end.
    + apply autosave_then, always_ret. cbn [fst].
      rewrite (update_step_compose step_name).
      eapply grows_change; [|apply change_partial].
      eapply grows_change; [exact H' | apply change_attempts].
    + now apply always_ret.
Qed.

Lemma reset_step_evolves base step self :
  evolves base self -> always (evolves base) (reset_step step self).
Proof.
  intros H. unfold reset_step.
  destruct (Dict.mem step (steps self)); [|now apply always_ret].
  apply autosave_then, display_progress_then, always_ret.
  now apply evolves_reset.
Qed.

Lemma reset_all_evolves base self :
  evolves base self -> always (evolves base) (reset_all self).
Proof.
  unfold reset_all. generalize (Dict.keys (steps self)) as names.
  intros names. revert self.
  induction names as [|step rest IH]; intros self H.
  - now apply always_ret.
  - cbn [reset_each]. eapply always_bind; [apply reset_step_evolves, H|].
    intros self' H'. now apply IH.
Qed.

(** What no change touches. *)

Lemma change_keys a b : change a b -> Dict.keys (steps b) = Dict.keys (steps a).
Proof. destruct 1; try apply update_step_keys; reflexivity. Qed.

Lemma evolves_keys a b : evolves a b -> Dict.keys (steps b) = Dict.keys (steps a).
Proof.
  induction 1 as [|b c _ IH Hc|b step _ IH]; [reflexivity| |].
  - rewrite <- IH. now apply change_keys.
  - rewrite <- IH. apply update_step_keys.
Qed.

Lemma update_step_identity step f self :
  lab_name (update_step step f self) = lab_name self
  /\ _session_id (update_step step f self) = _session_id self
  /\ _student_id (update_step step f self) = _student_id self
  /\ persist_file (update_step step f self) = persist_file self
  /\ persist (update_step step f self) = persist self
  /\ auto_save (update_step step f self) = auto_save self.
Proof.
  unfold update_step. destruct (Dict.get step (steps self)); repeat split.
Qed.

Lemma change_same_session a b : change a b -> same_session a b.
Proof.
  destruct 1; try apply update_step_identity; repeat split.
Qed.

Lemma evolves_same_session a b : evolves a b -> same_session a b.
Proof.
  induction 1 as [|b c _ IH Hc|b step _ IH]; [repeat split| |].
  - destruct IH as (H1 & H2 & H3 & H4 & H5 & H6).
    destruct (change_same_session _ _ Hc) as (C1 & C2 & C3 & C4 & C5 & C6).
    repeat split; congruence.
  - destruct IH as (H1 & H2 & H3 & H4 & H5 & H6).
    destruct (update_step_identity step (fun _ => Step.fresh) b)
      as (C1 & C2 & C3 & C4 & C5 & C6).
    repeat split; congruence.
Qed.

Lemma change_start_times a b k t0 :
  change a b ->
  Dict.get k (_step_start_times a) = Some t0 ->
  Dict.get k (_step_start_times b) = Some t0.
Proof.
  destruct 1; rewrite ?update_step_start_times; auto.
  intros Hk. cbn [_step_start_times with_step_start_times].
  rewrite get_set_other; [assumption|].
  intros ->.
  assert (Dict.mem step (_step_start_times self) = true)
    by (apply mem_get; eauto).
  congruence.
Qed.

Lemma evolves_start_times a b k t0 :
  evolves a b ->
  Dict.get k (_step_start_times a) = Some t0 ->
  Dict.get k (_step_start_times b) = Some t0.
Proof.
  induction 1 as [|b c _ IH Hc|b step _ IH]; intros Hk; [assumption| |].
  - eapply change_start_times; eauto.
  - rewrite update_step_start_times. auto.
Qed.

Lemma stamped_update step f self :
  (forall s, (Step.completed s = true -> Step.timestamp s <> None) ->
             Step.completed (f s) = true -> Step.timestamp (f s) <> None) ->
  stamped self -> stamped (update_step step f self).
Proof.
  intros Hf Hs k s Hget. rewrite update_step_lookup in Hget.
  destruct (String.eqb k step).
  - destruct (Dict.get k (steps self)) as [s0|] eqn:E; [|discriminate].
    injection Hget as <-. apply Hf. now apply (Hs k).
  - now apply (Hs k).
Qed.

Lemma change_stamped a b : change a b -> stamped a -> stamped b.
Proof.
  destruct 1; intros Hs; try exact Hs;
    apply stamped_update; try exact Hs; intros s; cbn; auto; discriminate.
Qed.

Lemma evolves_stamped a b : evolves a b -> stamped a -> stamped b.
Proof.
  induction 1 as [|b c _ IH Hc|b step _ IH]; intros Hs; [assumption| |].
  - eapply change_stamped; eauto.
  - apply stamped_update; [|auto]. intros s _. cbn. discriminate.
Qed.

(** What a step keeps as long as it is not reset. *)
Lemma kept_refl s : kept s s.
Proof.
  repeat split; [auto | lia | exists []; now rewrite app_nil_r].
Qed.

Lemma kept_trans s1 s2 s3 : kept s1 s2 -> kept s2 s3 -> kept s1 s3.
Proof.
  intros (C1 & A1 & [l1 L1]) (C2 & A2 & [l2 L2]).
  repeat split; [auto | lia |].
  exists (l1 ++ l2)%list. now rewrite L2, L1, app_assoc.
Qed.

Lemma kept_update step f self k s :
  (forall s0, kept s0 (f s0)) ->
  Dict.get k (steps self) = Some s ->
  exists s', Dict.get k (steps (update_step step f self)) = Some s' /\ kept s s'.
Proof.
  intros Hf Hget. rewrite update_step_lookup, Hget.
  destruct (String.eqb k step); cbn [option_map]; eexists; split;
    try reflexivity; [apply Hf | apply kept_refl].
Qed.

Lemma change_kept a b k s :
  change a b -> Dict.get k (steps a) = Some s ->
  exists s', Dict.get k (steps b) = Some s' /\ kept s s'.
Proof.
  assert (Hnil : forall l : list Checkpoint.t, exists added, l = (l ++ added)%list)
    by (intros l; exists []; now rewrite app_nil_r).
  destruct 1; intros Hget.
  1-5: apply kept_update; [|exact Hget]; intros s0;
    repeat split; cbn; auto; try lia; eexists; reflexivity.
  all: exists s; split; [exact Hget | apply kept_refl].
Qed.

Lemma grows_kept a b k s :
  grows a b -> Dict.get k (steps a) = Some s ->
  exists s', Dict.get k (steps b) = Some s' /\ kept s s'.
Proof.
  induction 1 as [|b c _ IH Hc]; intros Hget.
  - exists s. split; [assumption | apply kept_refl].
  - destruct (IH Hget) as (s1 & H1 & K1).
    destruct (change_kept _ _ _ _ Hc H1) as (s2 & H2 & K2).
    exists s2. split; [assumption | eapply kept_trans; eauto].
Qed.

(** Sessions. *)

Lemma run_call_grows base c self :
  is_reset c = false -> grows base self -> always (grows base) (run_call c self).
Proof.
  intros Hc H. destruct c; try discriminate; cbn [run_call].
  - now apply mark_done_grows.
  - now apply mark_partial_grows.
  - now apply increment_attempts_grows.
  - now apply set_step_metadata_grows.
  - eapply always_bind; [apply run_shell_step_grows, H|].
    intros r Hr. now apply always_ret.
  - eapply always_bind; [apply run_shell_sequence_grows, H|].
    intros r Hr. now apply always_ret.
Qed.

Lemma always_weaken {A} (P Q : A -> Prop) (m : IO A) :
  (forall a, P a -> Q a) -> always P m -> always Q m.
Proof. intros HPQ Hm w. apply HPQ, Hm. Qed.

Lemma run_call_evolves base c self :
  evolves base self -> always (evolves base) (run_call c self).
Proof.
  intros H. destruct (is_reset c) eqn:Hc.
  - destruct c; try discriminate; cbn [run_call].
    + now apply reset_step_evolves.
    + now apply reset_all_evolves.
  - apply always_weaken with (P := grows self).
    + intros a Ha. eapply evolves_trans; [exact H | now apply grows_evolves].
    + apply run_call_grows; [assumption | constructor].
Qed.

Lemma run_calls_evolves cs : forall base self,
  evolves base self -> always (evolves base) (run_calls cs self).
Proof.
  induction cs as [|c rest IH]; intros base self H.
  - now apply always_ret.
  - cbn [run_calls]. eapply always_bind; [apply run_call_evolves, H|].
    intros self' H'. now apply IH.
Qed.

Lemma run_calls_grows cs : forall base self,
  forallb (fun c => negb (is_reset c)) cs = true ->
  grows base self -> always (grows base) (run_calls cs self).
Proof.
  induction cs as [|c rest IH]; intros base self Hcs H.
  - now apply always_ret.
  - cbn [forallb] in Hcs. apply andb_true_iff in Hcs as [Hc Hrest].
    apply negb_true_iff in Hc.
    cbn [run_calls]. eapply always_bind; [apply run_call_grows; eassumption|].
    intros self' H'. now apply IH.
Qed.

(** X1. Whatever methods are called on a tracker, in whatever order,
    the registry keeps its step names, in their order: no call adds,
    removes or moves a step.  The session keeps its lab name, session
    id, student id, file and persistence flags as well. *)
Theorem session_keeps_step_names cs self w :
  Dict.keys (steps (fst (run_calls cs self w))) = Dict.keys (steps self)
  /\ same_session self (fst (run_calls cs self w)).
Proof.
  pose proof (run_calls_evolves cs self self (evolves_refl self) w) as H.
  split; [now apply evolves_keys | now apply evolves_same_session].
Qed.


(** X3. As long as no reset is called, a step never loses what it has:
    after any sequence of the other methods, a completed step is still
    completed, its count of attempts has not gone down, and its
    checkpoints are those it had, with more at the end at most. *)
Theorem session_without_reset_keeps_progress cs self w step s :
  forallb (fun c => negb (is_reset c)) cs = true ->
  Dict.get step (steps self) = Some s ->
  exists s',
    Dict.get step (steps (fst (run_calls cs self w))) = Some s'
    /\ (Step.completed s = true -> Step.completed s' = true)
    /\ Step.attempts s <= Step.attempts s'
    /\ exists added,
         Step.checkpoints s' = (Step.checkpoints s ++ added)%list.
Proof.
  intros Hcs Hget.
  pose proof (run_calls_grows cs self self Hcs (grows_refl self) w) as H.
  destruct (grows_kept _ _ _ _ H Hget) as (s' & Hs' & K).
  exists s'. split; [assumption | exact K].
Qed.

(** X4. The start time recorded for a step is never changed or dropped,
    whatever is called afterwards; not even a reset of the step clears
    it. *)
Theorem session_keeps_start_times cs self w step started :
  Dict.get step (_step_start_times self) = Some started ->
  Dict.get step (_step_start_times (fst (run_calls cs self w))) = Some started.
Proof.
  apply evolves_start_times.
  apply (run_calls_evolves cs self self), evolves_refl.
Qed.

Lemma stampedb_sound self : stampedb self = true -> stamped self.
Proof.
  unfold stampedb, stamped. rewrite forallb_forall. intros H step s Hget Hc.
  assert (Hin : In (step, s) (steps self)).
  { clear H Hc. induction (steps self) as [|[k v] d IH]; [discriminate|].
    cbn [Dict.get] in Hget. destruct (String.eqb step k) eqn:E.
    - apply String.eqb_eq in E. injection Hget as ->. subst. now left.
    - right. auto. }
  specialize (H _ Hin). cbn [snd] in H. rewrite Hc in H.
  destruct (Step.timestamp s); [discriminate | discriminate H].
Qed.


Lemma session_without_reset_keeps_progress_witness :
  forallb (fun c => negb (is_reset c))
    [MarkPartial "Setup" (1 # 2) EmptyString (Some "half");
     IncrementAttempts "Setup"; MarkDone "Build" None EmptyString] = true
  /\ Dict.get "Setup" (steps Sample.done_tracker)
     = Some (Step.mk true (Some "2024-01-15T09:00:03") 0 (Some (90 # 1))
               EmptyString 0 [])
  /\ exists s',
       Dict.get "Setup"
         (steps (fst (run_calls
                        [MarkPartial "Setup" (1 # 2) EmptyString (Some "half");
                         IncrementAttempts "Setup";
                         MarkDone "Build" None EmptyString]
                        Sample.done_tracker Sample.world2))) = Some s'
       /\ (true = true -> Step.completed s' = true)
       /\ 0 <= Step.attempts s'
       /\ exists added, Step.checkpoints s' = ([] ++ added)%list.
Proof.
  split; [reflexivity|]. split; [reflexivity|].
  apply (session_without_reset_keeps_progress
           [MarkPartial "Setup" (1 # 2) EmptyString (Some "half");
            IncrementAttempts "Setup"; MarkDone "Build" None EmptyString]
           Sample.done_tracker Sample.world2 "Setup"
           (Step.mk true (Some "2024-01-15T09:00:03") 0 (Some (90 # 1))
              EmptyString 0 []));
    reflexivity.
Defined.

Lemma session_keeps_start_times_witness :
  let started :=
    fst (mark_partial "Setup" (1 # 2) EmptyString None Sample.tracker
           Sample.world1) in
  Dict.get "Setup" (_step_start_times started) = Some (Sample.clock 3)
  /\ Dict.get "Setup"
       (_step_start_times
          (fst (run_calls [MarkDone "Setup" None EmptyString; ResetAll]
                  started Sample.world2)))
     = Some (Sample.clock 3).
Proof.
  split; [reflexivity|].
  apply (session_keeps_start_times
           [MarkDone "Setup" None EmptyString; ResetAll] _ Sample.world2
           "Setup" (Sample.clock 3)).
  reflexivity.
Defined.

(* ------------------------------------------------------------------ *)
(** ** The registry after a call *)

Lemma update_step_set step f self s :
  Dict.get step (steps self) = Some s ->
  steps (update_step step f self) = Dict.set step (f s) (steps self).
Proof. intros H. unfold update_step. now rewrite H. Qed.

Lemma mark_done_registry step score notes self w :
  steps (fst (mark_done step score notes self w))
  = steps (update_step step
             (fun s =>
                let s1 := Step.complete (isoformat (clock w (ticks w))) score s in
                if truthy notes then Step.set_notes notes s1 else s1) self).
Proof.
  unfold mark_done. destruct (Dict.mem step (steps self)) eqn:Hm.
  - rewrite run_bind; cbn beta. rewrite bind_finish, record_event_steps.
    cbn [now fst]. destruct (truthy notes); cbn zeta.
    + now rewrite <- update_step_compose.
    + reflexivity.
  - apply mem_get_none in Hm. unfold update_step. now rewrite Hm.
Qed.

Lemma frame_refl step self : frame step self self.
Proof. intros other _. reflexivity. Qed.

Lemma frame_trans step a b c : frame step a b -> frame step b c -> frame step a c.
Proof. intros Hab Hbc other Hne. now rewrite Hbc, Hab. Qed.

Lemma frame_update step f base self :
  frame step base self -> frame step base (update_step step f self).
Proof.
  intros H other Hne. rewrite update_step_lookup.
  apply String.eqb_neq in Hne. rewrite Hne. apply H. now apply String.eqb_neq.
Qed.

Lemma frame_same_steps step base a b :
  steps b = steps a -> frame step base a -> frame step base b.
Proof. intros E H other Hne. rewrite E. now apply H. Qed.

Lemma mark_partial_frame step progress notes cp self :
  always (frame step self) (mark_partial step progress notes cp self).
Proof.
  unfold mark_partial.
  destruct (Dict.mem step (steps self)); [|apply always_ret, frame_refl].
  eapply always_bind with (Q := frame step self).
  { assert (H : frame step self
                  (if truthy notes
                   then update_step step (Step.set_notes notes)
                          (update_step step
                             (Step.set_partial_progress
                                (py_max 0 (py_min 1 progress))) self)
                   else update_step step
                          (Step.set_partial_progress
                             (py_max 0 (py_min 1 progress))) self))
      by (destruct (truthy notes); repeat apply frame_update; apply frame_refl).
    destruct (negb _ && _)%bool; [|now apply always_ret].
    apply always_bind_any; intros started. apply always_ret.
    eapply frame_same_steps; [|exact H]. reflexivity. }
  intros self1 H1.
  eapply always_bind with (Q := frame step self).
  { destruct cp as [name|]; [|now apply always_ret].
    destruct (truthy name); [|now apply always_ret].
    apply always_bind_any; intros stamp. apply always_ret.
    now apply frame_update. }
  intros self2 H2.
  eapply always_bind with (Q := frame step self).
  { intros w. eapply frame_same_steps; [apply record_event_steps | exact H2]. }
  intros self3 H3. apply autosave_then, display_progress_then.
  now apply always_ret.
Qed.

Lemma increment_attempts_registry step self w :
  steps (fst (increment_attempts step self w))
  = steps (update_step step
             (fun s => Step.set_attempts (Step.attempts s + 1) s) self).
Proof.
  unfold increment_attempts. destruct (Dict.mem step (steps self)) eqn:Hm.
  - now rewrite bind_finish_short, record_event_steps.
  - apply mem_get_none in Hm. unfold update_step. now rewrite Hm.
Qed.

Lemma reset_step_registry step self w :
  steps (fst (reset_step step self w))
  = steps (update_step step (fun _ => Step.fresh) self).
Proof.
  unfold reset_step. destruct (Dict.mem step (steps self)) eqn:Hm.
  - now rewrite finish_keeps_tracker.
  - apply mem_get_none in Hm. unfold update_step. now rewrite Hm.
Qed.

(** X5. [mark_done], [mark_partial], [increment_attempts] and
    [reset_step] change the record of the step they are called with and
    no other: every other step has the record it had.
    [increment_attempts] adds exactly one to the attempts of its step
    and leaves the other fields of the record alone; [reset_step] puts
    the record of a new step in its place. *)
Theorem basic_methods_touch_one_step step score notes progress cp self w :
  (forall other,
      other <> step ->
      Dict.get other (steps (fst (mark_done step score notes self w)))
      = Dict.get other (steps self)
      /\ Dict.get other (steps (fst (mark_partial step progress notes cp self w)))
         = Dict.get other (steps self)
      /\ Dict.get other (steps (fst (increment_attempts step self w)))
         = Dict.get other (steps self)
      /\ Dict.get other (steps (fst (reset_step step self w)))
         = Dict.get other (steps self))
  /\ Dict.get step (steps (fst (increment_attempts step self w)))
     = option_map (fun s => Step.set_attempts (Step.attempts s + 1) s)
         (Dict.get step (steps self))
  /\ Dict.get step (steps (fst (reset_step step self w)))
     = option_map (fun _ => Step.fresh) (Dict.get step (steps self)).
Proof.
  rewrite mark_done_registry, increment_attempts_registry,
    reset_step_registry.
  split; [|split].
  - intros other Hne. pose proof (mark_partial_frame step progress notes cp self w
                                    other Hne) as Hp.
    apply String.eqb_neq in Hne.
    rewrite !update_step_lookup, Hne. repeat split. exact Hp.
  - now rewrite update_step_lookup, String.eqb_refl.
  - now rewrite update_step_lookup, String.eqb_refl.
Qed.

Lemma basic_methods_touch_one_step_witness :
  "Build" <> "Setup"
  /\ Dict.get "Build"
       (steps (fst (mark_done "Setup" (Some (90 # 1)) EmptyString
                      Sample.tracker Sample.world1)))
     = Dict.get "Build" (steps Sample.tracker).
Proof.
  assert (Hne : "Build" <> "Setup") by discriminate.
  split; [exact Hne|].
  exact (proj1 (proj1 (basic_methods_touch_one_step "Setup" (Some (90 # 1))
                         EmptyString 0 None Sample.tracker Sample.world1)
                  "Build" Hne)).
Defined.

(* ------------------------------------------------------------------ *)
(** ** Completion rate, average score, current step *)

Lemma ratio_bounds (c n : Z) :
  0 <= c <= n -> 0 < n ->
  (0 <= inject_Z c / inject_Z n * 100 <= 100)%Q.
Proof.
  intros Hc Hn. destruct n as [|p|p]; try lia.
  unfold Qle, Qdiv, Qinv, Qmult, inject_Z; cbn. split; nia.
Qed.

Lemma ratio_full (c n : Z) :
  0 < n -> (inject_Z c / inject_Z n * 100 == 100)%Q <-> c = n.
Proof.
  intros Hn. destruct n as [|p|p]; try lia.
  unfold Qeq, Qdiv, Qinv, Qmult, inject_Z; cbn. split; nia.
Qed.

Lemma ratio_zero (c n : Z) :
  0 < n -> (inject_Z c / inject_Z n * 100 == 0)%Q <-> c = 0.
Proof.
  intros Hn. destruct n as [|p|p]; try lia.
  unfold Qeq, Qdiv, Qinv, Qmult, inject_Z; cbn. split; nia.
Qed.

Lemma filter_length_bound {A} (f : A -> bool) l :
  (length (filter f l) <= length l)%nat.
Proof.
  induction l as [|a l IH]; cbn [filter length]; [lia|].
  destruct (f a); cbn [length]; lia.
Qed.

Lemma filter_length_all {A} (f : A -> bool) l :
  length (filter f l) = length l <-> Forall (fun a => f a = true) l.
Proof.
  induction l as [|a l IH]; cbn [filter length].
  - split; [constructor | reflexivity].
  - pose proof (filter_length_bound f l).
    destruct (f a) eqn:E; cbn [length]; split; intros H0.
    + constructor; [assumption|]. apply IH. lia.
    + inversion H0; subst. f_equal. now apply IH.
    + lia.
    + inversion H0; congruence.
Qed.

Lemma filter_length_none {A} (f : A -> bool) l :
  length (filter f l) = 0%nat <-> Forall (fun a => f a = false) l.
Proof.
  induction l as [|a l IH]; cbn [filter length].
  - split; [constructor | reflexivity].
  - destruct (f a) eqn:E; cbn [length]; split; intros H0.
    + lia.
    + inversion H0; congruence.
    + constructor; [assumption | now apply IH].
    + inversion H0; subst. now apply IH.
Qed.

(** X6. The completion rate is a percentage: it lies between 0 and
    100, it is 0 for a tracker without steps, and for a tracker with
    steps it is 100 exactly when every step is completed and 0 exactly
    when none is. *)
Theorem completion_rate_is_a_percentage self :
  (0 <= get_completion_rate self <= 100)%Q
  /\ (steps self = [] -> get_completion_rate self = 0%Q)
  /\ (steps self <> [] ->
      ((get_completion_rate self == 100)%Q
       <-> Forall (fun s => Step.completed s = true) (Dict.values (steps self)))
      /\ ((get_completion_rate self == 0)%Q
          <-> Forall (fun s => Step.completed s = false)
                (Dict.values (steps self)))).
Proof.
  unfold get_completion_rate, Qlen.
  pose proof (filter_length_bound Step.completed (Dict.values (steps self))) as Hb.
  pose proof (filter_length_all Step.completed (Dict.values (steps self))) as Hall.
  pose proof (filter_length_none Step.completed (Dict.values (steps self))) as Hnone.
  assert (Hlen : length (Dict.values (steps self)) = length (steps self))
    by apply length_map.
  rewrite Hlen in *.
  destruct (steps self) as [|kv rest] eqn:E.
  - split; [split; discriminate|]. split; [reflexivity|]. congruence.
  - rewrite <- E in *. assert (Hpos : (0 < length (steps self))%nat)
      by (rewrite E; cbn; lia).
    split; [apply ratio_bounds; lia|]. split; [rewrite E; discriminate|].
    intros _. split.
    + rewrite ratio_full by lia. rewrite <- Hall. lia.
    + rewrite ratio_zero by lia. rewrite <- Hnone. lia.
Qed.

Lemma completion_rate_is_a_percentage_witness :
  steps Sample.done_tracker <> []
  /\ ~ (get_completion_rate Sample.done_tracker == 100)%Q
  /\ ~ (get_completion_rate Sample.done_tracker == 0)%Q.
Proof.
  assert (Hne : steps Sample.done_tracker <> []) by discriminate.
  destruct (completion_rate_is_a_percentage Sample.done_tracker)
    as (_ & _ & H).
  destruct (H Hne) as [Hfull Hzero].
  split; [exact Hne|]. split.
  - intros E. apply Hfull in E. vm_compute in E.
    inversion E as [|? ? _ E']. inversion E' as [|? ? D _]. discriminate D.
  - intros E. apply Hzero in E. vm_compute in E.
    inversion E as [|? ? D _]. discriminate D.
Defined.

Lemma fold_Qplus_shift l : forall a, (fold_left Qplus l a == a + Qsum l)%Q.
Proof.
  unfold Qsum. induction l as [|x l IH]; intros a; cbn [fold_left].
  - now rewrite Qplus_0_r.
  - rewrite (IH (a + x)%Q), (IH (0 + x)%Q). rewrite Qplus_0_l.
    now rewrite Qplus_assoc.
Qed.

Lemma Qsum_cons x l : (Qsum (x :: l) == x + Qsum l)%Q.
Proof.
  unfold Qsum at 1. cbn [fold_left]. rewrite fold_Qplus_shift.
  now rewrite Qplus_0_l.
Qed.

Lemma Qlen_cons {A} (x : A) l : (Qlen (x :: l) == 1 + Qlen l)%Q.
Proof.
  unfold Qlen. cbn [length]. rewrite Nat2Z.inj_succ, <- Z.add_1_l.
  now rewrite inject_Z_plus.
Qed.

Lemma Qsum_between lo hi l :
  Forall (fun x => lo <= x <= hi)%Q l ->
  (lo * Qlen l <= Qsum l <= hi * Qlen l)%Q.
Proof.
  induction 1 as [|x l [Hlo Hhi] _ [IHlo IHhi]].
  - unfold Qlen, Qsum; cbn. rewrite !Qmult_0_r. split; apply Qle_refl.
  - rewrite Qsum_cons, Qlen_cons, !Qmult_plus_distr_r, !Qmult_1_r.
    split; apply Qplus_le_compat; assumption.
Qed.

Lemma mean_between lo hi l :
  l <> [] -> Forall (fun x => lo <= x <= hi)%Q l ->
  (lo <= Qsum l / Qlen l <= hi)%Q.
Proof.
  intros Hne Hall. destruct (Qsum_between lo hi l Hall) as [Hlo Hhi].
  assert (Hpos : (0 < Qlen l)%Q).
  { destruct l; [congruence|]. unfold Qlen, Qlt, inject_Z; cbn. lia. }
  split; [now apply Qle_shift_div_l | now apply Qle_shift_div_r].
Qed.

(** The scores that [get_average_score] averages. *)
Lemma counted_scores_in x (values : list Step.t) :
  In x (flat_map (fun s => if Step.completed s
                           then match Step.score s with
                                | Some y => [y]
                                | None => []
                                end
                           else []) values)
  <-> exists s, In s values /\ Step.completed s = true /\ Step.score s = Some x.
Proof.
  rewrite in_flat_map. split.
  - intros (s & Hin & Hx). exists s. split; [assumption|].
    destruct (Step.completed s); [|destruct Hx].
    destruct (Step.score s) as [y|]; [|destruct Hx].
    destruct Hx as [->|[]]. now split.
  - intros (s & Hin & Hc & Hs). exists s. split; [assumption|].
    rewrite Hc, Hs. now left.
Qed.



Lemma filter_first {A} (f : A -> bool) l :
  match filter f l with
  | x :: _ => exists before after,
                l = (before ++ x :: after)%list /\ f x = true
                /\ Forall (fun a => f a = false) before
  | [] => Forall (fun a => f a = false) l
  end.
Proof.
  induction l as [|a l IH]; cbn [filter]; [constructor|].
  destruct (f a) eqn:E.
  - exists [], l. repeat split; [assumption | constructor].
  - destruct (filter f l) as [|x r].
    + now constructor.
    + destruct IH as (before & after & -> & Hx & Hb).
      exists (a :: before), after. repeat split; [assumption|].
      now constructor.
Qed.

(** X8. [get_current_step] answers the first step of the registry, in
    registry order, that is not completed: every step before it is
    completed.  It answers [None] exactly when every step is completed,
    which is also when [get_incomplete_steps] is empty. *)
Theorem current_step_is_first_incomplete self :
  match get_current_step self with
  | Some step =>
      exists before s after,
        steps self = (before ++ (step, s) :: after)%list
        /\ Step.completed s = false
        /\ Forall (fun kv => Step.completed (snd kv) = true) before
        /\ exists rest, get_incomplete_steps self = step :: rest
  | None =>
      Forall (fun kv => Step.completed (snd kv) = true) (steps self)
      /\ get_incomplete_steps self = []
  end.
Proof.
  unfold get_current_step, get_incomplete_steps, Dict.keys.
  pose proof (filter_first (fun kv : string * Step.t =>
                              negb (Step.completed (snd kv))) (steps self)) as H.
  destruct (filter _ (steps self)) as [|[k s] r]; cbn [map fst].
  - split; [|reflexivity]. eapply Forall_impl; [|exact H].
    intros kv Hkv. now apply negb_false_iff.
  - destruct H as (before & after & E & Hx & Hb).
    exists before, s, after. split; [assumption|].
    split; [now apply negb_true_iff|]. split; [|eexists; reflexivity].
    eapply Forall_impl; [|exact Hb]. intros kv Hkv. now apply negb_false_iff.
Qed.

(* ------------------------------------------------------------------ *)
(** ** New trackers and resets *)

Lemma get_none_not_in_keys {V} (k : string) (d : Dict.t V) :
  Dict.get k d = None -> ~ In k (Dict.keys d).
Proof.
  unfold Dict.keys. induction d as [|[k' v'] d IH]; [auto|].
  cbn [Dict.get map fst]. destruct (String.eqb k k') eqn:Ek; [discriminate|].
  intros Hget [->|Hin]; [now rewrite String.eqb_refl in Ek|]. now apply IH.
Qed.

Lemma NoDup_snoc {A} (l : list A) (a : A) :
  NoDup l -> ~ In a l -> NoDup (l ++ [a]).
Proof.
  induction 1 as [|x l Hx Hl IH]; intros Ha; cbn [app].
  - repeat constructor. auto.
  - constructor.
    + rewrite in_app_iff. intros [H|[<-|[]]]; [auto|]. apply Ha. now left.
    + apply IH. intros H. apply Ha. now right.
Qed.

Lemma set_keeps_NoDup {V} (k : string) (v : V) (d : Dict.t V) :
  NoDup (Dict.keys d) -> NoDup (Dict.keys (Dict.set k v d)).
Proof.
  intros H. destruct (Dict.mem k d) eqn:E.
  - now rewrite keys_set_present.
  - apply mem_get_none, get_none_not_in_keys in E.
    rewrite keys_set_absent by assumption. now apply NoDup_snoc.
Qed.

Lemma in_keys_set {V} (x k : string) (v : V) (d : Dict.t V) :
  In x (Dict.keys (Dict.set k v d)) <-> x = k \/ In x (Dict.keys d).
Proof.
  unfold Dict.keys. induction d as [|[k' v'] d IH]; cbn [Dict.set map fst].
  - cbn. intuition.
  - destruct (String.eqb k k') eqn:E; cbn [map fst In].
    + apply String.eqb_eq in E; subst. intuition.
    + rewrite IH. intuition.
Qed.

(** The registry that [__init__] builds from a list of names. *)
Lemma fresh_registry names : forall d : Dict.t Step.t,
  let r := fold_left (fun d step => Dict.set step Step.fresh d) names d in
  (NoDup (Dict.keys d) -> NoDup (Dict.keys r))
  /\ (forall k, In k (Dict.keys r) <-> In k (Dict.keys d) \/ In k names)
  /\ ((forall k s, Dict.get k d = Some s -> s = Step.fresh) ->
      forall k s, Dict.get k r = Some s -> s = Step.fresh)
  /\ (NoDup (Dict.keys d ++ names) -> Dict.keys r = (Dict.keys d ++ names)%list).
Proof.
  induction names as [|n names IH]; intros d; cbn zeta; cbn [fold_left].
  - split; [auto|]. split; [|split; [auto|]].
    + intros k. cbn [In]. tauto.
    + intros _. now rewrite app_nil_r.
  - destruct (IH (Dict.set n Step.fresh d)) as (I1 & I2 & I3 & I4).
    cbn zeta in *. split; [|split; [|split]].
    + intros H. now apply I1, set_keeps_NoDup.
    + intros k. rewrite I2, in_keys_set. cbn [In].
      split; [intros [[->|H]|H] | intros [H|[<-|H]]]; auto.
    + intros Hd. apply I3. intros k s.
      destruct (String.eqb k n) eqn:E.
      * apply String.eqb_eq in E; subst. rewrite get_set_same. congruence.
      * apply String.eqb_neq in E. rewrite get_set_other by assumption. apply Hd.
    + intros Hnd.
      assert (Hnotin : ~ In n (Dict.keys d)).
      { apply NoDup_remove_2 in Hnd. intros Hin. apply Hnd.
        apply in_or_app. now left. }
      rewrite I4; rewrite keys_set_absent by assumption;
        rewrite <- app_assoc; [reflexivity | exact Hnd].
Qed.

Lemma init_without_file names lab persist pf auto_save md w :
  (persist && Dict.mem (resolved_file lab pf) (files w))%bool = false ->
  let self := fst (__init__ (StepNames names) lab persist pf auto_save md w) in
  steps self = fold_left (fun d step => Dict.set step Step.fresh d) names []
  /\ _analytics_data self = []
  /\ _step_start_times self = []
  /\ lab_name self = lab
  /\ persist_file self = resolved_file lab pf
  /\ _session_id self = isoformat (clock w (ticks w))
  /\ start_time self = clock w (S (ticks w))
  /\ _is_resumed self = false.
Proof.
  intros Hnf. cbn zeta. unfold __init__.
  fold (resolved_file lab pf).
  destruct persist; cbn [andb] in Hnf;
    repeat (rewrite run_bind; cbn beta);
    cbn [now uuid4 path_exists ret fst snd files ticks clock drawn uuids];
    rewrite ?Hnf; cbn [ret fst snd]; repeat split.
Qed.

Lemma NoDup_get_in {V} (k : string) (v : V) (d : Dict.t V) :
  NoDup (Dict.keys d) -> In (k, v) d -> Dict.get k d = Some v.
Proof.
  unfold Dict.keys. induction d as [|[k' v'] d IH]; intros Hnd Hin.
  - destruct Hin.
  - cbn [map fst] in Hnd. inversion Hnd as [|? ? Hnotin Hnd']; subst.
    cbn [Dict.get]. destruct Hin as [Heq | Hin].
    + injection Heq as -> ->. now rewrite String.eqb_refl.
    + destruct (String.eqb k k') eqn:E; [|auto].
      apply String.eqb_eq in E; subst k'. exfalso. apply Hnotin.
      change k with (fst (k, v)). now apply in_map.
Qed.

Lemma get_in {V} (k : string) (v : V) (d : Dict.t V) :
  Dict.get k d = Some v -> In (k, v) d.
Proof.
  induction d as [|[k' v'] d IH]; [discriminate|].
  cbn [Dict.get]. destruct (String.eqb k k') eqn:E.
  - apply String.eqb_eq in E. intros [= ->]. subst. now left.
  - right. auto.
Qed.

Lemma values_Forall (P : Step.t -> Prop) (d : Dict.t Step.t) :
  NoDup (Dict.keys d) ->
  (forall k s, Dict.get k d = Some s -> P s) ->
  Forall P (Dict.values d).
Proof.
  intros Hnd H. unfold Dict.values. apply Forall_forall. intros s Hs.
  apply in_map_iff in Hs as ([k s'] & <- & Hin). cbn [snd].
  apply (H k). now apply NoDup_get_in.
Qed.

Lemma completion_rate_zero self :
  Forall (fun s => Step.completed s = false) (Dict.values (steps self)) ->
  (get_completion_rate self == 0)%Q.
Proof.
  intros H. apply filter_length_none in H.
  unfold get_completion_rate. rewrite H.
  destruct (steps self); [reflexivity|].
  unfold Qeq, Qdiv, Qmult, inject_Z; cbn. reflexivity.
Qed.

Lemma completion_rate_full self :
  steps self <> [] ->
  Forall (fun s => Step.completed s = true) (Dict.values (steps self)) ->
  (get_completion_rate self == 100)%Q.
Proof.
  intros Hne H. apply filter_length_all in H.
  unfold get_completion_rate. rewrite H.
  unfold Dict.values. rewrite length_map.
  destruct (steps self) as [|kv rest] eqn:E; [congruence|].
  unfold Qlen. apply ratio_full; [cbn [length]; lia | reflexivity].
Qed.

Lemma incomplete_all (d : Dict.t Step.t) :
  Forall (fun s => Step.completed s = false) (Dict.values d) ->
  Dict.keys (filter (fun kv => negb (Step.completed (snd kv))) d) = Dict.keys d.
Proof.
  unfold Dict.values, Dict.keys. induction d as [|[k s] d IH]; intros H;
    [reflexivity|].
  cbn [map snd] in H. inversion H as [|? ? Hs Hd]; subst.
  cbn [filter snd]. rewrite Hs. cbn [negb map fst]. now rewrite IH.
Qed.

Lemma incomplete_none (d : Dict.t Step.t) :
  Forall (fun s => Step.completed s = true) (Dict.values d) ->
  filter (fun kv => negb (Step.completed (snd kv))) d = [].
Proof.
  unfold Dict.values. induction d as [|[k s] d IH]; intros H; [reflexivity|].
  cbn [map snd] in H. inversion H as [|? ? Hs Hd]; subst.
  cbn [filter snd]. rewrite Hs. cbn [negb]. now apply IH.
Qed.



Lemma reset_each_lookup names : forall self w k,
  Dict.get k (steps (fst (reset_each names self w)))
  = if existsb (String.eqb k) names
    then option_map (fun _ => Step.fresh) (Dict.get k (steps self))
    else Dict.get k (steps self).
Proof.
  induction names as [|n rest IH]; intros self w k; [reflexivity|].
  cbn [reset_each existsb]. rewrite run_bind, IH.
  rewrite reset_step_registry, update_step_lookup.
  destruct (String.eqb k n), (existsb (String.eqb k) rest); cbn [orb];
    try reflexivity.
  now destruct (Dict.get k (steps self)).
Qed.

Lemma reset_each_keeps names : forall self w,
  Dict.keys (steps (fst (reset_each names self w))) = Dict.keys (steps self)
  /\ _step_start_times (fst (reset_each names self w)) = _step_start_times self.
Proof.
  induction names as [|n rest IH]; intros self w; [split; reflexivity|].
  cbn [reset_each]. rewrite run_bind.
  destruct (IH (fst (reset_step n self w)) (snd (reset_step n self w)))
    as [Hk Hs].
  rewrite Hk, Hs, reset_step_registry, update_step_keys. split; [reflexivity|].
  unfold reset_step. destruct (Dict.mem n (steps self)); [|reflexivity].
  rewrite finish_keeps_tracker. apply update_step_start_times.
Qed.

(** X10. [reset_all] gives every step of the registry the default
    record, whatever it held, and keeps the step names and the recorded
    start times.  Afterwards (step names being distinct, as the keys of
    a dict are) every step is incomplete and the completion rate is 0. *)
Theorem reset_all_resets_every_step self w :
  let after := fst (reset_all self w) in
  (forall k,
      Dict.get k (steps after)
      = option_map (fun _ => Step.fresh) (Dict.get k (steps self)))
  /\ Dict.keys (steps after) = Dict.keys (steps self)
  /\ _step_start_times after = _step_start_times self
  /\ (NoDup (Dict.keys (steps self)) ->
      get_incomplete_steps after = Dict.keys (steps self)
      /\ (get_completion_rate after == 0)%Q).
Proof.
  cbn zeta. unfold reset_all.
  destruct (reset_each_keeps (Dict.keys (steps self)) self w) as [Hk Hs].
  assert (Hl : forall k,
             Dict.get k (steps (fst (reset_each (Dict.keys (steps self)) self w)))
             = option_map (fun _ => Step.fresh) (Dict.get k (steps self))).
  { intros k. rewrite reset_each_lookup.
    destruct (existsb (String.eqb k) (Dict.keys (steps self))) eqn:E;
      [reflexivity|].
    destruct (Dict.get k (steps self)) as [s|] eqn:G; [|reflexivity].
    exfalso. apply get_in in G.
    assert (Hin : In k (Dict.keys (steps self)))
      by (change k with (fst (k, s)); now apply in_map).
    assert (existsb (String.eqb k) (Dict.keys (steps self)) = true)
      by (apply existsb_exists; exists k; split;
          [assumption | apply String.eqb_refl]).
    congruence. }
  split; [exact Hl|]. split; [exact Hk|]. split; [exact Hs|].
  intros Hnd.
  assert (Hfresh : Forall (fun s => Step.completed s = false)
            (Dict.values
               (steps (fst (reset_each (Dict.keys (steps self)) self w))))).
  { apply values_Forall; [now rewrite Hk|]. intros k s Hget.
    rewrite Hl in Hget. destruct (Dict.get k (steps self)); [|discriminate].
    now injection Hget as <-. }
  split; [|now apply completion_rate_zero].
  unfold get_incomplete_steps. rewrite incomplete_all by assumption. exact Hk.
Qed.

Lemma reset_all_resets_every_step_witness :
  NoDup (Dict.keys (steps Sample.done_tracker))
  /\ get_incomplete_steps (fst (reset_all Sample.done_tracker Sample.world2))
     = ["Setup"; "Build"].
Proof.
  assert (Hnd : NoDup (Dict.keys (steps Sample.done_tracker)))
    by (repeat constructor; cbn; intuition discriminate).
  split; [exact Hnd|].
  destruct (reset_all_resets_every_step Sample.done_tracker Sample.world2)
    as (_ & _ & _ & H).
  exact (proj1 (H Hnd)).
Defined.

(* ------------------------------------------------------------------ *)
(** ** Completing a lab *)

Lemma mark_done_calls_no_reset (score : string -> option Q)
    (notes : string -> string) order :
  forallb (fun c => negb (is_reset c))
    (map (fun k => MarkDone k (score k) (notes k)) order) = true.
Proof. induction order; [reflexivity | assumption]. Qed.

Lemma completed_stays cs self w k s :
  forallb (fun c => negb (is_reset c)) cs = true ->
  Dict.get k (steps self) = Some s ->
  exists s', Dict.get k (steps (fst (run_calls cs self w))) = Some s'
             /\ (Step.completed s = true -> Step.completed s' = true).
Proof.
  intros Hcs Hget.
  pose proof (run_calls_grows cs self self Hcs (grows_refl self) w) as H.
  destruct (grows_kept _ _ _ _ H Hget) as (s' & Hs' & K & _).
  eauto.
Qed.

Lemma marked_steps_are_completed (score : string -> option Q)
    (notes : string -> string) order : forall self w k s,
  In k order ->
  Dict.get k (steps self) = Some s ->
  exists s',
    Dict.get k
      (steps (fst (run_calls (map (fun k => MarkDone k (score k) (notes k)) order)
                     self w))) = Some s'
    /\ Step.completed s' = true.
Proof.
  induction order as [|k0 rest IH]; intros self w k s Hin Hget; [destruct Hin|].
  cbn [map run_calls]. rewrite run_bind. cbn [run_call].
  destruct (String.eqb k k0) eqn:E.
  - apply String.eqb_eq in E; subst k0.
    pose proof (mark_done_get k (score k) (notes k) self w s Hget) as Hd.
    cbn zeta in Hd.
    destruct (completed_stays
                (map (fun k => MarkDone k (score k) (notes k)) rest)
                _ (snd (mark_done k (score k) (notes k) self w)) k _
                (mark_done_calls_no_reset score notes rest) Hd)
      as (s' & Hs' & Hc).
    exists s'. split; [assumption|]. apply Hc.
    destruct (truthy (notes k)); reflexivity.
  - apply String.eqb_neq in E. destruct Hin as [->|Hin]; [congruence|].
    pose proof (mark_done_grows self k0 (score k0) (notes k0) self
                  (grows_refl self) w) as Hg.
    destruct (grows_kept _ _ _ _ Hg Hget) as (s1 & Hs1 & _).
    now apply (IH _ _ k s1).
Qed.

(** X11. Marking every step of a lab done, in any order and with any
    scores and notes (steps may be marked more than once, and names
    that are not steps may occur), leaves no incomplete step: the list
    of incomplete steps is empty, there is no current step, and the
    completion rate of a lab with steps is 100. *)
Theorem marking_every_step_done_completes_the_lab
    (score : string -> option Q) (notes : string -> string) order self w :
  NoDup (Dict.keys (steps self)) ->
  (forall k, In k (Dict.keys (steps self)) -> In k order) ->
  let after :=
    fst (run_calls (map (fun k => MarkDone k (score k) (notes k)) order)
           self w) in
  get_incomplete_steps after = []
  /\ get_current_step after = None
  /\ (steps self <> [] -> (get_completion_rate after == 100)%Q).
Proof.
  intros Hnd Hall. cbn zeta.
  set (cs := map (fun k => MarkDone k (score k) (notes k)) order).
  pose proof (run_calls_evolves cs self self (evolves_refl self) w) as Hev.
  pose proof (evolves_keys _ _ Hev) as Hkeys.
  assert (Hdone : Forall (fun s => Step.completed s = true)
                    (Dict.values (steps (fst (run_calls cs self w))))).
  { apply values_Forall; [now rewrite Hkeys|]. intros k s' Hget.
    assert (Hk : In k (Dict.keys (steps self))).
    { rewrite <- Hkeys. apply get_in in Hget.
      change k with (fst (k, s')). now apply in_map. }
    assert (exists s, Dict.get k (steps self) = Some s) as [s Hs].
    { destruct (Dict.get k (steps self)) eqn:G; [eauto|].
      now apply get_none_not_in_keys in G. }
    destruct (marked_steps_are_completed score notes order self w k s
                (Hall k Hk) Hs) as (s2 & Hs2 & Hc).
    fold cs in Hs2. congruence. }
  assert (Hinc : get_incomplete_steps (fst (run_calls cs self w)) = []).
  { unfold get_incomplete_steps. now rewrite incomplete_none. }
  split; [exact Hinc|]. split.
  - unfold get_current_step. now rewrite Hinc.
  - intros Hne. apply completion_rate_full; [|assumption].
    intros E. apply Hne.
    assert (Hk0 : Dict.keys (steps self) = []) by (rewrite <- Hkeys, E; reflexivity).
    destruct (steps self); [reflexivity | discriminate].
Qed.

Lemma marking_every_step_done_completes_the_lab_witness :
  NoDup (Dict.keys (steps Sample.tracker))
  /\ (forall k, In k (Dict.keys (steps Sample.tracker)) ->
                In k ["Build"; "Setup"; "Build"])
  /\ get_current_step
       (fst (run_calls
               (map (fun k => MarkDone k None EmptyString)
                  ["Build"; "Setup"; "Build"])
               Sample.tracker Sample.world1)) = None.
Proof.
  assert (Hnd : NoDup (Dict.keys (steps Sample.tracker)))
    by (repeat constructor; cbn; intuition discriminate).
  assert (Hall : forall k, In k (Dict.keys (steps Sample.tracker)) ->
                           In k ["Build"; "Setup"; "Build"])
    by (intros k [<-|[<-|[]]]; cbn; auto).
  split; [exact Hnd|]. split; [exact Hall|].
  exact (proj1 (proj2 (marking_every_step_done_completes_the_lab
                         (fun _ => None) (fun _ => EmptyString)
                         ["Build"; "Setup"; "Build"] Sample.tracker
                         Sample.world1 Hnd Hall))).
Defined.

(* ------------------------------------------------------------------ *)
(** ** Saving after each update *)

Lemma autosave_writes self w :
  (persist self && auto_save self)%bool = true ->
  files (snd (autosave self w))
  = Dict.set (persist_file self)
      (JsonFile (saved_data self (clock w (ticks w)))) (files w).
Proof. intros H. unfold autosave. rewrite H. reflexivity. Qed.

Lemma display_progress_files self w :
  files (snd (display_progress self w)) = files w.
Proof. reflexivity. Qed.

Lemma finish_mirrors (m : IO t) w :
  (persist (fst (m w)) && auto_save (fst (m w)))%bool = true ->
  mirrored ((self <- m ;; autosave self ;;; display_progress self ;;; ret self) w).
Proof.
  intros H. unfold mirrored. rewrite bind_finish.
  rewrite run_bind; cbn beta. rewrite run_bind; cbn beta.
  rewrite run_bind; cbn beta. cbn [ret snd].
  rewrite display_progress_files, autosave_writes by assumption.
  eexists. apply get_set_same.
Qed.

Lemma finish_short_mirrors (m : IO t) w :
  (persist (fst (m w)) && auto_save (fst (m w)))%bool = true ->
  mirrored ((self <- m ;; autosave self ;;; ret self) w).
Proof.
  intros H. unfold mirrored. rewrite bind_finish_short.
  rewrite run_bind; cbn beta. rewrite run_bind; cbn beta. cbn [ret snd].
  rewrite autosave_writes by assumption.
  eexists. apply get_set_same.
Qed.

Lemma grows_saving a b :
  grows a b -> (persist a && auto_save a)%bool = true ->
  (persist b && auto_save b)%bool = true.
Proof.
  intros H. apply grows_evolves, evolves_same_session in H.
  destruct H as (_ & _ & _ & _ & -> & ->). auto.
Qed.

Lemma mark_done_mirrors step score notes self w :
  (persist self && auto_save self)%bool = true ->
  Dict.mem step (steps self) = true ->
  mirrored (mark_done step score notes self w).
Proof.
  intros Hs Hm.
  pose proof (mark_done_grows self step score notes self (grows_refl self) w) as Hg.
  revert Hg. unfold mark_done. rewrite Hm. rewrite run_bind; cbn beta.
  rewrite bind_finish. intros Hg. apply finish_mirrors.
  now apply (grows_saving self).
Qed.

Lemma mark_partial_mirrors step progress notes cp self w :
  (persist self && auto_save self)%bool = true ->
  Dict.mem step (steps self) = true ->
  mirrored (mark_partial step progress notes cp self w).
Proof.
  intros Hs Hm.
  pose proof (mark_partial_grows self step progress notes cp self
                (grows_refl self) w) as Hg.
  revert Hg. unfold mark_partial. rewrite Hm.
  rewrite run_bind; cbn beta. rewrite run_bind; cbn beta.
  rewrite bind_finish. intros Hg. apply finish_mirrors.
  now apply (grows_saving self).
Qed.

Lemma increment_attempts_mirrors step self w :
  (persist self && auto_save self)%bool = true ->
  Dict.mem step (steps self) = true ->
  mirrored (increment_attempts step self w).
Proof.
  intros Hs Hm.
  pose proof (increment_attempts_grows self step self (grows_refl self) w) as Hg.
  revert Hg. unfold increment_attempts. rewrite Hm.
  rewrite bind_finish_short. intros Hg. apply finish_short_mirrors.
  now apply (grows_saving self).
Qed.

Lemma reset_step_mirrors step self w :
  (persist self && auto_save self)%bool = true ->
  Dict.mem step (steps self) = true ->
  mirrored (reset_step step self w).
Proof.
  intros Hs Hm. unfold reset_step. rewrite Hm.
  set (self' := update_step step (fun _ => Step.fresh) self).
  assert (Hs' : (persist self' && auto_save self')%bool = true).
  { destruct (update_step_identity step (fun _ => Step.fresh) self)
      as (_ & _ & _ & _ & Hp & Ha).
    unfold self'. now rewrite Hp, Ha. }
  unfold mirrored. rewrite finish_keeps_tracker.
  rewrite run_bind; cbn beta. rewrite run_bind; cbn beta. cbn [ret snd].
  rewrite display_progress_files, autosave_writes by assumption.
  eexists. apply get_set_same.
Qed.

Lemma set_step_metadata_mirrors step metadata self w :
  (persist self && auto_save self)%bool = true ->
  Dict.mem step (steps self) = true ->
  mirrored (set_step_metadata step metadata self w).
Proof.
  intros Hs Hm. unfold set_step_metadata. rewrite Hm.
  unfold mirrored. rewrite run_bind; cbn beta. cbn [ret fst snd].
  rewrite autosave_writes by exact Hs.
  cbn [persist_file with_step_metadata]. eexists. apply get_set_same.
Qed.

Lemma mirrored_loads r b :
  mirrored r ->
  persist_file b = persist_file (fst r) ->
  valid_datetime (start_time (fst r)) = true ->
  steps (fst (_load_progress b (snd r))) = steps (fst r)
  /\ step_metadata (fst (_load_progress b (snd r))) = step_metadata (fst r)
  /\ _analytics_data (fst (_load_progress b (snd r))) = _analytics_data (fst r).
Proof.
  intros [last_saved Hfile] Hpf Hv. rewrite <- Hpf in Hfile.
  destruct (load_of_saved_file (fst r) b last_saved (snd r) Hfile Hv)
    as (H1 & _ & _ & _ & H5 & H6 & _).
  auto.
Qed.



(* ------------------------------------------------------------------ *)
(** ** Sessions that do not save *)

Lemma quiet_ret {A} (P : A -> Prop) a : P a -> quiet P (ret a).
Proof. intros H w. split; [exact H | reflexivity]. Qed.

Lemma quiet_bind {A B} (Q : A -> Prop) (P : B -> Prop) (m : IO A) k :
  quiet Q m -> (forall a, Q a -> quiet P (k a)) -> quiet P (bind m k).
Proof.
  intros Hm Hk w. rewrite run_bind. destruct (Hm w) as [Ha Hf].
  destruct (Hk _ Ha (snd (m w))) as [Hb Hf']. split; [exact Hb | congruence].
Qed.

Lemma quiet_any {A} (m : IO A) :
  (forall w, files (snd (m w)) = files w) -> quiet (fun _ => True) m.
Proof. intros H w. split; [exact I | apply H]. Qed.

Lemma quiet_then {A B} (P : B -> Prop) (m : IO A) k :
  (forall w, files (snd (m w)) = files w) ->
  (forall a, quiet P (k a)) -> quiet P (bind m k).
Proof.
  intros Hm Hk. eapply quiet_bind; [apply quiet_any, Hm|].
  intros a _. apply Hk.
Qed.

Lemma evolves_not_saving a b :
  evolves a b -> (persist a && auto_save a)%bool = false ->
  (persist b && auto_save b)%bool = false.
Proof.
  intros H. apply evolves_same_session in H.
  destruct H as (_ & _ & _ & _ & -> & ->). auto.
Qed.

Lemma autosave_off self w :
  (persist self && auto_save self)%bool = false ->
  files (snd (autosave self w)) = files w.
Proof. intros H. unfold autosave. now rewrite H. Qed.

Ltac quiet_prim :=
  apply quiet_then; [intros ?; reflexivity | intros ?].

Lemma record_event_quiet base et sn kw self :
  evolves base self ->
  quiet (evolves base) (_record_analytics_event et sn kw self).
Proof.
  intros H w. split; [|reflexivity].
  unfold _record_analytics_event. rewrite run_bind. cbn [ret fst].
  eapply evolves_change; [exact H | apply change_event].
Qed.

Lemma finish_quiet base self :
  (persist base && auto_save base)%bool = false ->
  evolves base self ->
  quiet (evolves base) (autosave self ;;; display_progress self ;;; ret self).
Proof.
  intros Hoff H.
  apply quiet_then; [intros w; apply autosave_off;
                     now apply (evolves_not_saving base)|].
  intros _. quiet_prim. now apply quiet_ret.
Qed.

Lemma finish_short_quiet {A} base self (a : A) (P : A -> Prop) :
  (persist base && auto_save base)%bool = false ->
  evolves base self -> P a ->
  quiet P (autosave self ;;; ret a).
Proof.
  intros Hoff H Ha.
  apply quiet_then; [intros w; apply autosave_off;
                     now apply (evolves_not_saving base)|].
  intros _. now apply quiet_ret.
Qed.

Lemma evolves_notes base step notes self :
  evolves base self ->
  evolves base (if truthy notes then update_step step (Step.set_notes notes) self
                else self).
Proof.
  intros H. destruct (truthy notes); [|exact H].
  eapply evolves_change; [exact H | apply change_notes].
Qed.

Lemma mark_done_quiet base step score notes self :
  (persist base && auto_save base)%bool = false ->
  evolves base self ->
  quiet (evolves base) (mark_done step score notes self).
Proof.
  intros Hoff H. unfold mark_done. destruct (Dict.mem step (steps self)).
  - quiet_prim. eapply quiet_bind.
    + apply record_event_quiet, evolves_notes.
      eapply evolves_change; [exact H | apply change_complete].
    + intros self' H'. now apply finish_quiet.
  - quiet_prim. now apply quiet_ret.
Qed.

Lemma mark_partial_quiet base step progress notes cp self :
  (persist base && auto_save base)%bool = false ->
  evolves base self ->
  quiet (evolves base) (mark_partial step progress notes cp self).
Proof.
  intros Hoff H. unfold mark_partial.
  destruct (Dict.mem step (steps self)); [|now apply quiet_ret].
  eapply quiet_bind with (Q := evolves base).
  { assert (H1 : evolves base
                   (if truthy notes
                    then update_step step (Step.set_notes notes)
                           (update_step step
                              (Step.set_partial_progress
                                 (py_max 0 (py_min 1 progress))) self)
                    else update_step step
                           (Step.set_partial_progress
                              (py_max 0 (py_min 1 progress))) self))
      by (apply evolves_notes; eapply evolves_change;
          [exact H | apply change_partial]).
    destruct (Dict.mem step (_step_start_times _)) eqn:E; cbn [negb andb].
    - now apply quiet_ret.
    - destruct (Qltb 0 progress); [|now apply quiet_ret].
      quiet_prim. apply quiet_ret.
      eapply evolves_change; [exact H1 | now apply change_start]. }
  clear self H. intros self H.
  eapply quiet_bind with (Q := evolves base).
  { destruct cp as [name|]; [|now apply quiet_ret].
    destruct (truthy name); [|now apply quiet_ret].
    quiet_prim. apply quiet_ret.
    eapply evolves_change; [exact H | apply change_checkpoint]. }
  clear self H. intros self H.
  eapply quiet_bind; [apply record_event_quiet, H|].
  intros self' H'. now apply finish_quiet.
Qed.

Lemma increment_attempts_quiet base step self :
  (persist base && auto_save base)%bool = false ->
  evolves base self ->
  quiet (evolves base) (increment_attempts step self).
Proof.
  intros Hoff H. unfold increment_attempts.
  destruct (Dict.mem step (steps self)); [|now apply quiet_ret].
  eapply quiet_bind.
  - apply record_event_quiet.
    eapply evolves_change; [exact H | apply change_attempts].
  - intros self' H'. now apply (finish_short_quiet base).
Qed.

Lemma reset_step_quiet base step self :
  (persist base && auto_save base)%bool = false ->
  evolves base self ->
  quiet (evolves base) (reset_step step self).
Proof.
  intros Hoff H. unfold reset_step.
  destruct (Dict.mem step (steps self)); [|now apply quiet_ret].
  apply finish_quiet; [assumption | now apply evolves_reset].
Qed.

Lemma reset_each_quiet base names : forall self,
  (persist base && auto_save base)%bool = false ->
  evolves base self ->
  quiet (evolves base) (reset_each names self).
Proof.
  induction names as [|step rest IH]; intros self Hoff H.
  - now apply quiet_ret.
  - cbn [reset_each]. eapply quiet_bind; [apply (reset_step_quiet base); assumption|].
    intros self' H'. now apply IH.
Qed.

Lemma set_step_metadata_quiet base step metadata self :
  (persist base && auto_save base)%bool = false ->
  evolves base self ->
  quiet (evolves base) (set_step_metadata step metadata self).
Proof.
  intros Hoff H. unfold set_step_metadata.
  destruct (Dict.mem step (steps self)); [|now apply quiet_ret].
  assert (H' : evolves base
                 (with_step_metadata
                    (Dict.set step metadata (step_metadata self)) self))
    by (eapply evolves_change; [exact H | apply change_metadata]).
  now apply (finish_short_quiet base _ _ (evolves base) Hoff H').
Qed.

Lemma run_shell_step_quiet base step_name command expected timeout
    working_dir auto_mark show self :
  (persist base && auto_save base)%bool = false ->
  evolves base self ->
  quiet (fun r => evolves base (fst r))
    (run_shell_step step_name command expected timeout working_dir auto_mark
       show self).
Proof.
  intros Hoff H. unfold run_shell_step.
  eapply quiet_bind with (Q := evolves base).
  { destruct (Dict.mem step_name (_step_start_times self)) eqn:E.
    - now apply quiet_ret.
    - quiet_prim. apply quiet_ret.
      eapply evolves_change; [exact H | now apply change_start]. }
  clear self H. intros self H.
  quiet_prim.
  apply quiet_then; [intros w; destruct show; reflexivity | intros _].
  quiet_prim.
  match goal with |- quiet _ (match ?o with _ => _ end) => destruct o end.
  - apply quiet_then; [intros w; destruct show; reflexivity | intros _].
    eapply quiet_bind; [apply record_event_quiet, H|].
    clear self H. intros self H.
    match goal with |- context [if ?c then _ else _] => destruct c end.
    + eapply quiet_bind; [apply (mark_done_quiet base); assumption|].
      intros self' H'.
      apply quiet_then; [intros w; destruct show; reflexivity | intros _].
      now apply quiet_ret.
    + match goal with |- context [if ?c then _ else _] => destruct c end.
      * apply (finish_short_quiet base); [assumption| |].
        -- eapply evolves_change; [exact H | apply change_attempts].
        -- cbn [fst]. eapply evolves_change; [exact H | apply change_attempts].
      * now apply quiet_ret.
  - apply quiet_then; [intros w; destruct show; reflexivity | intros _].
    eapply quiet_bind; [apply record_event_quiet, H|].
    intros self' H'. now apply quiet_ret.
  - apply quiet_then; [intros w; destruct show; reflexivity | intros _].
    eapply quiet_bind; [apply record_event_quiet, H|].
    intros self' H'. now apply quiet_ret.
Qed.

Lemma run_commands_quiet base step_name working_dir stop timeout total
    commands : forall i count all_ok self,
  (persist base && auto_save base)%bool = false ->
  evolves base self ->
  quiet (fun r => evolves base (fst (fst r)))
    (run_commands step_name working_dir stop timeout total i commands count
       all_ok self).
Proof.
  induction commands as [|command rest IH]; intros i count all_ok self Hoff H.
  - now apply quiet_ret.
  - cbn [run_commands]. quiet_prim.
    eapply quiet_bind; [apply (run_shell_step_quiet base); assumption|].
    intros [self' success] H'. cbn [fst] in H'.
    destruct success; [now apply IH|].
    destruct stop; [now apply quiet_ret | now apply IH].
Qed.

Lemma run_shell_sequence_quiet base step_name commands working_dir stop
    timeout self :
  (persist base && auto_save base)%bool = false ->
  evolves base self ->
  quiet (fun r => evolves base (fst r))
    (run_shell_sequence step_name commands working_dir stop timeout self).
Proof.
  intros Hoff H. unfold run_shell_sequence.
  quiet_prim.
  eapply quiet_bind; [apply (run_commands_quiet base); assumption|].
  intros [[self' all_ok] count] H'. cbn [fst] in H'.
  quiet_prim.
  match goal with |- context [if ?c then _ else _] => destruct c end.
  - eapply quiet_bind; [apply (mark_done_quiet base); assumption|].
    intros self2 H2. quiet_prim. now apply quiet_ret.
  - match goal with |- context [if ?c then _ else _] => destruct c end.
    + assert (H2 : evolves base
               (update_step step_name
                  (fun s =>
                     Step.set_partial_progress
                       (inject_Z (Z.of_nat count) / Qlen commands * 100)%Q
                       (Step.set_attempts (Step.attempts s + 1) s)) self')).
      { rewrite (update_step_compose step_name).
        eapply evolves_change; [|apply change_partial].
        eapply evolves_change; [exact H' | apply change_attempts]. }
      now apply (finish_short_quiet base _ _ _ Hoff H2).
    + now apply quiet_ret.
Qed.

Lemma run_call_quiet base c self :
  (persist base && auto_save base)%bool = false ->
  evolves base self ->
  quiet (evolves base) (run_call c self).
Proof.
  intros Hoff H. destruct c; cbn [run_call].
  - now apply mark_done_quiet.
  - now apply mark_partial_quiet.
  - now apply increment_attempts_quiet.
  - now apply reset_step_quiet.
  - now apply reset_each_quiet.
  - now apply set_step_metadata_quiet.
  - eapply quiet_bind; [apply (run_shell_step_quiet base); assumption|].
    intros r Hr. now apply quiet_ret.
  - eapply quiet_bind; [apply (run_shell_sequence_quiet base); assumption|].
    intros r Hr. now apply quiet_ret.
Qed.

Lemma run_calls_quiet base cs : forall self,
  (persist base && auto_save base)%bool = false ->
  evolves base self ->
  quiet (evolves base) (run_calls cs self).
Proof.
  induction cs as [|c rest IH]; intros self Hoff H.
  - now apply quiet_ret.
  - cbn [run_calls]. eapply quiet_bind; [apply (run_call_quiet base); assumption|].
    intros self' H'. now apply IH.
Qed.



(* ------------------------------------------------------------------ *)
(** ** Loading *)

Lemma load_progress_files self w :
  files (snd (_load_progress self w)) = files w.
Proof.
  unfold _load_progress. rewrite run_bind. unfold read_json. cbn [fst snd].
  destruct (Dict.get (persist_file self) (files w)) as [[doc|]|];
    try reflexivity.
  destruct (load_fields doc self) as [self' finished].
  destruct finished; reflexivity.
Qed.

(** X14. [_load_progress] never raises and never writes.  When there is
    no file, or the file is not JSON, or the document has no [steps],
    the tracker stays exactly as it was and one message is printed.
    When the document has a registry but no [start_time], the registry
    is replaced and nothing else is: the load is not rolled back. *)
Theorem load_failure_is_contained self w :
  files (snd (_load_progress self w)) = files w
  /\ (no_registry (Dict.get (persist_file self) (files w)) ->
      fst (_load_progress self w) = self
      /\ screen (snd (_load_progress self w)) = (screen w ++ [load_message])%list)
  /\ (forall o registry,
         Dict.get (persist_file self) (files w) = Some (JsonFile (JObj o)) ->
         field "steps" steps_of_json o = Some registry ->
         Dict.get "start_time" o = None ->
         fst (_load_progress self w) = with_steps registry self
         /\ screen (snd (_load_progress self w))
            = (screen w ++ [load_message])%list).
Proof.
  split; [apply load_progress_files|]. split.
  - intros Hno. unfold _load_progress. rewrite run_bind.
    unfold read_json. cbn [fst snd].
    destruct (Dict.get (persist_file self) (files w)) as [[doc|]|];
      try (split; reflexivity).
    destruct doc; cbn [no_registry] in Hno; try (split; reflexivity).
    unfold load_fields. cbn [as_obj]. unfold field. rewrite Hno.
    cbn [bind_opt]. split; reflexivity.
  - intros o registry Hfile Hsteps Hstart. unfold _load_progress.
    rewrite run_bind. unfold read_json. cbn [fst snd]. rewrite Hfile.
    unfold load_fields. cbn [as_obj]. rewrite Hsteps.
    assert (E : field "start_time"
                  (fun j => let? s := as_str j in fromisoformat s) o = None)
      by (unfold field; now rewrite Hstart).
    rewrite E. split; reflexivity.
Qed.

Lemma load_failure_is_contained_witness :
  no_registry (Dict.get (persist_file Sample.tracker) (files Sample.world1))
  /\ fst (_load_progress Sample.tracker Sample.world1) = Sample.tracker.
Proof.
  assert (H : no_registry
                (Dict.get (persist_file Sample.tracker) (files Sample.world1)))
    by exact I.
  split; [exact H|].
  exact (proj1 (proj1 (proj2 (load_failure_is_contained Sample.tracker
                                Sample.world1)) H)).
Defined.

Lemma load_fields_complete a b last_saved :
  valid_datetime (start_time a) = true ->
  Forall (fun kv => valid_datetime (snd kv) = true) (_step_start_times a) ->
  load_fields (saved_data a last_saved) b
  = (with_step_start_times (_step_start_times a)
       (with_analytics_data (_analytics_data a)
          (with_step_metadata (step_metadata a)
             (with_student_id (_student_id a)
                (with_previous_session_id (Some (_session_id a))
                   (with_is_resumed true
                      (with_start_time (start_time a)
                         (with_steps (steps a) b))))))), true).
Proof.
  intros Hv Hst. unfold load_fields, saved_data.
  cbn -[steps_of_json steps_to_json fromisoformat isoformat
        times_of_json times_to_json].
  rewrite steps_roundtrip. cbn [bind_opt].
  rewrite fromisoformat_isoformat by assumption.
  rewrite times_roundtrip by assumption. reflexivity.
Qed.

(** X15. When the start time and the recorded step start times of a
    saved session are valid dates, a tracker bound to the same file
    loads the whole document, silently: besides the registry it takes
    over the step metadata, the analytics log and the step start times
    (read back from their ISO text) as they were saved, it is flagged
    as resumed, nothing is printed and the file is left as it is. *)
Theorem save_then_load_is_complete a b w :
  persist_file b = persist_file a ->
  valid_datetime (start_time a) = true ->
  Forall (fun kv => valid_datetime (snd kv) = true) (_step_start_times a) ->
  let saved := snd (_save_progress a w) in
  let r := fst (_load_progress b saved) in
  step_metadata r = step_metadata a
  /\ _analytics_data r = _analytics_data a
  /\ _step_start_times r = _step_start_times a
  /\ _is_resumed r = true
  /\ snd (_load_progress b saved) = saved.
Proof.
  intros Hpf Hv Hst. cbn zeta.
  set (saved := snd (_save_progress a w)).
  assert (Hfile : Dict.get (persist_file b) (files saved)
                  = Some (JsonFile (saved_data a (clock w (ticks w))))).
  { rewrite Hpf. unfold saved. rewrite save_files. apply get_set_same. }
  assert (E : _load_progress b saved
              = (fst (load_fields (saved_data a (clock w (ticks w))) b), saved)).
  { unfold _load_progress. rewrite run_bind. unfold read_json.
    cbn [fst snd]. rewrite Hfile.
    now rewrite (load_fields_complete a b _ Hv Hst). }
  rewrite E, (load_fields_complete a b _ Hv Hst). cbn. repeat split.
Qed.

Lemma save_then_load_is_complete_witness :
  let started :=
    fst (mark_partial "Build" (1 # 2) EmptyString None Sample.done_tracker
           Sample.world2) in
  persist_file Sample.other_tracker = persist_file started
  /\ valid_datetime (start_time started) = true
  /\ Forall (fun kv => valid_datetime (snd kv) = true)
       (_step_start_times started)
  /\ _step_start_times
       (fst (_load_progress Sample.other_tracker
               (snd (_save_progress started Sample.world2))))
     = _step_start_times started.
Proof.
  cbn zeta.
  assert (Hst : Forall (fun kv => valid_datetime (snd kv) = true)
                  (_step_start_times
                     (fst (mark_partial "Build" (1 # 2) EmptyString None
                             Sample.done_tracker Sample.world2))))
    by (repeat constructor).
  split; [reflexivity|]. split; [reflexivity|]. split; [exact Hst|].
  destruct (save_then_load_is_complete
              (fst (mark_partial "Build" (1 # 2) EmptyString None
                      Sample.done_tracker Sample.world2))
              Sample.other_tracker Sample.world2 eq_refl eq_refl Hst)
    as (_ & _ & H & _).
  exact H.
Defined.

(* ------------------------------------------------------------------ *)
(** ** Construction and resuming *)

Lemma load_fields_keeps data b :
  let r := fst (load_fields data b) in
  lab_name r = lab_name b /\ persist r = persist b
  /\ auto_save r = auto_save b /\ persist_file r = persist_file b
  /\ _session_id r = _session_id b.
Proof.
  cbn zeta. unfold load_fields.
  repeat match goal with
         | |- context [match ?x with _ => _ end] => destruct x
         end; unfold assign;
  repeat match goal with
         | |- context [match ?x with _ => _ end] => destruct x
         end; cbn; repeat split.
Qed.

Lemma load_progress_keeps b w :
  let r := _load_progress b w in
  lab_name (fst r) = lab_name b /\ persist (fst r) = persist b
  /\ auto_save (fst r) = auto_save b /\ persist_file (fst r) = persist_file b
  /\ _session_id (fst r) = _session_id b
  /\ ticks (snd r) = ticks w /\ clock (snd r) = clock w
  /\ files (snd r) = files w.
Proof.
  cbn zeta. unfold _load_progress. rewrite run_bind. unfold read_json.
  cbn [fst snd].
  destruct (Dict.get (persist_file b) (files w)) as [[doc|]|];
    [|cbn; repeat split; reflexivity..].
  pose proof (load_fields_keeps doc b) as H. cbn zeta in H.
  destruct (load_fields doc b) as [self' finished].
  cbn [fst] in H. destruct H as (H1 & H2 & H3 & H4 & H5).
  destruct finished; cbn; repeat split; assumption.
Qed.

Lemma init_settings steps0 lab persist0 pf auto_save0 md w :
  let r := __init__ steps0 lab persist0 pf auto_save0 md w in
  _is_resumed (fst r) = false
  /\ start_time (fst r) = clock w (S (ticks w))
  /\ _session_id (fst r) = isoformat (clock w (ticks w))
  /\ lab_name (fst r) = lab
  /\ persist (fst r) = persist0
  /\ auto_save (fst r) = auto_save0
  /\ persist_file (fst r) = resolved_file lab pf
  /\ files (snd r) = files w.
Proof.
  cbn zeta. unfold __init__.
  fold (resolved_file lab pf).
  repeat (rewrite run_bind; cbn beta).
  cbn [now uuid4 fst snd files ticks clock drawn uuids].
  match goal with
  | |- context [if ?c then _load_progress ?b else ret ?b] =>
      set (found := c); set (self0 := b)
  end.
  match goal with
  | |- context [(if found then _load_progress self0 else ret self0) ?w0] =>
      set (w1 := w0)
  end.
  assert (H : let r := (if found then _load_progress self0 else ret self0) w1 in
              lab_name (fst r) = lab /\ persist (fst r) = persist0
              /\ auto_save (fst r) = auto_save0
              /\ persist_file (fst r) = resolved_file lab pf
              /\ _session_id (fst r) = isoformat (clock w (ticks w))
              /\ ticks (snd r) = S (ticks w) /\ clock (snd r) = clock w
              /\ files (snd r) = files w).
  { cbn zeta. destruct found.
    - destruct (load_progress_keeps self0 w1) as (H1 & H2 & H3 & H4 & H5 & H6 & H7 & H8).
      rewrite H1, H2, H3, H4, H5, H6, H7, H8.
      subst self0 w1. destruct persist0; cbn; repeat split.
    - subst self0 w1. destruct persist0; cbn; repeat split. }
  cbn zeta in H.
  destruct ((if found then _load_progress self0 else ret self0) w1) as [s1 w2].
  cbn [fst snd] in *. destruct H as (H1 & H2 & H3 & H4 & H5 & H6 & H7 & H8).
  rewrite H6, H7. repeat split; assumption.
Qed.


Lemma resume_at_settings p w r :
  fst (resume_at p w) = Ok r ->
  _is_resumed r = false /\ persist r = true /\ auto_save r = true
  /\ persist_file r = resolved_file (lab_name r) (Some p)
  /\ start_time r = clock w (S (ticks w))
  /\ Dict.mem p (files w) = true
  /\ files (snd (resume_at p w)) = files w.
Proof.
  unfold resume_at. rewrite run_bind. unfold path_exists. cbn [fst snd].
  destruct (Dict.mem p (files w)) eqn:Hm; cbn [negb]; [|discriminate].
  rewrite run_bind. unfold read_json. cbn [fst snd].
  destruct (Dict.get p (files w)) as [[doc|]|]; try discriminate.
  destruct (as_obj doc) as [o|]; [|discriminate].
  destruct (Dict.get "steps" o) as [jsteps|]; [|discriminate].
  destruct (Dict.get "lab_name" o) as [jlab|]; [|discriminate].
  destruct (steps_of_json jsteps) as [registry|]; [|discriminate].
  destruct (as_str jlab) as [lab|]; [|discriminate].
  repeat (rewrite run_bind; cbn beta). cbn [ret fst snd].
  destruct (init_settings (StepDict registry) lab true (Some p) true None w)
    as (H1 & H2 & H3 & H4 & H5 & H6 & H7 & H8).
  intros [= <-]. rewrite H4. repeat split; assumption.
Qed.

Lemma resume_cases lab pf w :
  (exists e, resume lab pf w = (Raise e, w))
  \/ (exists p w0,
         truthy p = true /\ files w0 = files w /\ ticks w0 = ticks w
         /\ clock w0 = clock w /\ resume lab pf w = resume_at p w0).
Proof.
  assert (Hd : forall lab0, truthy (default_persist_file lab0) = true)
    by reflexivity.
  assert (Hglob : (exists e,
                      (progress_files <- glob_dot_json ;;
                       match progress_files with
                       | first :: _ =>
                           display (Printed ("Found progress file: " ++ first)) ;;;
                           resume_at first
                       | [] =>
                           ret (Raise (ValueError
                             "No progress file found. Provide lab_name or persist_file."))
                       end) w = (Raise e, w))
                  \/ (exists p w0,
                         truthy p = true /\ files w0 = files w
                         /\ ticks w0 = ticks w /\ clock w0 = clock w
                         /\ (progress_files <- glob_dot_json ;;
                       match progress_files with
                       | first :: _ =>
                           display (Printed ("Found progress file: " ++ first)) ;;;
                           resume_at first
                       | [] =>
                           ret (Raise (ValueError
                             "No progress file found. Provide lab_name or persist_file."))
                       end) w = resume_at p w0)).
  { unfold bind at 1 3. unfold glob_dot_json.
    destruct (filter _ _) as [|first rest] eqn:Hg.
    - left. eexists. reflexivity.
    - right. assert (Hin : In first (first :: rest)) by now left.
      rewrite <- Hg in Hin. apply filter_In in Hin. destruct Hin as [_ Hfirst].
      exists first,
        (snd (display (Printed ("Found progress file: " ++ first)) w)).
      split; [destruct first; [discriminate|reflexivity]|].
      repeat split; reflexivity. }
  unfold resume.
  destruct pf as [p|]; [destruct (truthy p) eqn:Ht|]; cbn [truthy_opt];
    try rewrite Ht; cbn [negb andb];
    (destruct lab as [l|]; [destruct (truthy l) eqn:Hl|]; cbn [truthy_opt];
     try rewrite Hl; cbn [negb]); try exact Hglob;
    try (left; eexists; reflexivity);
    right; do 2 eexists; repeat split; solve [eassumption | apply Hd].
Qed.

(** X17. Whenever [resume] hands back a tracker, however the file was
    named or found, that tracker persists with auto-save on, is bound
    to a file that exists, is not flagged as resumed ([__init__] clears
    the flag that loading set) and has the time of resuming as its
    start time; resuming writes no file. *)
Theorem resumed_tracker_settings lab pf w r :
  fst (resume lab pf w) = Ok r ->
  _is_resumed r = false
  /\ persist r = true
  /\ auto_save r = true
  /\ Dict.mem (persist_file r) (files w) = true
  /\ start_time r = clock w (S (ticks w))
  /\ files (snd (resume lab pf w)) = files w.
Proof.
  destruct (resume_cases lab pf w) as [[e E] | (p & w0 & Ht & Hf & Hk & Hc & E)];
    rewrite E; cbn [fst snd]; [discriminate|].
  intros H.
  destruct (resume_at_settings p w0 r H) as (H1 & H2 & H3 & H4 & H5 & H6 & H7).
  cbn [resolved_file] in H4. rewrite Ht in H4.
  rewrite H4, <- Hf, <- Hk, <- Hc. repeat split; congruence.
Qed.

Lemma resumed_tracker_settings_witness :
  exists r,
    fst (resume None (Some (persist_file Sample.done_tracker))
           (snd (_save_progress Sample.done_tracker Sample.world2))) = Ok r
    /\ _is_resumed r = false.
Proof.
  eexists. split; [vm_compute; reflexivity|].
  exact (proj1 (resumed_tracker_settings None
                  (Some (persist_file Sample.done_tracker))
                  (snd (_save_progress Sample.done_tracker Sample.world2))
                  _ eq_refl)).
Defined.

(* ------------------------------------------------------------------ *)
(** ** Finding the default file *)

Lemma contains_slash_cons c s :
  contains "/" (String c s) = (Ascii.eqb c "/" || contains "/" s)%bool.
Proof.
  cbn [contains String.prefix].
  destruct (Ascii.ascii_dec "/" c) as [<-|Hne].
  - now destruct s.
  - assert (E : Ascii.eqb c "/" = false).
    { apply Ascii.eqb_neq. congruence. }
    now rewrite E.
Qed.

Lemma contains_slash_nil : contains "/" EmptyString = false.
Proof. reflexivity. Qed.

Lemma contains_slash_app a b :
  contains "/" (a ++ b) = (contains "/" a || contains "/" b)%bool.
Proof.
  induction a as [|c a IH].
  - reflexivity.
  - change (String c a ++ b) with (String c (a ++ b)).
    rewrite !contains_slash_cons, IH. now rewrite orb_assoc.
Qed.

Lemma lower_ascii_slash c :
  Ascii.eqb (lower_ascii c) "/" = Ascii.eqb c "/".
Proof. destruct c as [[] [] [] [] [] [] [] []]; reflexivity. Qed.

Lemma contains_slash_lower s : contains "/" (lower s) = contains "/" s.
Proof.
  induction s as [|c s IH]; [reflexivity|].
  cbn [lower]. now rewrite !contains_slash_cons, lower_ascii_slash, IH.
Qed.

Lemma contains_slash_replace_space s :
  contains "/" (replace_space s) = contains "/" s.
Proof.
  induction s as [|c s IH]; [reflexivity|].
  cbn [replace_space]. rewrite !contains_slash_cons, IH. f_equal.
  destruct (Ascii.eqb c " ") eqn:E; [|reflexivity].
  apply Ascii.eqb_eq in E. now subst.
Qed.

Lemma endswith_app a s : endswith s (a ++ s) = true.
Proof.
  induction a as [|c a IH].
  - destruct s; cbn [append endswith]; now rewrite String.eqb_refl.
  - change (String c a ++ s) with (String c (a ++ s)). cbn [endswith].
    rewrite IH. now destruct (String.eqb s (String c (a ++ s))).
Qed.

Lemma string_app_assoc (a b c : string) : (a ++ b) ++ c = a ++ (b ++ c).
Proof.
  induction a as [|x a IH]; [reflexivity|].
  cbn [append]. now rewrite IH.
Qed.

(** The test of [glob('.*.json')] on one name of the directory. *)
Lemma default_file_matches lab :
  contains "/" lab = false ->
  match default_persist_file lab with
  | String "." rest => (endswith ".json" rest && negb (contains "/" (default_persist_file lab)))%bool
  | _ => false
  end = true.
Proof.
  intros Hl. unfold default_persist_file.
  change ("." ++ replace_space (lower lab) ++ "_progress.json")
    with (String "." (replace_space (lower lab) ++ "_progress" ++ ".json")).
  cbv iota beta.
  rewrite <- string_app_assoc, endswith_app. cbn [andb].
  rewrite contains_slash_cons, !contains_slash_app,
    contains_slash_replace_space, contains_slash_lower, Hl.
  reflexivity.
Qed.

Lemma keys_set_new {V} (k : string) (v : V) (d : Dict.t V) :
  Dict.mem k d = false -> Dict.keys (Dict.set k v d) = (Dict.keys d ++ [k])%list.
Proof.
  unfold Dict.mem, Dict.keys.
  induction d as [|[k' v'] d IH]; cbn [Dict.get Dict.set map fst app].
  - reflexivity.
  - destruct (String.eqb k k') eqn:E; [discriminate|].
    cbn [map fst]. intros H. now rewrite IH.
Qed.

(** X18. A session saved under the default file name of a lab whose
    name has no slash is found by the search of [resume()]: the file is
    among the names that [glob('.*.json')] yields.  When no other file
    of the directory matched before, it is the only match, and [resume]
    without arguments hands back a tracker with the saved registry and
    the saved lab name. *)
Theorem resume_finds_default_file a w lab :
  persist_file a = default_persist_file lab ->
  contains "/" lab = false ->
  valid_datetime (start_time a) = true ->
  let saved := snd (_save_progress a w) in
  In (persist_file a) (fst (glob_dot_json saved))
  /\ (fst (glob_dot_json w) = [] ->
      fst (glob_dot_json saved) = [persist_file a]
      /\ exists r,
           fst (resume None None saved) = Ok r
           /\ steps r = steps a /\ lab_name r = lab_name a).
Proof.
  intros Hpf Hl Hv. cbn zeta.
  set (saved := snd (_save_progress a w)).
  pose proof (default_file_matches lab Hl) as Hm. rewrite <- Hpf in Hm.
  assert (Hfile : Dict.get (persist_file a) (files saved)
                  = Some (JsonFile (saved_data a (clock w (ticks w))))).
  { unfold saved. rewrite save_files. apply get_set_same. }
  split.
  - unfold glob_dot_json. cbn [fst]. apply filter_In. split; [|exact Hm].
    unfold saved. rewrite save_files. apply in_keys_set. now left.
  - intros Hnone.
    assert (Hg : fst (glob_dot_json saved) = [persist_file a]).
    { unfold glob_dot_json in *. cbn [fst] in *. unfold saved.
      rewrite save_files.
      destruct (Dict.mem (persist_file a) (files w)) eqn:Hmem.
      - exfalso. apply mem_get in Hmem. destruct Hmem as [v Hget].
        assert (Hin : In (persist_file a) (Dict.keys (files w))).
        { apply get_in in Hget. unfold Dict.keys.
          change (persist_file a) with (fst (persist_file a, v)).
          now apply in_map. }
        assert (Hin' : In (persist_file a) []).
        { rewrite <- Hnone. apply filter_In. split; assumption. }
        destruct Hin'.
      - rewrite keys_set_new by assumption.
        rewrite filter_app, Hnone. cbn [filter app]. now rewrite Hm. }
    split; [exact Hg|].
    assert (Hne : persist_file a <> "")
      by (rewrite Hpf; discriminate).
    eexists. split.
    + unfold resume. cbn [truthy_opt negb andb].
      rewrite run_bind. cbn beta. rewrite Hg.
      rewrite run_bind. cbn beta.
      apply (resume_at_saved_file a (clock w (ticks w))).
      exact Hfile.
    + match goal with
      | |- context [__init__ _ _ _ _ _ _ ?w0] =>
          destruct (init_over_saved_file a (clock w (ticks w)) (lab_name a)
                      (steps a) w0 Hfile Hne Hv) as (H1 & _ & _ & H4 & _)
      end.
      split; assumption.
Qed.

Lemma resume_finds_default_file_witness :
  persist_file Sample.done_tracker = default_persist_file "Demo Lab"
  /\ In (persist_file Sample.done_tracker)
       (fst (glob_dot_json (snd (_save_progress Sample.done_tracker Sample.world2)))).
Proof.
  split; [reflexivity|].
  exact (proj1 (resume_finds_default_file Sample.done_tracker Sample.world2
                  "Demo Lab" eq_refl eq_refl eq_refl)).
Defined.

(* ------------------------------------------------------------------ *)
(** ** Shell steps *)

Lemma shell_start self step w :
  let r := (if Dict.mem step (_step_start_times self) then ret self
            else started <- now ;;
                 ret (with_step_start_times
                        (Dict.set step started (_step_start_times self))
                        self)) w in
  steps (fst r) = steps self
  /\ spawned (snd r) = spawned w /\ shell (snd r) = shell w.
Proof.
  cbn zeta. destruct (Dict.mem step (_step_start_times self));
    cbn; repeat split.
Qed.

Lemma display_if_shell (show : bool) x w :
  let r := (if show then display x else ret tt) w in
  spawned (snd r) = spawned w /\ shell (snd r) = shell w.
Proof. destruct show; cbn; split; reflexivity. Qed.

Lemma update_step_get_some step f self s :
  Dict.get step (steps self) = Some s ->
  Dict.get step (steps (update_step step f self)) = Some (f s).
Proof.
  intros H. rewrite update_step_lookup, String.eqb_refl, H. reflexivity.
Qed.

Lemma update_step_same_steps step f a b :
  steps a = steps b ->
  steps (update_step step f a) = steps (update_step step f b).
Proof.
  intros E. unfold update_step. rewrite E.
  destruct (Dict.get step (steps b)); [|exact E].
  cbn [steps with_steps]. reflexivity.
Qed.

Lemma run_shell_step_registry step command expected timeout wd auto_mark
    show self w :
  let outcome := shell w (spawned w) command in
  let r := run_shell_step step command expected timeout wd auto_mark show
             self w in
  snd (fst r) = shell_success expected outcome
  /\ exists stamp,
       steps (fst (fst r))
       = if ran outcome then
           if shell_success expected outcome then
             if auto_mark then
               steps (update_step step
                        (fun s =>
                           Step.set_notes "Shell command executed successfully"
                             (Step.complete stamp (Some 100%Q) s)) self)
             else steps self
           else
             steps (update_step step
                      (fun s => Step.set_attempts (Step.attempts s + 1) s) self)
         else steps self.
Proof.
  cbn zeta. unfold run_shell_step.
  rewrite run_bind. cbn beta.
  pose proof (shell_start self step w) as H0. cbn zeta in H0.
  match type of H0 with
  | steps (fst ?x) = _ /\ _ => destruct x as [self1 w1]
  end.
  cbn [fst snd] in H0. destruct H0 as (Hs1 & Hsp1 & Hsh1).
  rewrite run_bind. cbn beta. cbn [getcwd fst snd].
  rewrite run_bind. cbn beta.
  match goal with
  | |- context [(if show then display ?x else ret tt) w1] =>
      pose proof (display_if_shell show x w1) as H1; cbn zeta in H1;
      destruct ((if show then display x else ret tt) w1) as [u w2]
  end.
  cbn [fst snd] in H1. destruct H1 as (Hsp2 & Hsh2).
  rewrite run_bind. cbn beta. cbn [subprocess_run fst snd].
  rewrite Hsp2, Hsh2, Hsp1, Hsh1.
  destruct (shell w (spawned w) command)
    as [returncode stdout stderr execution_time | | msg];
    cbn [ran shell_success].
  - set (success := if returncode =? 0 then _ else false).
    assert (Es : success
                 = ((returncode =? 0)
                    && match expected with
                       | Some expected0 =>
                           negb (truthy expected0) || contains expected0 stdout
                       | None => true
                       end)%bool).
    { unfold success. destruct (returncode =? 0); [|reflexivity].
      destruct expected as [e|]; [|reflexivity]. now destruct (truthy e). }
    rewrite <- Es. clearbody success. clear Es.
    repeat (rewrite run_bind; cbn beta).
    rewrite record_event_steps.
    match goal with
    | |- context [_record_analytics_event ?a ?b ?c self1 ?w0] =>
        set (logged := _record_analytics_event a b c self1 w0)
    end.
    assert (Hl : steps (fst logged) = steps self) by (now rewrite <- Hs1).
    destruct success; cbn [andb negb].
    + destruct auto_mark; cbn [andb].
      * destruct (Dict.mem step (steps self1)) eqn:Hm.
        -- repeat (rewrite run_bind; cbn beta). cbn [ret fst snd].
           split; [reflexivity|]. eexists.
           rewrite mark_done_registry. cbn [truthy]. cbv zeta.
           apply update_step_same_steps, Hl.
        -- cbn [ret fst snd]. split; [reflexivity|]. exists EmptyString.
           rewrite Hl. unfold update_step. rewrite Hs1 in Hm.
           rewrite (mem_get_none _ _ Hm). reflexivity.
      * cbn [ret fst snd]. split; [reflexivity|]. exists EmptyString.
        exact Hl.
    + destruct (Dict.mem step (steps self1)) eqn:Hm.
      * repeat (rewrite run_bind; cbn beta). cbn [ret fst snd].
        split; [reflexivity|]. exists EmptyString.
        apply update_step_same_steps, Hl.
      * cbn [ret fst snd]. split; [reflexivity|]. exists EmptyString.
        rewrite Hl. unfold update_step. rewrite Hs1 in Hm.
        rewrite (mem_get_none _ _ Hm). reflexivity.
  - repeat (rewrite run_bind; cbn beta). cbn [ret fst snd].
    split; [reflexivity|]. exists EmptyString.
    now rewrite record_event_steps.
  - repeat (rewrite run_bind; cbn beta). cbn [ret fst snd].
    split; [reflexivity|]. exists EmptyString.
    now rewrite record_event_steps.
Qed.

Lemma spawns_ret {A} (a : A) : spawns 0 (ret a).
Proof. intros w. split; reflexivity. Qed.

Lemma spawns_bind {A B} n (m : IO A) (k : A -> IO B) :
  spawns 0 m -> (forall a, spawns n (k a)) -> spawns n (bind m k).
Proof.
  intros Hm Hk w. rewrite run_bind. destruct (Hm w) as [H1 H2].
  destruct (Hk (fst (m w)) (snd (m w))) as [H3 H4].
  rewrite H3, H4, H1, H2. split; [reflexivity | lia].
Qed.

Lemma spawns_run {B} command (k : proc_outcome -> IO B) :
  (forall o, spawns 0 (k o)) -> spawns 1 (bind (subprocess_run command) k).
Proof.
  intros Hk w. rewrite run_bind.
  destruct (Hk (fst (subprocess_run command w)) (snd (subprocess_run command w)))
    as [H3 H4].
  rewrite H3, H4. split; reflexivity.
Qed.

Lemma display_spawns x : spawns 0 (display x).
Proof. intros w. split; reflexivity. Qed.

Lemma display_if_spawns (show : bool) x :
  spawns 0 (if show then display x else ret tt).
Proof. destruct show; [apply display_spawns | apply spawns_ret]. Qed.

Lemma now_spawns : spawns 0 now.
Proof. intros w. split; reflexivity. Qed.

Lemma record_event_spawns et sn kw self :
  spawns 0 (_record_analytics_event et sn kw self).
Proof. intros w. split; reflexivity. Qed.

Lemma autosave_spawns self : spawns 0 (autosave self).
Proof.
  intros w. unfold autosave.
  destruct (persist self && auto_save self)%bool; split; reflexivity.
Qed.

Lemma display_progress_spawns self : spawns 0 (display_progress self).
Proof. intros w. split; reflexivity. Qed.

Lemma mark_done_spawns step score notes self :
  spawns 0 (mark_done step score notes self).
Proof.
  unfold mark_done. destruct (Dict.mem step (steps self)).
  - apply spawns_bind; [apply now_spawns|]. intros t0.
    apply spawns_bind; [apply record_event_spawns|]. intros self'.
    apply spawns_bind; [apply autosave_spawns|]. intros _.
    apply spawns_bind; [apply display_progress_spawns|]. intros _.
    apply spawns_ret.
  - apply spawns_bind; [apply display_spawns|]. intros _. apply spawns_ret.
Qed.

Lemma run_shell_step_spawns step command expected timeout wd auto_mark show
    self :
  spawns 1 (run_shell_step step command expected timeout wd auto_mark show self).
Proof.
  unfold run_shell_step.
  apply spawns_bind.
  { destruct (Dict.mem step (_step_start_times self)); [apply spawns_ret|].
    apply spawns_bind; [apply now_spawns|]. intros ?. apply spawns_ret. }
  intros self1.
  apply spawns_bind; [intros w; split; reflexivity|]. intros here.
  apply spawns_bind; [apply display_if_spawns|]. intros _.
  apply spawns_run. intros [returncode stdout stderr execution_time | | msg].
  - apply spawns_bind; [apply display_if_spawns|]. intros _.
    apply spawns_bind; [apply record_event_spawns|]. intros self2.
    match goal with |- context [if ?c then _ else _] => destruct c end.
    + apply spawns_bind; [apply mark_done_spawns|]. intros self3.
      apply spawns_bind; [|intros _; apply spawns_ret].
      destruct show; [apply display_progress_spawns | apply spawns_ret].
    + match goal with |- context [if ?c then _ else _] => destruct c end.
      * apply spawns_bind; [apply autosave_spawns|]. intros _. apply spawns_ret.
      * apply spawns_ret.
  - apply spawns_bind; [apply display_if_spawns|]. intros _.
    apply spawns_bind; [apply record_event_spawns|]. intros self2.
    apply spawns_ret.
  - apply spawns_bind; [apply display_if_spawns|]. intros _.
    apply spawns_bind; [apply record_event_spawns|]. intros self2.
    apply spawns_ret.
Qed.

(** X19. [run_shell_step] starts exactly one process and answers with
    the success test on what that process gave (exit code 0 and the
    expected text, when one is asked for, in the output).  No step other
    than the named one changes.  The named step, when it is in the
    registry, is completed with score 100 after a success under
    [auto_mark_complete], is left as it is after a success without it,
    gets one more attempt (and nothing else) when the command ran and
    failed, and is left as it is when the command timed out or could
    not be started. *)
Theorem run_shell_step_outcome step command expected timeout wd auto_mark
    show self w :
  let outcome := shell w (spawned w) command in
  let r := run_shell_step step command expected timeout wd auto_mark show
             self w in
  snd (fst r) = shell_success expected outcome
  /\ spawned (snd r) = S (spawned w)
  /\ frame step self (fst (fst r))
  /\ forall s,
       Dict.get step (steps self) = Some s ->
       exists s',
         Dict.get step (steps (fst (fst r))) = Some s'
         /\ if shell_success expected outcome then
              if auto_mark then
                Step.completed s' = true
                /\ Step.score s' = Some 100%Q
                /\ Step.attempts s' = Step.attempts s
                /\ Step.partial_progress s' = Step.partial_progress s
                /\ Step.checkpoints s' = Step.checkpoints s
              else s' = s
            else if ran outcome then
              s' = Step.set_attempts (Step.attempts s + 1) s
            else s' = s.
Proof.
  cbn zeta.
  destruct (run_shell_step_registry step command expected timeout wd
              auto_mark show self w) as (Hflag & stamp & Hsteps).
  cbn zeta in Hflag, Hsteps.
  destruct (run_shell_step_spawns step command expected timeout wd auto_mark
              show self w) as [_ Hsp].
  split; [exact Hflag|]. split; [exact Hsp|].
  assert (Hok : shell_success expected (shell w (spawned w) command) = true ->
                ran (shell w (spawned w) command) = true).
  { destruct (shell w (spawned w) command); [reflexivity|discriminate..]. }
  split.
  - intros other Hne. rewrite Hsteps.
    destruct (ran _); [|reflexivity].
    destruct (shell_success _ _); [destruct auto_mark|];
      try reflexivity; rewrite update_step_lookup;
      apply String.eqb_neq in Hne; now rewrite Hne.
  - intros s Hs. rewrite Hsteps.
    destruct (shell_success expected (shell w (spawned w) command)) eqn:Hsucc.
    + rewrite (Hok eq_refl). destruct auto_mark.
      * eexists. split; [apply update_step_get_some, Hs|].
        cbn. repeat split.
      * eauto.
    + destruct (ran _).
      * eexists. split; [apply update_step_get_some, Hs | reflexivity].
      * eauto.
Qed.

Lemma run_shell_step_outcome_witness :
  Dict.get "Build" (steps Sample.done_tracker)
  = Some Step.fresh
  /\ exists s',
       Dict.get "Build"
         (steps (fst (fst (run_shell_step "Build" "false" None 30 None true
                             true Sample.done_tracker Sample.world2))))
       = Some s'
       /\ s' = Step.set_attempts (Step.attempts Step.fresh + 1) Step.fresh.
Proof.
  split; [reflexivity|].
  exact (proj2 (proj2 (proj2 (run_shell_step_outcome "Build" "false" None 30
                                None true true Sample.done_tracker
                                Sample.world2)))
           Step.fresh eq_refl).
Defined.

(* ------------------------------------------------------------------ *)
(** ** Sequences of shell commands *)

Lemma run_commands_outcome step wd stop timeout total commands :
  forall i count all_ok self w,
    let r := run_commands step wd stop timeout total i commands count all_ok
               self w in
    shell (snd r) = shell w
    /\ spawned (snd r)
       = (launched stop (shell w) (spawned w) commands + spawned w)%nat
    /\ snd (fst (fst r))
       = (all_ok && all_succeed (shell w) (spawned w) commands)%bool
    /\ (all_succeed (shell w) (spawned w) commands = true ->
        steps (fst (fst (fst r))) = steps self).
Proof.
  induction commands as [|command rest IH]; intros i count all_ok self w;
    cbn zeta.
  - cbn [run_commands ret fst snd launched all_succeed].
    rewrite andb_true_r. auto.
  - cbn [run_commands launched all_succeed].
    rewrite run_bind. cbn beta. cbn [display fst snd].
    rewrite run_bind. cbn beta.
    match goal with
    | |- context [run_shell_step ?n command None timeout wd false true self ?w0] =>
        set (w1 := w0); set (name := n)
    end.
    destruct (run_shell_step_registry name command None timeout wd false true
                self w1) as (Hflag & stamp & Hsteps).
    destruct (run_shell_step_spawns name command None timeout wd false true
                self w1) as [Hsh Hsp].
    cbn zeta in Hflag, Hsteps.
    change (shell w1) with (shell w) in *.
    change (spawned w1) with (spawned w) in *.
    destruct (run_shell_step name command None timeout wd false true self w1)
      as [[self' success] w2].
    cbn [fst snd] in Hflag, Hsteps, Hsh, Hsp. subst success.
    destruct (shell_success None (shell w (spawned w) command)) eqn:Hok;
      cbn [fst snd]; cbv beta iota.
    + specialize (IH (S i) (S count) all_ok self' w2). cbn zeta in IH.
      rewrite Hsh, Hsp in IH. cbn [Nat.add] in IH.
      destruct IH as (I1 & I2 & I3 & I4).
      rewrite I1, I2, I3. cbn [andb]. repeat split; try lia.
      intros Hall. rewrite (I4 Hall), Hsteps.
      now destruct (ran _).
    + cbn [andb]. rewrite andb_false_r. destruct stop.
      * cbn [ret fst snd]. rewrite Hsh, Hsp. repeat split; try discriminate.
      * specialize (IH (S i) count false self' w2). cbn zeta in IH.
        rewrite Hsh, Hsp in IH. cbn [Nat.add] in IH.
        destruct IH as (I1 & I2 & I3 & _).
        rewrite I1, I2, I3. repeat split; try lia; try discriminate.
Qed.

(** X20. [run_shell_sequence] starts the commands in order and answers
    whether every one of them succeeded, whatever [stop_on_error]; with
    [stop_on_error] no command after the first failure is started,
    without it all are.  When every command succeeds (so also for an
    empty list, where nothing is run) the registry is the one before the
    call with the named step completed with score 100 and the note of
    the sequence. *)
Theorem run_shell_sequence_outcome step commands wd stop timeout self w :
  let r := run_shell_sequence step commands wd stop timeout self w in
  snd (fst r) = all_succeed (shell w) (spawned w) commands
  /\ spawned (snd r)
     = (spawned w + launched stop (shell w) (spawned w) commands)%nat
  /\ (stop = false -> spawned (snd r) = (spawned w + length commands)%nat)
  /\ (all_succeed (shell w) (spawned w) commands = true ->
      spawned (snd r) = (spawned w + length commands)%nat
      /\ exists stamp,
           steps (fst (fst r))
           = steps (update_step step
                      (fun s =>
                         Step.set_notes
                           ("All " ++ str_nat (length commands)
                            ++ " shell commands executed successfully")
                           (Step.complete stamp (Some 100%Q) s)) self)).
Proof.
  cbn zeta.
  assert (Hgo : forall sh n,
             launched false sh n commands = length commands).
  { intros sh. induction commands as [|c rest IH]; intros n; [reflexivity|].
    cbn [launched length]. rewrite IH. now destruct (shell_success _ _). }
  assert (Hall : forall sh n,
             all_succeed sh n commands = true ->
             launched stop sh n commands = length commands).
  { clear Hgo. intros sh. induction commands as [|c rest IH]; intros n; [reflexivity|].
    cbn [all_succeed launched length]. intros H.
    apply andb_true_iff in H. destruct H as [H1 H2]. rewrite H1.
    f_equal. now apply IH. }
  unfold run_shell_sequence.
  rewrite run_bind. cbn beta. cbn [display fst snd].
  rewrite run_bind. cbn beta.
  match goal with
  | |- context [run_commands step wd stop timeout ?t 1 commands 0 true self ?w0] =>
      set (w1 := w0)
  end.
  pose proof (run_commands_outcome step wd stop timeout (length commands)
                commands 1 0%nat true self w1) as H.
  cbn zeta in H.
  change (shell w1) with (shell w) in *.
  change (spawned w1) with (spawned w) in *.
  destruct (run_commands step wd stop timeout (length commands) 1 commands 0
              true self w1) as [[[self' all_ok] count] w2].
  cbn [fst snd andb] in H. destruct H as (H1 & H2 & H3 & H4).
  cbn [fst snd]. cbv beta iota.
  rewrite run_bind. cbn beta. cbn [display fst snd].
  match goal with
  | |- context [(if ?c then ?a else ?b) ?w0] =>
      set (w3 := w0);
      assert (Hfin : spawned (snd ((if c then a else b) w3)) = spawned w2
                     /\ snd (fst ((if c then a else b) w3)) = all_ok)
  end.
  { destruct (all_ok && Dict.mem step (steps self'))%bool.
    - rewrite run_bind. cbn beta. rewrite run_bind. cbn beta. cbn [ret fst snd].
      match goal with
      | |- context [mark_done step ?sc ?nt self' w3] =>
          destruct (mark_done_spawns step sc nt self' w3) as [_ E]
      end.
      match goal with
      | |- context [display_progress ?x ?w0] =>
          destruct (display_progress_spawns x w0) as [_ E']
      end.
      rewrite E', E. auto.
    - destruct (Dict.mem step (steps self')).
      + rewrite run_bind. cbn beta. cbn [ret fst snd].
        match goal with
        | |- context [autosave ?x w3] =>
            destruct (autosave_spawns x w3) as [_ E]
        end.
        rewrite E. auto.
      + cbn [ret fst snd]. auto. }
  destruct Hfin as [Hf1 Hf2]. rewrite Hf1, Hf2, H2, H3.
  split; [reflexivity|]. split; [lia|]. split.
  - intros ->. rewrite Hgo. lia.
  - intros Hok. rewrite (Hall _ _ Hok). split; [lia|].
    rewrite Hok. specialize (H4 Hok). cbn [andb].
    destruct (Dict.mem step (steps self')) eqn:Hm.
    + rewrite run_bind. cbn beta. rewrite run_bind. cbn beta. cbn [ret fst snd].
      eexists. rewrite mark_done_registry. cbv zeta.
      replace (truthy ("All " ++ str_nat (length commands)
                       ++ " shell commands executed successfully")) with true
        by reflexivity.
      apply update_step_same_steps, H4.
    + cbn [ret fst]. exists EmptyString. rewrite H4. unfold update_step.
      rewrite H4 in Hm. now rewrite (mem_get_none _ _ Hm).
Qed.

Lemma run_shell_sequence_outcome_witness :
  all_succeed (shell Sample.world2) (spawned Sample.world2)
    ["make"; "make test"] = true
  /\ spawned (snd (run_shell_sequence "Build" ["make"; "make test"] None true
                     30 Sample.done_tracker Sample.world2))
     = (spawned Sample.world2 + 2)%nat.
Proof.
  split; [reflexivity|].
  exact (proj1 (proj2 (proj2 (proj2
           (run_shell_sequence_outcome "Build" ["make"; "make test"] None true
              30 Sample.done_tracker Sample.world2))) eq_refl)).
Defined.

(* ------------------------------------------------------------------ *)
(** ** Scoring rules *)

Section RuleFacts.
Context {Namespace : Type}.
Variable module_globals : Namespace.
Implicit Types (ns : Namespace) (r : Rule.t Namespace)
  (self : LabValidator.t Namespace).

Import LabValidator.

Lemma same_rule_refl r : same_rule r r.
Proof. repeat split. Qed.

Lemma same_rule_outcome sc ok r : same_rule r (Rule.record_outcome sc ok r).
Proof. repeat split. Qed.

Lemma same_rule_trans r1 r2 r3 :
  same_rule r1 r2 -> same_rule r2 r3 -> same_rule r1 r3.
Proof.
  intros (A1 & A2 & A3 & A4) (B1 & B2 & B3 & B4).
  repeat split; congruence.
Qed.

Lemma same_rules_refl self : same_rules self self.
Proof.
  split; [reflexivity|]. intros n r H. exists r. split; [exact H|].
  apply same_rule_refl.
Qed.

Lemma same_rules_trans (a b c : LabValidator.t Namespace) :
  same_rules a b -> same_rules b c -> same_rules a c.
Proof.
  intros [K1 R1] [K2 R2]. split; [congruence|].
  intros n r H. destruct (R1 n r H) as (r1 & H1 & S1).
  destruct (R2 n r1 H1) as (r2 & H2 & S2).
  exists r2. split; [exact H2|]. now apply (same_rule_trans r r1 r2).
Qed.

Lemma validate_with_score_cases n ns self w :
  match Dict.get n (scoring_rules self) with
  | None => validate_with_score n ns self w = ((self, (false, 0%Q)), w)
  | Some r =>
      snd (fst (validate_with_score n ns self w))
      = (rule_success ns r, rule_score ns r)
      /\ scoring_rules (fst (fst (validate_with_score n ns self w)))
         = Dict.set n
             (Rule.record_outcome (rule_score ns r) (rule_success ns r) r)
             (scoring_rules self)
      /\ validation_history (fst (fst (validate_with_score n ns self w)))
         = (validation_history self
            ++ if answers ns r
               then [mk_entry n (rule_score ns r) (rule_success ns r)
                       (clock w (ticks w))]
               else [])%list
      /\ ticks (snd (validate_with_score n ns self w))
         = ((if answers ns r then 1 else 0) + ticks w)%nat
      /\ clock (snd (validate_with_score n ns self w)) = clock w
  end.
Proof.
  unfold validate_with_score, rule_success, rule_score, answers.
  destruct (Dict.get n (scoring_rules self)) as [r|]; [|reflexivity].
  destruct (run_checker (Rule.checker r) ns) as [[success score]|e].
  - rewrite run_bind. cbn. repeat split.
  - cbn. rewrite app_nil_r. repeat split.
Qed.

Lemma validate_with_score_same_rules n ns self w :
  same_rules self (fst (fst (validate_with_score n ns self w))).
Proof.
  pose proof (validate_with_score_cases n ns self w) as H.
  destruct (Dict.get n (scoring_rules self)) as [r|] eqn:Hget.
  - destruct H as (_ & Hrules & _). unfold same_rules. rewrite Hrules. split.
    + apply keys_set_present. apply mem_get. eauto.
    + intros m rm Hm. destruct (String.eqb m n) eqn:E.
      * apply String.eqb_eq in E. subst m.
        assert (rm = r) by congruence. subst rm.
        eexists. split; [apply get_set_same | apply same_rule_outcome].
      * apply String.eqb_neq in E. exists rm.
        split; [now rewrite get_set_other | apply same_rule_refl].
  - rewrite H. apply same_rules_refl.
Qed.

Lemma grade_rules_same_rules ns verbose rules : forall acc self w,
  same_rules self (fst (fst (grade_rules rules ns verbose acc self w))).
Proof.
  induction rules as [|[n r] rest IH]; intros acc self w.
  - apply same_rules_refl.
  - cbn [grade_rules]. rewrite run_bind.
    pose proof (validate_with_score_same_rules n ns self w) as H1.
    destruct (validate_with_score n ns self w) as [[self' [success score]] w'].
    cbn [fst snd] in *. rewrite run_bind.
    eapply same_rules_trans; [exact H1 | apply IH].
Qed.

Lemma run_auto_grading_same_rules globals verbose self w :
  same_rules self
    (fst (fst (run_auto_grading module_globals globals verbose self w))).
Proof.
  unfold run_auto_grading. rewrite run_bind; cbn beta. rewrite run_bind; cbn beta.
  match goal with
  | |- context [grade_rules ?rules ?ns ?v ?acc ?s ?w0] =>
      pose proof (grade_rules_same_rules ns v rules acc s w0) as H;
      destruct (grade_rules rules ns v acc s w0) as [[self' acc'] w']
  end.
  cbn [fst snd] in *. repeat (rewrite run_bind; cbn beta). exact H.
Qed.

End RuleFacts.

(** X21. The names of the scoring rules stay unique, and grading never
    changes a rule.  [add_scoring_rule] on a validator whose rule names
    are distinct gives one whose rule names are distinct: a new name
    goes last, a name already there keeps its place and gets the new
    rule with no outcome recorded; the other rules are not touched.
    [validate_with_score] and [run_auto_grading] leave the names and
    their order as they are, and in every rule the weight, checker,
    description and partial-credit flag. *)
Theorem scoring_rules_keep_their_names (Namespace : Type)
    (module_globals : Namespace) (self : LabValidator.t Namespace) :
  (forall name weight checker description partial_credit,
      let added :=
        LabValidator.add_scoring_rule name weight checker description
          partial_credit self in
      (NoDup (Dict.keys (LabValidator.scoring_rules self)) ->
       NoDup (Dict.keys (LabValidator.scoring_rules added)))
      /\ Dict.keys (LabValidator.scoring_rules added)
         = (if Dict.mem name (LabValidator.scoring_rules self)
            then Dict.keys (LabValidator.scoring_rules self)
            else Dict.keys (LabValidator.scoring_rules self) ++ [name])%list
      /\ Dict.get name (LabValidator.scoring_rules added)
         = Some (Rule.mk weight checker description partial_credit None None)
      /\ forall other,
           other <> name ->
           Dict.get other (LabValidator.scoring_rules added)
           = Dict.get other (LabValidator.scoring_rules self))
  /\ (forall rule_name ns w,
         same_rules self
           (fst (fst (LabValidator.validate_with_score rule_name ns self w))))
  /\ (forall globals verbose w,
         same_rules self
           (fst (fst (LabValidator.run_auto_grading module_globals globals
                        verbose self w)))).
Proof.
  split; [|split].
  - intros name weight checker description partial_credit. cbn zeta.
    unfold LabValidator.add_scoring_rule. cbn [LabValidator.scoring_rules].
    split; [apply set_keeps_NoDup|]. split; [|split].
    + destruct (Dict.mem name (LabValidator.scoring_rules self)) eqn:Hm.
      * now apply keys_set_present.
      * now apply keys_set_new.
    + apply get_set_same.
    + intros other Hne. now apply get_set_other.
  - intros. apply validate_with_score_same_rules.
  - intros. apply run_auto_grading_same_rules.
Qed.

Lemma scoring_rules_keep_their_names_witness :
  NoDup (Dict.keys (LabValidator.scoring_rules Sample.grader))
  /\ NoDup (Dict.keys
              (LabValidator.scoring_rules
                 (LabValidator.add_scoring_rule "tests" (1 # 2)
                    (Sample.returns true 100) "" true Sample.grader))).
Proof.
  assert (H : NoDup (Dict.keys (LabValidator.scoring_rules Sample.grader))).
  { repeat constructor; cbn; intuition discriminate. }
  split; [exact H|].
  exact (proj1 (proj1 (scoring_rules_keep_their_names unit tt Sample.grader)
                  "tests" (1 # 2) (Sample.returns true 100) "" true) H).
Defined.

(* ------------------------------------------------------------------ *)
(** ** Scores *)

Section ScoreFacts.
Context {Namespace : Type}.
Variable module_globals : Namespace.
Implicit Types (ns : Namespace) (r : Rule.t Namespace)
  (self : LabValidator.t Namespace) (rules : Dict.t (Rule.t Namespace)).

Import LabValidator.

Lemma pass_fail_rule_score ns r :
  Rule.partial_credit r = false ->
  rule_score ns r = pass_fail (rule_success ns r).
Proof.
  intros H. unfold rule_score, rule_success. rewrite H.
  now destruct (run_checker (Rule.checker r) ns) as [[success score]|e].
Qed.

(** The grading loop, rule by rule: what it leaves in the rules and in
    the history. *)
Lemma grade_rules_outcomes ns verbose rules : forall acc self w,
  NoDup (Dict.keys rules) ->
  (forall n r, In (n, r) rules -> Dict.get n (scoring_rules self) = Some r) ->
  let self' := fst (fst (grade_rules rules ns verbose acc self w)) in
  (forall n r,
      In (n, r) rules ->
      Dict.get n (scoring_rules self')
      = Some (Rule.record_outcome (rule_score ns r) (rule_success ns r) r))
  /\ (forall n,
         ~ In n (Dict.keys rules) ->
         Dict.get n (scoring_rules self') = Dict.get n (scoring_rules self))
  /\ exists new,
       validation_history self' = (validation_history self ++ new)%list
       /\ map entry_facts new
          = map (fun kr => (fst kr, rule_score ns (snd kr),
                            rule_success ns (snd kr)))
              (filter (fun kr => answers ns (snd kr)) rules).
Proof.
  induction rules as [|[n r] rest IH]; intros acc self w Hnd Hin; cbn zeta.
  - cbn [grade_rules ret fst]. split; [intros ? ? []|]. split; [reflexivity|].
    exists []. split; [now rewrite app_nil_r | reflexivity].
  - change (Dict.keys ((n, r) :: rest)) with (n :: Dict.keys rest) in *.
    inversion Hnd as [|? ? Hnotin Hnd']; subst.
    cbn [grade_rules]. rewrite run_bind.
    pose proof (validate_with_score_cases n ns self w) as Hv.
    rewrite (Hin n r (or_introl eq_refl)) in Hv.
    destruct Hv as (_ & Hrules & Hhist & _).
    destruct (validate_with_score n ns self w) as [[self1 [success score]] w1].
    cbn [fst snd] in *. rewrite run_bind.
    match goal with
    | |- context [grade_rules rest ns verbose ?acc1 self1 ?w2] =>
        specialize (IH acc1 self1 w2 Hnd')
    end.
    cbn zeta in IH.
    destruct IH as (I1 & I2 & new & I3 & I4).
    { intros m rm Hm. rewrite Hrules, get_set_other; [apply Hin; now right|].
      intros ->. apply Hnotin. change n with (fst (n, rm)). now apply in_map. }
    split; [|split].
    + intros m rm [Heq | Hm]; [|now apply I1].
      injection Heq as <- <-. rewrite (I2 n Hnotin), Hrules.
      apply get_set_same.
    + intros m Hm. rewrite I2 by (intros H; apply Hm; now right).
      rewrite Hrules. apply get_set_other. intros ->. apply Hm. now left.
    + rewrite I3, Hhist, <- app_assoc. eexists. split; [reflexivity|].
      cbn [filter snd]. rewrite map_app, I4.
      now destruct (answers ns r).
Qed.

Lemma run_auto_grading_validator globals verbose self w :
  fst (fst (run_auto_grading module_globals globals verbose self w))
  = fst (fst (grade_rules (scoring_rules self)
                (match globals with Some g => g | None => module_globals end)
                verbose (mk_tally [] 0 0) self
                (snd ((if verbose then display GradingHeader else ret tt) w)))).
Proof.
  unfold run_auto_grading. rewrite run_bind; cbn beta. rewrite run_bind; cbn beta.
  destruct (grade_rules _ _ _ _ _ _) as [[self' acc'] w'].
  cbn [fst snd]. repeat (rewrite run_bind; cbn beta). reflexivity.
Qed.

Lemma weighted_sum_bounds ns rules :
  (forall n r, In (n, r) rules ->
     (0 <= Rule.weight r)%Q /\ (0 <= rule_score ns r <= 100)%Q) ->
  (0 <= weighted_sum ns rules)%Q
  /\ (weighted_sum ns rules <= 100 * weight_sum rules)%Q.
Proof.
  unfold weighted_sum, weight_sum.
  induction rules as [|[n r] rest IH]; intros H.
  - unfold Qsum; cbn. split; [apply Qle_refl | discriminate].
  - cbn [map snd]. rewrite !Qsum_cons.
    destruct (H n r (or_introl eq_refl)) as (Hw & Hlo & Hhi).
    destruct IH as [I1 I2]; [intros m rm Hm; apply (H m rm); now right|].
    split.
    + rewrite <- (Qplus_0_r 0). apply Qplus_le_compat; [|exact I1].
      now apply Qmult_le_0_compat.
    + rewrite Qmult_plus_distr_r. apply Qplus_le_compat; [|exact I2].
      now apply Qmult_le_compat_r.
Qed.

End ScoreFacts.

(** X22. [validate_with_score] on a name that is no rule answers
    [(False, 0)] and changes nothing: no rule, no history entry, no
    clock reading.  On a rule it answers what the checker earns, stores
    exactly that in the rule's [last_score] and [last_result], and
    touches no other rule; a rule without partial credit scores 100 on
    success and 0 otherwise, whatever score its checker gave.  The
    history gets one entry, stamped with the clock reading of the call,
    when the checker answers, and none when it raises. *)
Theorem validate_with_score_outcome (Namespace : Type) rule_name
    (ns : Namespace) (self : LabValidator.t Namespace) w :
  let out := LabValidator.validate_with_score rule_name ns self w in
  match Dict.get rule_name (LabValidator.scoring_rules self) with
  | None => out = ((self, (false, 0%Q)), w)
  | Some rule =>
      snd (fst out) = (rule_success ns rule, rule_score ns rule)
      /\ (Rule.partial_credit rule = false ->
          rule_score ns rule
          = if rule_success ns rule then 100%Q else 0%Q)
      /\ Dict.get rule_name (LabValidator.scoring_rules (fst (fst out)))
         = Some (Rule.record_outcome (rule_score ns rule)
                   (rule_success ns rule) rule)
      /\ (forall other,
             other <> rule_name ->
             Dict.get other (LabValidator.scoring_rules (fst (fst out)))
             = Dict.get other (LabValidator.scoring_rules self))
      /\ LabValidator.validation_history (fst (fst out))
         = (LabValidator.validation_history self
            ++ if answers ns rule
               then [LabValidator.mk_entry rule_name (rule_score ns rule)
                       (rule_success ns rule) (clock w (ticks w))]
               else [])%list
  end.
Proof.
  cbn zeta. pose proof (validate_with_score_cases rule_name ns self w) as H.
  destruct (Dict.get rule_name (LabValidator.scoring_rules self)) as [rule|];
    [|exact H].
  destruct H as (Hres & Hrules & Hhist & _).
  split; [exact Hres|]. split; [apply pass_fail_rule_score|].
  rewrite Hrules. split; [apply get_set_same|]. split; [|exact Hhist].
  intros other Hne. now apply get_set_other.
Qed.

Lemma validate_with_score_outcome_witness :
  Rule.partial_credit
    (Rule.mk (1 # 2) (Sample.returns true 40) "" false None None) = false
  /\ rule_score tt
       (Rule.mk (1 # 2) (Sample.returns true 40) "" false None None)
     = 100%Q.
Proof.
  split; [reflexivity|].
  exact (proj1 (proj2
           (validate_with_score_outcome unit "tests" tt
              (LabValidator.add_scoring_rule "tests" (1 # 2)
                 (Sample.returns true 40) "" false Sample.no_rules)
              Sample.world)) eq_refl).
Defined.

(** X23. After [run_auto_grading] on rules with distinct names, every
    rule carries as [last_score] and [last_result] what its checker
    earns on the namespace, and the validation history has grown by one
    entry for each rule whose checker answered, in the order of the
    rules, with the rule's name, score and success; a rule whose
    checker raised gets no entry. *)
Theorem run_auto_grading_records_outcomes (Namespace : Type)
    (module_globals : Namespace) globals verbose
    (self : LabValidator.t Namespace) w :
  NoDup (Dict.keys (LabValidator.scoring_rules self)) ->
  let ns := match globals with Some g => g | None => module_globals end in
  let graded :=
    fst (fst (LabValidator.run_auto_grading module_globals globals verbose
                self w)) in
  (forall n r,
      Dict.get n (LabValidator.scoring_rules self) = Some r ->
      Dict.get n (LabValidator.scoring_rules graded)
      = Some (Rule.record_outcome (rule_score ns r) (rule_success ns r) r))
  /\ exists new,
       LabValidator.validation_history graded
       = (LabValidator.validation_history self ++ new)%list
       /\ map entry_facts new
          = map (fun kr => (fst kr, rule_score ns (snd kr),
                            rule_success ns (snd kr)))
              (filter (fun kr => answers ns (snd kr))
                 (LabValidator.scoring_rules self)).
Proof.
  intros Hnd. cbn zeta. rewrite run_auto_grading_validator.
  match goal with
  | |- context [LabValidator.grade_rules ?rules ?ns ?v ?acc self ?w0] =>
      destruct (grade_rules_outcomes ns v rules acc self w0 Hnd)
        as (H1 & _ & H3)
  end.
  { intros n r. now apply NoDup_keys_get. }
  split; [|exact H3].
  intros n r Hget. apply H1. now apply get_in.
Qed.

Lemma run_auto_grading_records_outcomes_witness :
  NoDup (Dict.keys (LabValidator.scoring_rules Sample.faulty_grader))
  /\ exists new,
       LabValidator.validation_history
         (fst (fst (LabValidator.run_auto_grading tt None false
                      Sample.faulty_grader Sample.world)))
       = (LabValidator.validation_history Sample.faulty_grader ++ new)%list
       /\ map entry_facts new
          = map (fun kr => (fst kr, rule_score tt (snd kr),
                            rule_success tt (snd kr)))
              (filter (fun kr => answers tt (snd kr))
                 (LabValidator.scoring_rules Sample.faulty_grader)).
Proof.
  assert (H : NoDup (Dict.keys (LabValidator.scoring_rules Sample.faulty_grader))).
  { repeat constructor; cbn; intuition discriminate. }
  split; [exact H|].
  exact (proj2 (run_auto_grading_records_outcomes unit tt None false
                  Sample.faulty_grader Sample.world H)).
Defined.



(* ------------------------------------------------------------------ *)
(** ** Letter grades *)

Lemma Qgeb_true (x y : Q) : Qgeb x y = true <-> (y <= x)%Q.
Proof. unfold Qgeb. apply Qle_bool_iff. Qed.

Lemma Qgeb_false (x y : Q) : Qgeb x y = false <-> (x < y)%Q.
Proof.
  unfold Qgeb. split.
  - intros H. apply Qnot_le_lt. intros Hle. apply Qle_bool_iff in Hle.
    congruence.
  - intros H. destruct (Qle_bool y x) eqn:E; [|reflexivity].
    apply Qle_bool_iff in E. exfalso. exact (Qlt_not_le _ _ H E).
Qed.

(** The band a score falls in: the rank of its grade, the greatest
    threshold it reaches (if any) and the least it misses (if any). *)
Lemma grade_band (score : Q) :
  exists k lo hi,
    grade_rank (_score_to_grade score) = k
    /\ (k = 0%nat \/ (lo <= score)%Q)
    /\ (k = 11%nat \/ (score < hi)%Q)
    /\ In (k, lo, hi)
         [(11%nat, 93%Q, 93%Q);
          (10%nat, 90%Q, 93%Q);
          (9%nat, 87%Q, 90%Q);
          (8%nat, 83%Q, 87%Q);
          (7%nat, 80%Q, 83%Q);
          (6%nat, 77%Q, 80%Q);
          (5%nat, 73%Q, 77%Q);
          (4%nat, 70%Q, 73%Q);
          (3%nat, 67%Q, 70%Q);
          (2%nat, 63%Q, 67%Q);
          (1%nat, 60%Q, 63%Q);
          (0%nat, 60%Q, 60%Q)].
Proof.
  unfold _score_to_grade.
  repeat match goal with
         | |- context [if Qgeb score ?t then _ else _] =>
             let E := fresh "E" in
             destruct (Qgeb score t) eqn:E;
             [apply Qgeb_true in E | apply Qgeb_false in E]
         end;
    do 3 eexists;
    (split; [reflexivity|]);
    (split; [first [left; reflexivity | right; eassumption]|]);
    (split; [first [left; reflexivity | right; eassumption]|]);
    cbn [In]; tauto.
Qed.

(** X25. [_score_to_grade] is monotone: a score that is at least
    another never gets a lower letter grade (the grades ranked F, D-, D,
    D+, C-, C, C+, B-, B, B+, A-, A).  The grade is F exactly for the
    scores below 60 and A exactly for the scores from 93 on. *)
Theorem score_to_grade_is_monotone (low high : Q) :
  ((low <= high)%Q ->
   (grade_rank (_score_to_grade low) <= grade_rank (_score_to_grade high))%nat)
  /\ (_score_to_grade low = "F" <-> (low < 60)%Q)
  /\ (_score_to_grade low = "A" <-> (93 <= low)%Q).
Proof.
  split; [|split].
  - intros Hle.
    destruct (grade_band low) as (k1 & lo1 & hi1 & Hk1 & Hlo1 & _ & Hin1).
    destruct (grade_band high) as (k2 & lo2 & hi2 & Hk2 & _ & Hhi2 & Hin2).
    rewrite Hk1, Hk2. clear Hk1 Hk2.
    assert (Hcmp : k1 = 0%nat \/ k2 = 11%nat \/ (lo1 < hi2)%Q).
    { destruct Hlo1 as [-> | Hlo1]; [now left|].
      destruct Hhi2 as [-> | Hhi2]; [right; now left|].
      right; right. apply (Qle_lt_trans _ low); [exact Hlo1|].
      now apply (Qle_lt_trans _ high). }
    clear Hlo1 Hhi2 Hle.
    cbn [In] in Hin1, Hin2.
    repeat match goal with
           | H : _ \/ _ |- _ => destruct H
           | H : False |- _ => destruct H
           | H : (_, _, _) = (_, _, _) |- _ => injection H as <- <- <-
           | H : (_ < _)%Q |- _ => vm_compute in H; try discriminate H; clear H
           | H : @eq nat _ _ |- _ => try discriminate H; clear H
           end;
      repeat constructor.
  - unfold _score_to_grade.
    destruct (Qgeb low 60) eqn:E60.
    + apply Qgeb_true in E60. split.
      * repeat match goal with
               | |- context [if Qgeb low ?t then _ else _] =>
                   destruct (Qgeb low t)
               end; discriminate.
      * intros H. exfalso. exact (Qlt_not_le _ _ H E60).
    + apply Qgeb_false in E60. split; [intros _; exact E60|]. intros _.
      repeat match goal with
             | |- context [if Qgeb low ?t then _ else _] =>
                 let E := fresh "E" in
                 destruct (Qgeb low t) eqn:E;
                 [apply Qgeb_true in E; exfalso;
                  assert (Hc : (t < 60)%Q)
                    by (now apply (Qle_lt_trans _ low));
                  vm_compute in Hc; discriminate Hc|]
             end.
      reflexivity.
  - unfold _score_to_grade. destruct (Qgeb low 93) eqn:E93.
    + apply Qgeb_true in E93. split; [intros _; exact E93 | reflexivity].
    + apply Qgeb_false in E93. split.
      * repeat match goal with
               | |- context [if Qgeb low ?t then _ else _] =>
                   destruct (Qgeb low t)
               end; discriminate.
      * intros H. exfalso. exact (Qlt_not_le _ _ E93 H).
Qed.

Lemma score_to_grade_is_monotone_witness :
  ((72 # 1) <= (91 # 1))%Q
  /\ (grade_rank (_score_to_grade (72 # 1))
      <= grade_rank (_score_to_grade (91 # 1)))%nat.
Proof.
  assert (H : ((72 # 1) <= (91 # 1))%Q) by discriminate.
  split; [exact H|].
  exact (proj1 (score_to_grade_is_monotone (72 # 1) (91 # 1)) H).
Defined.

(* ------------------------------------------------------------------ *)
(** ** Plain validations *)

Lemma display_result_verdict b self w :
  verdict self w (Validation._display_result b self w) b.
Proof.
  unfold verdict, Validation._display_result. rewrite run_bind.
  cbn. repeat split. eexists. reflexivity.
Qed.

Lemma invalid_items_nil {A} (f : A -> result bool) lst : forall i,
  Validation.invalid_items f i lst = [] <-> Forall (fun x => f x = Ok true) lst.
Proof.
  induction lst as [|x rest IH]; intros i; cbn [Validation.invalid_items].
  - split; [constructor | reflexivity].
  - destruct (f x) as [[|]|e] eqn:E.
    + rewrite IH. split; [now constructor|]. now inversion 1.
    + split; [discriminate|]. inversion 1; congruence.
    + split; [discriminate|]. inversion 1; congruence.
Qed.

(** X26. Each plain validation answers its verdict, keeps it in
    [last_validation_result], shows one result box and touches neither
    the attached tracker nor any file.  The verdict of [validate_custom]
    is the condition; that of [validate_range] is true exactly when the
    value is at least the minimum, if one is given, and at most the
    maximum, if one is given; that of [validate_file_exists] is whether
    the path exists; that of [validate_list_items] is true exactly when
    the validator function answers true on every item without raising
    (so it is true for the empty list). *)
Theorem plain_validations_answer_their_test (self : Validation.t) w :
  (forall condition,
      verdict self w (Validation.validate_custom condition self w) condition)
  /\ (forall value min_val max_val,
         exists b,
           verdict self w
             (Validation.validate_range value min_val max_val self w) b
           /\ (b = true <->
               (forall lo, min_val = Some lo -> (lo <= value)%Q)
               /\ (forall hi, max_val = Some hi -> (value <= hi)%Q)))
  /\ (forall filepath,
         verdict self w (Validation.validate_file_exists filepath self w)
           (Dict.mem filepath (files w)))
  /\ (forall (A : Type) (lst : list A) validator_func,
         exists b,
           verdict self w
             (Validation.validate_list_items lst validator_func self w) b
           /\ (b = true <-> Forall (fun x => validator_func x = Ok true) lst)).
Proof.
  split; [|split; [|split]].
  - intros []; apply display_result_verdict.
  - intros value min_val max_val. unfold Validation.validate_range.
    assert (Hlt : forall a b, Qltb a b = false -> (b <= a)%Q).
    { intros a b H. apply Qnot_lt_le. intros Hc. apply Qltb_true in Hc.
      congruence. }
    destruct min_val as [lo|]; [destruct (Qltb value lo) eqn:Elo|];
      (destruct max_val as [hi|]; [destruct (Qltb hi value) eqn:Ehi|]);
      eexists; (split; [apply display_result_verdict|]);
      try apply Qltb_true in Elo; try apply Qltb_true in Ehi;
      try apply Hlt in Elo; try apply Hlt in Ehi;
      (split; [try discriminate; intros _; split; intros ? [= <-]; assumption
              |try reflexivity; intros [H1 H2]; exfalso]);
      try (specialize (H1 _ eq_refl); exact (Qlt_not_le _ _ Elo H1));
      try (specialize (H2 _ eq_refl); exact (Qlt_not_le _ _ Ehi H2)).
  - intros filepath. unfold Validation.validate_file_exists.
    rewrite run_bind. cbn [path_exists fst snd].
    destruct (Dict.mem filepath (files w)); apply display_result_verdict.
  - intros A lst f. unfold Validation.validate_list_items.
    pose proof (invalid_items_nil f lst 0) as H.
    destruct (Validation.invalid_items f 0 lst) as [|i rest];
      eexists; (split; [apply display_result_verdict|]).
    + split; [intros _; now apply H | reflexivity].
    + split; [discriminate|]. intros HF. apply H in HF. discriminate.
Qed.

Lemma plain_validations_answer_their_test_witness :
  exists b,
    verdict (Validation.mk None None) Sample.world
      (Validation.validate_range 5 (Some 1%Q) (Some 10%Q)
         (Validation.mk None None) Sample.world) b
    /\ b = true.
Proof.
  destruct (proj1 (proj2 (plain_validations_answer_their_test
                            (Validation.mk None None) Sample.world))
              5%Q (Some 1%Q) (Some 10%Q)) as (b & Hv & Hb).
  exists b. split; [exact Hv|]. apply Hb.
  split; intros ? [= <-]; discriminate.
Defined.

Lemma display_result_run b self w :
  Validation._display_result b self w
  = ((Validation.mk (Validation.progress_tracker self) (Some b), b),
     snd (display (Printed (if b then "validation passed"
                            else "validation failed")) w)).
Proof. reflexivity. Qed.

(** X27. [validate_and_mark_complete] answers the condition and keeps
    it as the last result, with or without a tracker.  With a false
    condition, or with no tracker attached, the tracker is not touched.
    With a true condition and a tracker, the step is marked through
    [mark_done] with no score: a step of the registry becomes completed,
    stamped with the clock reading of the call, and loses the score it
    had; for a name that is no step the registry stays as it is while
    the answer is still true.  The closure of [create_step_validator]
    is this method for its step. *)
Theorem validate_and_mark_complete_outcome step condition
    (self : Validation.t) w :
  let out := Validation.validate_and_mark_complete step condition self w in
  snd (fst out) = condition
  /\ Validation.last_validation_result (fst (fst out)) = Some condition
  /\ Validation.create_step_validator step condition self w = out
  /\ match Validation.progress_tracker self with
     | None => Validation.progress_tracker (fst (fst out)) = None
     | Some tracker =>
         if condition then
           exists tracker',
             Validation.progress_tracker (fst (fst out)) = Some tracker'
             /\ steps tracker'
                = steps (update_step step
                           (Step.complete (isoformat (clock w (ticks w))) None)
                           tracker)
             /\ (Dict.mem step (steps tracker) = false ->
                 steps tracker' = steps tracker)
         else Validation.progress_tracker (fst (fst out)) = Some tracker
     end.
Proof.
  cbn zeta. unfold Validation.create_step_validator,
    Validation.validate_and_mark_complete, Validation.validate_custom.
  rewrite run_bind. cbn beta.
  assert (E : (if condition then Validation._display_result true self
               else Validation._display_result false self)
              = Validation._display_result condition self)
    by now destruct condition.
  rewrite E, display_result_run. clear E.
  cbn [fst snd Validation.progress_tracker Validation.last_validation_result].
  cbv beta iota.
  destruct (Validation.progress_tracker self) as [tracker|];
    [destruct condition|];
    try (cbn [ret fst snd Validation.progress_tracker
              Validation.last_validation_result]; repeat split; reflexivity).
  rewrite run_bind. cbn [ret fst snd Validation.progress_tracker
                         Validation.last_validation_result].
  repeat split. eexists. split; [reflexivity|].
  rewrite mark_done_registry. cbn [truthy display snd ticks clock]. cbv zeta.
  split; [reflexivity|].
  intros Hm. unfold update_step. now rewrite (mem_get_none _ _ Hm).
Qed.

Lemma validate_and_mark_complete_outcome_witness :
  let out :=
    Validation.validate_and_mark_complete "Setup" true
      (Validation.mk (Some Sample.done_tracker) None) Sample.world2 in
  exists tracker',
    Validation.progress_tracker (fst (fst out)) = Some tracker'
    /\ option_map Step.score (Dict.get "Setup" (steps Sample.done_tracker))
       = Some (Some (90 # 1))
    /\ option_map Step.score (Dict.get "Setup" (steps tracker'))
       = Some None.
Proof.
  cbn zeta.
  destruct (proj2 (proj2 (proj2
              (validate_and_mark_complete_outcome "Setup" true
                 (Validation.mk (Some Sample.done_tracker) None)
                 Sample.world2))))
    as (tracker' & Ht & Hs & _).
  exists tracker'. split; [exact Ht|]. split; [reflexivity|].
  rewrite Hs. reflexivity.
Defined.

(* ------------------------------------------------------------------ *)
(** ** Invariants of a session *)

(** A property of trackers that the assignments of the methods keep is
    kept by every method, and so by every session. *)
Section Invariant.
Variable P : t -> Prop.
Hypothesis P_update : forall step f self, P self -> P (update_step step f self).
Hypothesis P_start :
  forall d self, P self -> P (with_step_start_times d self).
Hypothesis P_metadata :
  forall d self, P self -> P (with_step_metadata d self).
Hypothesis P_event :
  forall kind step kw self w,
    In kind event_types ->
    Forall (fun k => Dict.get k kw = None) event_keys ->
    P self ->
    P (fst (_record_analytics_event kind (Some step) kw self w)).

Ltac event_side :=
  solve [ cbn; tauto | repeat constructor ].

Lemma record_event_inv kind step kw self :
  In kind event_types ->
  Forall (fun k => Dict.get k kw = None) event_keys ->
  P self -> always P (_record_analytics_event kind (Some step) kw self).
Proof. intros Hk Hkw H w. now apply P_event. Qed.

Lemma mark_done_inv step score notes self :
  P self -> always P (mark_done step score notes self).
Proof.
  intros H. unfold mark_done. destruct (Dict.mem step (steps self)).
  - apply always_bind_any; intros completion_time.
    eapply always_bind.
    + apply record_event_inv; [event_side | event_side |].
      destruct (truthy notes); auto.
    + intros self' H'. apply autosave_then, display_progress_then.
      now apply always_ret.
  - apply always_bind_any; intros _. now apply always_ret.
Qed.

Lemma mark_partial_inv step progress notes cp self :
  P self -> always P (mark_partial step progress notes cp self).
Proof.
  intros H. unfold mark_partial.
  destruct (Dict.mem step (steps self)); [|now apply always_ret].
  eapply always_bind with (Q := P).
  { match goal with |- context [if ?c then _ else _] => destruct c end.
    - apply always_bind_any; intros started. apply always_ret.
      apply P_start. destruct (truthy notes); auto.
    - apply always_ret. destruct (truthy notes); auto. }
  clear self H. intros self H.
  eapply always_bind with (Q := P).
  { destruct cp as [name|]; [|now apply always_ret].
    destruct (truthy name); [|now apply always_ret].
    apply always_bind_any; intros stamp. apply always_ret. auto. }
  clear self H. intros self H.
  eapply always_bind.
  - apply record_event_inv; [event_side | event_side | exact H].
  - intros self' H'. apply autosave_then, display_progress_then.
    now apply always_ret.
Qed.

Lemma increment_attempts_inv step self :
  P self -> always P (increment_attempts step self).
Proof.
  intros H. unfold increment_attempts.
  destruct (Dict.mem step (steps self)); [|now apply always_ret].
  eapply always_bind.
  - apply record_event_inv; [event_side | event_side | auto].
  - intros self' H'. apply autosave_then. now apply always_ret.
Qed.

Lemma reset_step_inv step self :
  P self -> always P (reset_step step self).
Proof.
  intros H. unfold reset_step.
  destruct (Dict.mem step (steps self)); [|now apply always_ret].
  apply autosave_then, display_progress_then, always_ret. auto.
Qed.

Lemma reset_all_inv self : P self -> always P (reset_all self).
Proof.
  unfold reset_all. generalize (Dict.keys (steps self)) as names.
  intros names. revert self.
  induction names as [|step rest IH]; intros self H.
  - now apply always_ret.
  - cbn [reset_each]. eapply always_bind; [apply reset_step_inv, H|].
    intros self' H'. now apply IH.
Qed.

Lemma set_step_metadata_inv step metadata self :
  P self -> always P (set_step_metadata step metadata self).
Proof.
  intros H. unfold set_step_metadata.
  destruct (Dict.mem step (steps self)); [|now apply always_ret].
  apply autosave_then, always_ret. auto.
Qed.

Lemma run_shell_step_inv step_name command expected timeout working_dir
    auto_mark show self :
  P self ->
  always (fun r => P (fst r))
    (run_shell_step step_name command expected timeout working_dir auto_mark
       show self).
Proof.
  intros H. unfold run_shell_step.
  eapply always_bind with (Q := P).
  { destruct (Dict.mem step_name (_step_start_times self)).
    - now apply always_ret.
    - apply always_bind_any; intros started. apply always_ret. auto. }
  clear self H. intros self H.
  apply always_bind_any; intros here.
  apply always_bind_any; intros _.
  apply always_bind_any; intros outcome.
  destruct outcome as [returncode stdout stderr execution_time | | msg].
  - apply always_bind_any; intros _.
    eapply always_bind;
      [apply record_event_inv; [event_side | event_side | exact H]|].
    clear self H. intros self H.
    match goal with |- context [if ?c then _ else _] => destruct c end.
    + eapply always_bind; [apply mark_done_inv, H|].
      intros self' H'. apply always_bind_any; intros _. now apply always_ret.
    + match goal with |- context [if ?c then _ else _] => destruct c end.
      * apply autosave_then, always_ret. cbn [fst]. auto.
      * now apply always_ret.
  - apply always_bind_any; intros _.
    eapply always_bind;
      [apply record_event_inv; [event_side | event_side | exact H]|].
    intros self' H'. now apply always_ret.
  - apply always_bind_any; intros _.
    eapply always_bind;
      [apply record_event_inv; [event_side | event_side | exact H]|].
    intros self' H'. now apply always_ret.
Qed.

Lemma run_commands_inv step_name working_dir stop timeout total commands :
  forall i count all_ok self,
    P self ->
    always (fun r => P (fst (fst r)))
      (run_commands step_name working_dir stop timeout total i commands count
         all_ok self).
Proof.
  induction commands as [|command rest IH]; intros i count all_ok self H.
  - now apply always_ret.
  - cbn [run_commands]. apply always_bind_any; intros _.
    eapply always_bind; [apply run_shell_step_inv, H|].
    intros [self' success] H'. cbn [fst] in H'.
    destruct success; [now apply IH|].
    destruct stop; [now apply always_ret | now apply IH].
Qed.

Lemma run_shell_sequence_inv step_name commands working_dir stop timeout self :
  P self ->
  always (fun r => P (fst r))
    (run_shell_sequence step_name commands working_dir stop timeout self).
Proof.
  intros H. unfold run_shell_sequence.
  apply always_bind_any; intros _.
  eapply always_bind; [apply run_commands_inv, H|].
  intros [[self' all_ok] count] H'. cbn [fst] in H'.
  apply always_bind_any; intros _.
  match goal with |- context [if ?c then _ else _] => destruct c end.
  - eapply always_bind; [apply mark_done_inv, H'|].
    intros self2 H2. apply display_progress_then. now apply always_ret.
  - match goal with |- context [if ?c then _ else _] => destruct c end.
    + apply autosave_then, always_ret. cbn [fst]. auto.
    + now apply always_ret.
Qed.

Lemma run_call_inv c self : P self -> always P (run_call c self).
Proof.
  intros H. destruct c; cbn [run_call].
  - now apply mark_done_inv.
  - now apply mark_partial_inv.
  - now apply increment_attempts_inv.
  - now apply reset_step_inv.
  - now apply reset_all_inv.
  - now apply set_step_metadata_inv.
  - eapply always_bind; [apply run_shell_step_inv, H|].
    intros r Hr. now apply always_ret.
  - eapply always_bind; [apply run_shell_sequence_inv, H|].
    intros r Hr. now apply always_ret.
Qed.

Lemma run_calls_inv cs : forall self, P self -> always P (run_calls cs self).
Proof.
  induction cs as [|c rest IH]; intros self H.
  - now apply always_ret.
  - cbn [run_calls]. eapply always_bind; [apply run_call_inv, H|].
    intros self' H'. now apply IH.
Qed.

End Invariant.

Lemma attributed_refl self : attributed self self.
Proof.
  repeat split. exists []. split; [now rewrite app_nil_r | constructor].
Qed.

Lemma attributed_update base step f self :
  attributed base self -> attributed base (update_step step f self).
Proof.
  intros (H1 & H2 & H3 & H4).
  destruct (update_step_identity step f self) as (I1 & I2 & I3 & _).
  unfold attributed. rewrite I1, I2, I3, update_step_analytics. auto.
Qed.

Lemma attributed_event base kind step kw self w :
  In kind event_types ->
  Forall (fun k => Dict.get k kw = None) event_keys ->
  attributed base self ->
  attributed base (fst (_record_analytics_event kind (Some step) kw self w)).
Proof.
  intros Hkind Hkw (H1 & H2 & H3 & added & H4 & H5).
  unfold _record_analytics_event. rewrite run_bind.
  cbn [ret fst _session_id _student_id lab_name _analytics_data
       with_analytics_data].
  split; [exact H1|]. split; [exact H2|]. split; [exact H3|].
  eexists. split; [rewrite H4, <- app_assoc; reflexivity|].
  apply Forall_app. split; [exact H5|]. constructor; [|constructor].
  unfold event_keys in Hkw.
  repeat match goal with
         | H : Forall _ (_ :: _) |- _ => inversion H; subst; clear H
         end.
  unfold tagged. cbn [event_field].
  rewrite !fold_set_get_other by assumption. cbn [Dict.get String.eqb
    Ascii.eqb Bool.eqb json_opt]. rewrite H1, H2, H3.
  repeat split; eauto.
Qed.

